(** * monolith-agent-editor: path guard, tool executor, marker codec,
      edit ledger and tree store

    A shallow embedding of the agent orchestration and edit-synchronisation
    core of the editor:

    - [electron/main.ts]: [isWithinWorkspace], [readDirSafe], the [fs:*]
      handlers, [executeAITool], the [ai:applyEdit] handler, the tool
      loop of [ai:sendMessage] with the workspace path it reads from the
      prompt, and [dialog:selectImage];
    - [src/stores/chatStore.ts]: the pending-edit ledger, the sessions
      and their messages, the pending images and
      [getConversationHistory];
    - [src/components/chat/MessageList.tsx], [DiffBlock.tsx] and
      [ChatPanel.tsx]: [parseMessageContent] (on the untyped values it
      handles, and read at the types of the payloads the program emits),
      the registration effect, the accept and reject handlers, the
      buttons that trigger them and what [React.memo] keeps of them on
      screen, [generateDiff], and [handleSendMessage] up to the call of
      the main process;
    - [src/stores/workspaceStore.ts]: the tree helpers, the creation and
      editing actions, [toggleFolder], [handleFsChange] and the editor
      tabs;
    - [src/services/contextService.ts] and [src/lib/languageUtils.ts]:
      [buildSystemPrompt] and [getLanguageFromPath].

    JavaScript strings are modelled as [string] (sequences of 8-bit
    characters); white space is the ASCII one, and so is the case folding
    of the file extensions that are looked up in tables.  Node's [path]
    functions, the directory listing, the collation order of
    [localeCompare] and the case folding of paths in the path guard and
    in the image picker belong to the platform and are taken as an
    interface ([Platform]); a POSIX instance with ASCII case folding is
    given for concrete runs.  The disk is a finite map from resolved paths
    to file contents: one file per resolved path, so links and
    case-insensitive volumes, where two resolved paths name one file, are
    outside the model. *)

From Stdlib Require Import Ascii String List ZArith Lia Bool.
From Stdlib Require Import Sorting.Sorted Sorting.Permutation DecimalString.
From stdpp Require Import base gmap strings list.

Local Open Scope stdpp_scope.
Set Warnings "-register-all".

(** ** Results of operations that may throw *)

Inductive result (A : Type) : Type :=
| Ok (a : A)
| Throw (msg : string).
Arguments Ok {A} a.
Arguments Throw {A} msg.

Definition is_ok {A} (r : result A) : bool :=
  match r with Ok _ => true | Throw _ => false end.

(** ** JavaScript string methods used by the program *)

Module JSString.

(** [s.startsWith(p)] *)
Fixpoint startsWith (s p : string) {struct p} : bool :=
  match p, s with
  | EmptyString, _ => true
  | String a p', String b s' => if Ascii.eqb a b then startsWith s' p' else false
  | String _ _, EmptyString => false
  end.

Fixpoint drop (n : nat) (s : string) : string :=
  match n, s with
  | O, _ => s
  | S n', String _ s' => drop n' s'
  | S _, EmptyString => EmptyString
  end.

(** The first occurrence of [pat] in [s], as the text before it and the
    text after it ([s.indexOf(pat)] and the two slices around it). *)
Fixpoint splitFirst (s pat : string) {struct s} : option (string * string) :=
  if startsWith s pat then Some (EmptyString, drop (String.length pat) s)
  else match s with
       | EmptyString => None
       | String c s' =>
           match splitFirst s' pat with
           | Some (a, b) => Some (String c a, b)
           | None => None
           end
       end.

(** [s.includes(pat)] *)
Definition includes (s pat : string) : bool :=
  match splitFirst s pat with Some _ => true | None => false end.

(** The replacement text of [String.prototype.replace] for a string
    pattern (ECMAScript GetSubstitution with no captures): [$$] is a
    dollar, [$&] the matched text, [$`] the text before the match, [$']
    the text after it; every other character stands for itself. *)
Fixpoint getSubstitution (matched before after repl : string) : string :=
  match repl with
  | EmptyString => EmptyString
  | String c r =>
      if Ascii.eqb c "$" then
        match r with
        | String d r' =>
            if Ascii.eqb d "$" then String "$" (getSubstitution matched before after r')
            else if Ascii.eqb d "&" then matched +:+ getSubstitution matched before after r'
            else if Ascii.eqb d "`" then before +:+ getSubstitution matched before after r'
            else if Ascii.eqb d "'" then after +:+ getSubstitution matched before after r'
            else String c (getSubstitution matched before after r)
        | EmptyString => String c EmptyString
        end
      else String c (getSubstitution matched before after r)
  end.

(** [s.replace(pat, repl)] with a string pattern: the first occurrence only. *)
Definition replace (s pat repl : string) : string :=
  match splitFirst s pat with
  | Some (before, after) => before +:+ getSubstitution pat before after repl +:+ after
  | None => s
  end.

Definition mapChars (f : ascii -> ascii) : string -> string :=
  fix go (s : string) : string :=
    match s with
    | EmptyString => EmptyString
    | String c s' => String (f c) (go s')
    end.

Definition lowerChar (c : ascii) : ascii :=
  let n := nat_of_ascii c in
  if (65 <=? n)%nat && (n <=? 90)%nat then ascii_of_nat (n + 32) else c.

(** [s.toLowerCase()] on a text of ASCII letters: the letters A to Z are
    folded, every other character is kept.  (The builtin also folds the
    cased letters outside ASCII; where the program folds a path, in the
    path guard and in the image picker, the folding is taken from the
    platform.) *)
Definition toLowerCase : string -> string := mapChars lowerChar.

(** [s.replace(/\\/g, '/')] *)
Definition slashes : string -> string :=
  mapChars (fun c => if Ascii.eqb c "\" then "/"%char else c).

Definition isSpace (c : ascii) : bool :=
  let n := nat_of_ascii c in
  ((9 <=? n)%nat && (n <=? 13)%nat) || (n =? 32)%nat.

Fixpoint trimStart (s : string) : string :=
  match s with
  | String c s' => if isSpace c then trimStart s' else s
  | EmptyString => EmptyString
  end.

Fixpoint trimEnd (s : string) : string :=
  match s with
  | EmptyString => EmptyString
  | String c s' =>
      match trimEnd s' with
      | EmptyString => if isSpace c then EmptyString else String c EmptyString
      | t => String c t
      end
  end.

(** [s.trim()], for the ASCII white space (the builtin also strips the
    white space outside ASCII, such as U+00A0 and U+FEFF). *)
Definition trim (s : string) : string := trimEnd (trimStart s).

(** Truthiness of a string: the empty string is falsy. *)
Definition truthy (s : string) : bool :=
  match s with EmptyString => false | String _ _ => true end.

(** [arr.join(sep)] *)
Fixpoint joinWith (sep : string) (l : list string) : string :=
  match l with
  | [] => EmptyString
  | [x] => x
  | x :: rest => x +:+ sep +:+ joinWith sep rest
  end.

(** [s.split(sep)] for a one-character separator. *)
Fixpoint splitOn (sep : ascii) (s : string) : list string :=
  match s with
  | EmptyString => [EmptyString]
  | String c s' =>
      if Ascii.eqb c sep then EmptyString :: splitOn sep s'
      else match splitOn sep s' with
           | x :: rest => String c x :: rest
           | [] => [String c EmptyString]
           end
  end.

(** [String(n)] for a natural number. *)
Definition ofNat (n : nat) : string := NilEmpty.string_of_uint (Nat.to_uint n).
Definition ofN (n : N) : string := NilEmpty.string_of_uint (N.to_uint n).

End JSString.

(** ** JSON values, [JSON.stringify] and [JSON.parse]

    The builtin serialiser and parser, for the values the program
    exchanges.  A number keeps its lexeme.  A [\u] escape above code 255
    has no 8-bit character and is refused by this parser. *)

Module Json.

Inductive value : Type :=
| JNull
| JBool (b : bool)
| JNum (lexeme : string)
| JStr (s : string)
| JArr (items : list value)
| JObj (fields : list (string * value)).

Definition dquote : ascii := "034"%char.

Definition hexDigit (n : nat) : ascii :=
  if (n <? 10)%nat then ascii_of_nat (48 + n) else ascii_of_nat (87 + n).

Definition escapeChar (c : ascii) : string :=
  let n := nat_of_ascii c in
  if Ascii.eqb c dquote then String "\" (String dquote EmptyString)
  else if Ascii.eqb c "\" then "\\"
  else if (n =? 8)%nat then "\b"
  else if (n =? 9)%nat then "\t"
  else if (n =? 10)%nat then "\n"
  else if (n =? 12)%nat then "\f"
  else if (n =? 13)%nat then "\r"
  else if (n <? 32)%nat then
    "\u00" +:+ String (hexDigit (n / 16)) (String (hexDigit (n mod 16)) EmptyString)
  else String c EmptyString.

Fixpoint escapeBody (s : string) : string :=
  match s with
  | EmptyString => EmptyString
  | String c r => escapeChar c +:+ escapeBody r
  end.

Definition quote (s : string) : string :=
  String dquote (escapeBody s +:+ String dquote EmptyString).

(** [JSON.stringify(v)]: no white space, object keys in insertion order. *)
Fixpoint stringify (v : value) : string :=
  match v with
  | JNull => "null"
  | JBool true => "true"
  | JBool false => "false"
  | JNum lexeme => lexeme
  | JStr s => quote s
  | JArr items =>
      "[" +:+ JSString.joinWith "," (List.map stringify items) +:+ "]"
  | JObj fields =>
      "{" +:+ JSString.joinWith ","
                (List.map (fun kv => quote (fst kv) +:+ ":" +:+ stringify (snd kv)) fields)
          +:+ "}"
  end.

Definition isWs (c : ascii) : bool :=
  let n := nat_of_ascii c in
  (n =? 32)%nat || (n =? 9)%nat || (n =? 10)%nat || (n =? 13)%nat.

Fixpoint skipWs (s : string) : string :=
  match s with
  | String c r => if isWs c then skipWs r else s
  | EmptyString => EmptyString
  end.

Definition isDigit (c : ascii) : bool :=
  let n := nat_of_ascii c in (48 <=? n)%nat && (n <=? 57)%nat.

Definition hexValue (c : ascii) : option nat :=
  let n := nat_of_ascii c in
  if (48 <=? n)%nat && (n <=? 57)%nat then Some (n - 48)
  else if (97 <=? n)%nat && (n <=? 102)%nat then Some (n - 87)
  else if (65 <=? n)%nat && (n <=? 70)%nat then Some (n - 55)
  else None.

Definition unescape (e : ascii) : option ascii :=
  if Ascii.eqb e dquote then Some dquote
  else if Ascii.eqb e "\" then Some "\"%char
  else if Ascii.eqb e "/" then Some "/"%char
  else if Ascii.eqb e "b" then Some (ascii_of_nat 8)
  else if Ascii.eqb e "f" then Some (ascii_of_nat 12)
  else if Ascii.eqb e "n" then Some (ascii_of_nat 10)
  else if Ascii.eqb e "r" then Some (ascii_of_nat 13)
  else if Ascii.eqb e "t" then Some (ascii_of_nat 9)
  else None.

Definition unicodeEscape (h1 h2 h3 h4 : ascii) : option ascii :=
  match hexValue h1, hexValue h2, hexValue h3, hexValue h4 with
  | Some a, Some b, Some c, Some d =>
      if (a =? 0)%nat && (b =? 0)%nat then Some (ascii_of_nat (16 * c + d)) else None
  | _, _, _, _ => None
  end.

Definition consResult (c : ascii) (r : option (string * string)) : option (string * string) :=
  match r with
  | Some (x, rest) => Some (String c x, rest)
  | None => None
  end.

(** The characters of a string literal after its opening quote, and the
    text after its closing quote. *)
Fixpoint parseStringBody (s : string) : option (string * string) :=
  match s with
  | EmptyString => None
  | String c r =>
      if Ascii.eqb c dquote then Some (EmptyString, r)
      else if Ascii.eqb c "\" then
        match r with
        | EmptyString => None
        | String e r' =>
            if Ascii.eqb e "u" then
              match r' with
              | String h1 (String h2 (String h3 (String h4 r''))) =>
                  match unicodeEscape h1 h2 h3 h4 with
                  | Some ch => consResult ch (parseStringBody r'')
                  | None => None
                  end
              | _ => None
              end
            else
              match unescape e with
              | Some ch => consResult ch (parseStringBody r')
              | None => None
              end
        end
      else if (nat_of_ascii c <? 32)%nat then None
      else consResult c (parseStringBody r)
  end.

Fixpoint spanDigits (s : string) : string * string :=
  match s with
  | String c r =>
      if isDigit c then let '(d, rest) := spanDigits r in (String c d, rest)
      else (EmptyString, s)
  | EmptyString => (EmptyString, EmptyString)
  end.

Definition parseInt (s : string) : option (string * string) :=
  match s with
  | String c r =>
      if Ascii.eqb c "0" then Some ("0", r)
      else if isDigit c then Some (spanDigits s)
      else None
  | EmptyString => None
  end.

Definition parseFrac (s : string) : option (string * string) :=
  match s with
  | String c r =>
      if Ascii.eqb c "." then
        match spanDigits r with
        | (EmptyString, _) => None
        | (d, rest) => Some (String c d, rest)
        end
      else Some (EmptyString, s)
  | EmptyString => Some (EmptyString, s)
  end.

Definition parseExp (s : string) : option (string * string) :=
  match s with
  | String c r =>
      if Ascii.eqb c "e" || Ascii.eqb c "E" then
        let '(sign, r1) :=
          match r with
          | String g r' =>
              if Ascii.eqb g "+" || Ascii.eqb g "-" then (String g EmptyString, r')
              else (EmptyString, r)
          | EmptyString => (EmptyString, r)
          end in
        match spanDigits r1 with
        | (EmptyString, _) => None
        | (d, rest) => Some (String c (sign +:+ d), rest)
        end
      else Some (EmptyString, s)
  | EmptyString => Some (EmptyString, s)
  end.

Definition parseNumber (s : string) : option (string * string) :=
  let '(sign, s1) :=
    match s with
    | String c r => if Ascii.eqb c "-" then (String c EmptyString, r) else (EmptyString, s)
    | EmptyString => (EmptyString, s)
    end in
  match parseInt s1 with
  | None => None
  | Some (i, s2) =>
      match parseFrac s2 with
      | None => None
      | Some (f, s3) =>
          match parseExp s3 with
          | None => None
          | Some (e, s4) => Some (sign +:+ i +:+ f +:+ e, s4)
          end
      end
  end.

Fixpoint parseValue (fuel : nat) (s : string) {struct fuel} : option (value * string) :=
  match fuel with
  | O => None
  | S f =>
      match skipWs s with
      | EmptyString => None
      | String c r =>
          if Ascii.eqb c dquote then
            match parseStringBody r with
            | Some (x, rest) => Some (JStr x, rest)
            | None => None
            end
          else if Ascii.eqb c "[" then
            match skipWs r with
            | String d r' =>
                if Ascii.eqb d "]" then Some (JArr [], r')
                else match parseElements f r with
                     | Some (items, rest) => Some (JArr items, rest)
                     | None => None
                     end
            | EmptyString => None
            end
          else if Ascii.eqb c "{" then
            match skipWs r with
            | String d r' =>
                if Ascii.eqb d "}" then Some (JObj [], r')
                else match parseMembers f r with
                     | Some (fields, rest) => Some (JObj fields, rest)
                     | None => None
                     end
            | EmptyString => None
            end
          else if JSString.startsWith (String c r) "true" then Some (JBool true, JSString.drop 4 (String c r))
          else if JSString.startsWith (String c r) "false" then Some (JBool false, JSString.drop 5 (String c r))
          else if JSString.startsWith (String c r) "null" then Some (JNull, JSString.drop 4 (String c r))
          else match parseNumber (String c r) with
               | Some (lexeme, rest) => Some (JNum lexeme, rest)
               | None => None
               end
      end
  end
with parseElements (fuel : nat) (s : string) {struct fuel} : option (list value * string) :=
  match fuel with
  | O => None
  | S f =>
      match parseValue f s with
      | None => None
      | Some (v, r) =>
          match skipWs r with
          | String c r' =>
              if Ascii.eqb c "," then
                match parseElements f r' with
                | Some (items, rest) => Some (v :: items, rest)
                | None => None
                end
              else if Ascii.eqb c "]" then Some ([v], r')
              else None
          | EmptyString => None
          end
      end
  end
with parseMembers (fuel : nat) (s : string) {struct fuel} : option (list (string * value) * string) :=
  match fuel with
  | O => None
  | S f =>
      match skipWs s with
      | String q r0 =>
          if Ascii.eqb q dquote then
            match parseStringBody r0 with
            | None => None
            | Some (k, r1) =>
                match skipWs r1 with
                | String colon r2 =>
                    if Ascii.eqb colon ":" then
                      match parseValue f r2 with
                      | None => None
                      | Some (v, r3) =>
                          match skipWs r3 with
                          | String c r4 =>
                              if Ascii.eqb c "," then
                                match parseMembers f r4 with
                                | Some (fields, rest) => Some ((k, v) :: fields, rest)
                                | None => None
                                end
                              else if Ascii.eqb c "}" then Some ([(k, v)], r4)
                              else None
                          | EmptyString => None
                          end
                      end
                    else None
                | EmptyString => None
                end
            end
          else None
      | EmptyString => None
      end
  end.

(** [JSON.parse(text)]: [None] stands for the SyntaxError it throws. *)
Definition parse (text : string) : option value :=
  match parseValue (2 * String.length text + 2) text with
  | Some (v, rest) =>
      match skipWs rest with
      | EmptyString => Some v
      | String _ _ => None
      end
  | None => None
  end.

(** Property access [v.k] on a parsed object; a repeated key keeps its
    last value, as [JSON.parse] does. *)
Fixpoint lookupLast (k : string) (fields : list (string * value)) : option value :=
  match fields with
  | [] => None
  | (k', v) :: rest =>
      match lookupLast k rest with
      | Some v' => Some v'
      | None => if String.eqb k k' then Some v else None
      end
  end.

Definition get (k : string) (v : value) : option value :=
  match v with
  | JObj fields => lookupLast k fields
  | _ => None
  end.

Definition getString (k : string) (v : value) : option string :=
  match get k v with
  | Some (JStr s) => Some s
  | _ => None
  end.

(** Truthiness of a property that may be absent. *)
Definition truthy (o : option value) : bool :=
  match o with
  | None => false
  | Some JNull => false
  | Some (JBool b) => b
  | Some (JNum lexeme) => negb (String.eqb lexeme "0" || String.eqb lexeme "-0")
  | Some (JStr s) => JSString.truthy s
  | Some (JArr _) => true
  | Some (JObj _) => true
  end.

End Json.

(** ** The platform interface

    What the program takes from Node and the operating system. *)

Record Dirent : Type := mkDirent {
  d_name : string;
  d_isDirectory : bool
}.

Class Platform : Type := {
  (** [path.resolve(p)], against the working directory of the process *)
  resolve : string -> string;
  (** [path.join(a, b)] *)
  join : string -> string -> string;
  (** [fs.readdir(dir, { withFileTypes: true })]; [None] when it throws *)
  readdir : string -> option (list Dirent);
  (** [a.localeCompare(b)] *)
  localeCompare : string -> string -> Z;
  (** [s.toLowerCase()], the case folding of the engine, where the
      program folds a path or a part of one *)
  toLowerCase : string -> string;
  (** whether creating the parent directories of a resolved path and
      writing the file there throws *)
  writeFails : string -> bool
}.

(** A file as the program observes it: the size [fs.stat] reports and the
    text [fs.readFile(_, 'utf-8')] returns. *)
Record File : Type := mkFile {
  f_size : Z;
  f_content : string
}.

Definition fileOf (content : string) : File :=
  mkFile (Z.of_nat (String.length content)) content.

(** The files by resolved path: one file for each resolved path. *)
Abbreviation Disk := (gmap string File).

(** ** POSIX paths, for concrete runs *)

Module Posix.

Definition isAbsolute (p : string) : bool := JSString.startsWith p "/".

Fixpoint endsWithSlash (p : string) : bool :=
  match p with
  | EmptyString => false
  | String c EmptyString => Ascii.eqb c "/"
  | String _ r => endsWithSlash r
  end.

(** [normalizeString]: the segments kept, most recent first. *)
Fixpoint normalizeSegments (allowAbove : bool) (segs kept : list string) : list string :=
  match segs with
  | [] => kept
  | seg :: rest =>
      if String.eqb seg EmptyString || String.eqb seg "." then
        normalizeSegments allowAbove rest kept
      else if String.eqb seg ".." then
        match kept with
        | top :: below =>
            if String.eqb top ".." then normalizeSegments allowAbove rest (seg :: kept)
            else normalizeSegments allowAbove rest below
        | [] =>
            if allowAbove then normalizeSegments allowAbove rest [seg]
            else normalizeSegments allowAbove rest []
        end
      else normalizeSegments allowAbove rest (seg :: kept)
  end.

Definition normalizeString (p : string) (allowAbove : bool) : string :=
  JSString.joinWith "/" (List.rev (normalizeSegments allowAbove (JSString.splitOn "/" p) [])).

(** [path.posix.resolve(p)] in working directory [cwd] (an absolute path). *)
Definition resolve (cwd p : string) : string :=
  let full := if isAbsolute p then p else cwd +:+ "/" +:+ p in
  "/" +:+ normalizeString full false.

(** [path.posix.normalize(p)] *)
Definition normalize (p : string) : string :=
  match p with
  | EmptyString => "."
  | String _ _ =>
      let body := normalizeString p (negb (isAbsolute p)) in
      let body :=
        match body with
        | EmptyString => if isAbsolute p then EmptyString else "."
        | String _ _ => if endsWithSlash p then body +:+ "/" else body
        end in
      if isAbsolute p then "/" +:+ body else body
  end.

(** [path.posix.join(a, b)] *)
Definition join (a b : string) : string :=
  match a, b with
  | EmptyString, EmptyString => "."
  | EmptyString, _ => normalize b
  | _, EmptyString => normalize a
  | _, _ => normalize (a +:+ "/" +:+ b)
  end.

(** The POSIX platform with working directory [cwd], the directory
    contents [dirs], byte-wise collation, ASCII case folding and the
    unwritable paths [readonly]. *)
Definition platform (cwd : string) (dirs : string -> option (list Dirent))
    (readonly : string -> bool) : Platform :=
  Build_Platform (resolve cwd) join dirs
    (fun a b => match String.compare a b with Lt => (-1)%Z | Eq => 0%Z | Gt => 1%Z end)
    JSString.toLowerCase
    readonly.

End Posix.

(** ** Shared data: tree nodes, proposed edits, tool statuses *)

(** [FileNode], as the main process builds it and as the tree store
    decorates it ([_isNew], [_isEditing]; an absent flag is [false], an
    absent [children] is [None]). *)
Inductive FileNode : Type := mkNode {
  node_id : string;
  node_name : string;
  node_path : string;
  node_isFolder : bool;
  node_children : option (list FileNode);
  node_isNew : bool;
  node_isEditing : bool
}.

Inductive EditKind : Type := KWrite | KEdit.

Inductive EditStatus : Type := Pending | Applied | Rejected.

Inductive RunStatus : Type := Running | Success | Error.

(** The object placed between the [DIFF_BLOCK] delimiters. *)
Record ProposedEdit : Type := mkProposedEdit {
  pe_flag : bool;                 (* __proposed_edit__ *)
  pe_id : string;
  pe_type : EditKind;
  pe_path : string;
  pe_relativePath : string;
  pe_originalContent : string;
  pe_newContent : string
}.

(** The object placed between the [TOOL_STATUS] delimiters. *)
Record ToolStatus : Type := mkToolStatus {
  ts_id : string;
  ts_toolName : string;
  ts_path : string;
  ts_status : RunStatus;
  ts_message : string
}.

Definition nl : string := String "010"%char EmptyString.

Definition DIFF_OPEN : string := "[DIFF_BLOCK]".
Definition DIFF_CLOSE : string := "[/DIFF_BLOCK]".
Definition STATUS_OPEN : string := "[TOOL_STATUS]".
Definition STATUS_CLOSE : string := "[/TOOL_STATUS]".

Definition kindName (k : EditKind) : string :=
  match k with KWrite => "write" | KEdit => "edit" end.

Definition runStatusName (r : RunStatus) : string :=
  match r with Running => "running" | Success => "success" | Error => "error" end.

Definition proposedEditJson (e : ProposedEdit) : Json.value :=
  Json.JObj [ ("__proposed_edit__", Json.JBool (pe_flag e));
              ("id", Json.JStr (pe_id e));
              ("type", Json.JStr (kindName (pe_type e)));
              ("path", Json.JStr (pe_path e));
              ("relativePath", Json.JStr (pe_relativePath e));
              ("originalContent", Json.JStr (pe_originalContent e));
              ("newContent", Json.JStr (pe_newContent e)) ].

Definition toolStatusJson (t : ToolStatus) : Json.value :=
  Json.JObj [ ("id", Json.JStr (ts_id t));
              ("toolName", Json.JStr (ts_toolName t));
              ("path", Json.JStr (ts_path t));
              ("status", Json.JStr (runStatusName (ts_status t)));
              ("message", Json.JStr (ts_message t)) ].

(** ** [electron/main.ts] *)

Module Main.

Section WithPlatform.
Context {P : Platform}.

(** *** Path guard *)

(** [resolve(p).toLowerCase().replace(/\\/g, '/')] *)
Definition normalizePath (p : string) : string :=
  JSString.slashes (toLowerCase (resolve p)).

(** [isWithinWorkspace(targetPath)], reading the global [workspacePath].
    The test [!workspacePath] holds for [null] and for the empty string. *)
Definition isWithinWorkspace (workspacePath : option string) (targetPath : string) : bool :=
  match workspacePath with
  | None => false
  | Some root =>
      if negb (JSString.truthy root) then false
      else JSString.startsWith (normalizePath targetPath) (normalizePath root)
  end.

(** *** Directory listings *)

(** [Array.prototype.sort] with a comparator: a stable sort, here by
    insertion.  (With a comparator that is not a consistent order the
    result depends on the engine.) *)
Fixpoint insertBy {A} (cmp : A -> A -> Z) (x : A) (l : list A) : list A :=
  match l with
  | [] => [x]
  | y :: rest => if (cmp x y <=? 0)%Z then x :: y :: rest else y :: insertBy cmp x rest
  end.

Fixpoint sortBy {A} (cmp : A -> A -> Z) (l : list A) : list A :=
  match l with
  | [] => []
  | x :: rest => insertBy cmp x (sortBy cmp rest)
  end.

(** The comparator of [readDirSafe]: folders first, then alphabetical. *)
Definition compareNodes (a b : FileNode) : Z :=
  if negb (Bool.eqb (node_isFolder a) (node_isFolder b))
  then (if node_isFolder a then (-1)%Z else 1%Z)
  else localeCompare (node_name a) (node_name b).

Definition nodeOfDirent (dirPath : string) (e : Dirent) : FileNode :=
  {| node_id := join dirPath (d_name e);
     node_name := d_name e;
     node_path := join dirPath (d_name e);
     node_isFolder := d_isDirectory e;
     node_children := None;
     node_isNew := false;
     node_isEditing := false |}.

Definition readDirSafe (dirPath : string) : list FileNode :=
  match readdir dirPath with
  | Some entries =>
      sortBy compareNodes
        (List.map (nodeOfDirent dirPath)
           (List.filter (fun e => negb (JSString.startsWith (d_name e) ".")) entries))
  | None => []
  end.

(** *** File-system handlers *)

Definition ACCESS_DENIED : string := "Access denied: path outside workspace".
Definition FILE_TOO_LARGE : string := "File too large (>10MB). Please open smaller files.".

Definition enoent (call path : string) : string :=
  "ENOENT: no such file or directory, " +:+ call +:+ " '" +:+ path +:+ "'".

Definition eacces (path : string) : string :=
  "EACCES: permission denied, open '" +:+ path +:+ "'".

(** [fs.readFile(path, 'utf-8')] *)
Definition readFile (disk : Disk) (path : string) : result string :=
  match disk !! resolve path with
  | Some f => Ok (f_content f)
  | None => Throw (enoent "open" path)
  end.

(** [fs.stat(path)], its [size] *)
Definition statSize (disk : Disk) (path : string) : result Z :=
  match disk !! resolve path with
  | Some f => Ok (f_size f)
  | None => Throw (enoent "stat" path)
  end.

(** [fs.writeFile(path, content, 'utf-8')] *)
Definition writeFile (disk : Disk) (path content : string) : result Disk :=
  if writeFails (resolve path) then Throw (eacces path)
  else Ok (<[resolve path := fileOf content]> disk).

(** [fs:readDir] *)
Definition fs_readDir (workspacePath : option string) (dirPath : string)
    : result (list FileNode) :=
  if negb (isWithinWorkspace workspacePath dirPath) then Throw ACCESS_DENIED
  else Ok (readDirSafe dirPath).

(** [fs:readFile] *)
Definition fs_readFile (workspacePath : option string) (disk : Disk) (filePath : string)
    : result string :=
  if negb (isWithinWorkspace workspacePath filePath) then Throw ACCESS_DENIED
  else match statSize disk filePath with
       | Throw msg => Throw msg
       | Ok size =>
           if (size >? 10 * 1024 * 1024)%Z then Throw FILE_TOO_LARGE
           else readFile disk filePath
       end.

(** [fs:writeFile]: the result and the disk afterwards *)
Definition fs_writeFile (workspacePath : option string) (disk : Disk)
    (filePath content : string) : result bool * Disk :=
  if negb (isWithinWorkspace workspacePath filePath) then (Throw ACCESS_DENIED, disk)
  else match writeFile disk filePath content with
       | Ok disk' => (Ok true, disk')
       | Throw msg => (Throw msg, disk)
       end.

(** [ai:applyEdit]: the value returned to the renderer and the disk
    afterwards.  Creating the parent directories leaves the file map as it
    is; its failure is part of [writeFails]. *)
Definition applyEdit (disk : Disk) (path content : string) : bool * Disk :=
  match writeFile disk path content with
  | Ok disk' => (true, disk')
  | Throw _ => (false, disk)
  end.

(** *** Tool executor *)

Record ToolInput : Type := mkToolInput {
  ti_path : string;
  ti_content : string;
  ti_edits : list (string * string)      (* (old_text, new_text) *)
}.

(** [currentWorkspacePath ? join(currentWorkspacePath, p) : fallback] *)
Definition scoped (currentWorkspacePath : option string) (p fallback : string) : string :=
  match currentWorkspacePath with
  | Some w => if JSString.truthy w then join w p else fallback
  | None => fallback
  end.

Fixpoint spaces (n : nat) : string :=
  match n with O => EmptyString | S n' => String " " (spaces n') end.

(** [s.padStart(width, ' ')] *)
Definition padStart (width : nat) (s : string) : string :=
  spaces (width - String.length s) +:+ s.

Fixpoint numberLines (i : nat) (lines : list string) : list string :=
  match lines with
  | [] => []
  | line :: rest =>
      (padStart 4 (JSString.ofNat (i + 1)) +:+ " | " +:+ line) :: numberLines (S i) rest
  end.

(** The loop of [edit_file]: each edit whose [old_text] occurs in the
    content so far replaces its first occurrence and is counted. *)
Fixpoint applyEdits (content : string) (edits : list (string * string)) : string * nat :=
  match edits with
  | [] => (content, O)
  | (old_text, new_text) :: rest =>
      if JSString.includes content old_text then
        let '(c, n) := applyEdits (JSString.replace content old_text new_text) rest in
        (c, S n)
      else applyEdits content rest
  end.

Definition editIdAt (now : N) : string := "edit-" +:+ JSString.ofN now.

Definition diffBlock (e : ProposedEdit) : string :=
  nl +:+ nl +:+ DIFF_OPEN +:+ Json.stringify (proposedEditJson e) +:+ DIFF_CLOSE +:+ nl +:+ nl.

Definition errorExecuting (toolName msg : string) : string :=
  "Error executing " +:+ toolName +:+ ": " +:+ msg.

(** [executeAITool(toolName, toolInput)]: [now] is the value of
    [Date.now()] during the call. *)
Definition executeAITool (currentWorkspacePath : option string) (disk : Disk) (now : N)
    (toolName : string) (toolInput : ToolInput) : string :=
  if String.eqb toolName "read_file" then
    let filePath := ti_path toolInput in
    let fullPath := scoped currentWorkspacePath filePath filePath in
    match readFile disk fullPath with
    | Throw msg => errorExecuting toolName msg
    | Ok content =>
        "File: " +:+ filePath +:+ nl +:+ nl +:+
        JSString.joinWith nl (numberLines 0 (JSString.splitOn "010" content))
    end
  else if String.eqb toolName "list_directory" then
    let dirPath := ti_path toolInput in
    let fullPath := scoped currentWorkspacePath dirPath
                      (if JSString.truthy dirPath then dirPath else ".") in
    match readdir fullPath with
    | None => errorExecuting toolName (enoent "scandir" fullPath)
    | Some entries =>
        "Directory: " +:+ (if JSString.truthy dirPath then dirPath else "/") +:+ nl +:+ nl +:+
        JSString.joinWith nl
          (List.map (fun e => (if d_isDirectory e then "📁" else "📄") +:+ " " +:+ d_name e)
             entries)
    end
  else if String.eqb toolName "write_file" then
    let filePath := ti_path toolInput in
    let newContent := ti_content toolInput in
    let fullPath := scoped currentWorkspacePath filePath filePath in
    let originalContent :=
      match readFile disk fullPath with Ok c => c | Throw _ => EmptyString end in
    diffBlock (mkProposedEdit true (editIdAt now) KWrite fullPath filePath
                 originalContent newContent)
    +:+ "I've prepared changes for **" +:+ filePath
    +:+ "**. Please review and accept or reject the edit above."
  else if String.eqb toolName "edit_file" then
    let filePath := ti_path toolInput in
    let fullPath := scoped currentWorkspacePath filePath filePath in
    match readFile disk fullPath with
    | Throw msg => errorExecuting toolName msg
    | Ok originalContent =>
        let '(newContent, editCount) := applyEdits originalContent (ti_edits toolInput) in
        if (editCount =? 0)%nat then
          "⚠️ No matches found in " +:+ filePath +:+ ". The old_text must match exactly."
        else
          diffBlock (mkProposedEdit true (editIdAt now) KEdit fullPath filePath
                       originalContent newContent)
          +:+ "I've prepared " +:+ JSString.ofNat editCount +:+ " edit(s) for **" +:+ filePath
          +:+ "**. Please review and accept or reject the changes above."
    end
  else "Unknown tool: " +:+ toolName.

(** *** The tool loop of [ai:sendMessage] *)

Inductive Role : Type := RUser | RAssistant.

Record ToolUse : Type := mkToolUse {
  tu_id : string;
  tu_name : string;
  tu_input : ToolInput
}.

(** A content block of a provider message. *)
Inductive ApiBlock : Type :=
| BText (text : string)
| BImage (media_type data : string)
| BToolUse (t : ToolUse)
| BToolResult (tool_use_id content : string).

Inductive ApiContent : Type :=
| CString (s : string)
| CBlocks (blocks : list ApiBlock).

Record ApiMessage : Type := mkApiMessage {
  am_role : Role;
  am_content : ApiContent
}.

Inductive StopReason : Type := EndTurn | ToolUseStop | OtherStop.

Record Response : Type := mkResponse {
  stop_reason : StopReason;
  resp_content : list ApiBlock
}.

(** The state of one pass over the blocks of a response; [chunks] are the
    texts sent on [ai:chunk], latest first. *)
Record LoopState : Type := mkLoopState {
  fullText : string;
  chunks : list string;
  assistantContent : list ApiBlock;
  toolResults : list ApiBlock
}.

Definition statusMarker (t : ToolStatus) : string :=
  STATUS_OPEN +:+ Json.stringify (toolStatusJson t) +:+ STATUS_CLOSE.

Fixpoint take (n : nat) (s : string) : string :=
  match n, s with
  | S n', String c r => String c (take n' r)
  | _, _ => EmptyString
  end.

Definition EDIT_PROPOSED_ACK : string :=
  "Edit proposed successfully. The user will review and accept/reject the changes.".

(** One block of a [tool_use] response. *)
Definition processBlock (currentWorkspacePath : option string) (disk : Disk) (now : N)
    (st : LoopState) (block : ApiBlock) : LoopState :=
  match block with
  | BText text =>
      mkLoopState (fullText st +:+ text) (chunks st)
        (assistantContent st ++ [block]) (toolResults st)
  | BToolUse t =>
      let toolStatusId := "status-" +:+ tu_id t in
      let path := ti_path (tu_input t) in
      let running := mkToolStatus toolStatusId (tu_name t) path Running "Executing..." in
      let text1 := fullText st +:+ nl +:+ nl +:+ statusMarker running +:+ nl +:+ nl in
      let result := executeAITool currentWorkspacePath disk now (tu_name t) (tu_input t) in
      let proposes := JSString.includes result DIFF_OPEN in
      let done := mkToolStatus toolStatusId (tu_name t) path
                    (if JSString.startsWith result "Error" then Error else Success)
                    (if proposes then "Edit proposed" else take 100 result) in
      let text2 := text1 +:+ statusMarker done in
      if proposes then
        mkLoopState (text2 +:+ result) ((text2 +:+ result) :: text2 :: text1 :: chunks st)
          (assistantContent st ++ [block])
          (toolResults st ++ [BToolResult (tu_id t) EDIT_PROPOSED_ACK])
      else
        mkLoopState text2 (text2 :: text1 :: chunks st)
          (assistantContent st ++ [block])
          (toolResults st ++ [BToolResult (tu_id t) result])
  | _ => st
  end.

(** The blocks of one response, in order; [clock i] is [Date.now()]
    during the [i]-th block. *)
Fixpoint processBlocks (currentWorkspacePath : option string) (disk : Disk)
    (clock : nat -> N) (i : nat) (st : LoopState) (blocks : list ApiBlock) : LoopState :=
  match blocks with
  | [] => st
  | b :: rest =>
      processBlocks currentWorkspacePath disk clock (S i)
        (processBlock currentWorkspacePath disk (clock i) st b) rest
  end.

Definition isWordChar (c : ascii) : bool :=
  let n := nat_of_ascii c in
  ((48 <=? n)%nat && (n <=? 57)%nat) || ((65 <=? n)%nat && (n <=? 90)%nat)
  || ((97 <=? n)%nat && (n <=? 122)%nat) || (n =? 95)%nat.

Fixpoint spanWord (s : string) : string * string :=
  match s with
  | String c r =>
      if isWordChar c then let '(w, rest) := spanWord r in (String c w, rest)
      else (EmptyString, s)
  | EmptyString => (EmptyString, EmptyString)
  end.

Fixpoint noLineBreak (s : string) : bool :=
  match s with
  | EmptyString => true
  | String c r =>
      negb ((nat_of_ascii c =? 10)%nat || (nat_of_ascii c =? 13)%nat) && noLineBreak r
  end.

(** [imgDataUri.match(/^data:(image\/\w+);base64,(.+)$/)] *)
Definition matchDataUri (uri : string) : option (string * string) :=
  if JSString.startsWith uri "data:image/" then
    let '(word, rest) := spanWord (JSString.drop 11 uri) in
    if JSString.truthy word && JSString.startsWith rest ";base64," then
      let data := JSString.drop 8 rest in
      if JSString.truthy data && noLineBreak data
      then Some ("image/" +:+ word, data) else None
    else None
  else None.

Fixpoint imageBlocks (images : list string) : list ApiBlock :=
  match images with
  | [] => []
  | uri :: rest =>
      match matchDataUri uri with
      | Some (mediaType, data) => BImage mediaType data :: imageBlocks rest
      | None => imageBlocks rest
      end
  end.

(** The [messages] array before the first provider call. *)
Definition initialApiMessages (message : string) (images : list string)
    (conversationHistory : list (Role * string)) : list ApiMessage :=
  let currentContent :=
    imageBlocks images ++ (if JSString.truthy message then [BText message] else []) in
  List.map (fun m => mkApiMessage (fst m) (CString (snd m))) conversationHistory
  ++ [mkApiMessage RUser
        match currentContent with
        | [BText _] => CString message
        | _ => CBlocks currentContent
        end].

(** The messages appended after a [tool_use] response. *)
Definition toolTurn (st : LoopState) : list ApiMessage :=
  [mkApiMessage RAssistant (CBlocks (assistantContent st));
   mkApiMessage RUser (CBlocks (toolResults st))].

(** The text blocks of a final response, concatenated. *)
Fixpoint textOf (blocks : list ApiBlock) : string :=
  match blocks with
  | [] => EmptyString
  | BText text :: rest => text +:+ textOf rest
  | _ :: rest => textOf rest
  end.

(** The [while (true)] loop against the successive replies of the
    provider.  The result holds every [messages] array that was sent, in
    order, and the final text; it is [None] when the replies run out before
    the loop stops (the provider call throws). *)
Fixpoint toolLoop (currentWorkspacePath : option string) (disk : Disk) (clock : nat -> N)
    (replies : list Response) (apiMessages : list ApiMessage) (text : string)
    : list (list ApiMessage) * option string :=
  match replies with
  | [] => ([apiMessages], None)
  | r :: rest =>
      match stop_reason r with
      | EndTurn => ([apiMessages], Some (text +:+ textOf (resp_content r)))
      | ToolUseStop =>
          let st := processBlocks currentWorkspacePath disk clock 0
                      (mkLoopState text [] [] []) (resp_content r) in
          let '(sent, out) :=
            toolLoop currentWorkspacePath disk
              (fun i => clock (i + List.length (resp_content r)))
              rest (apiMessages ++ toolTurn st) (fullText st) in
          (apiMessages :: sent, out)
      | OtherStop => ([apiMessages], Some text)
      end
  end.

(** *** The workspace root read back from the system prompt *)

Definition PATH_LABEL : string := "**Path**: ".

Definition isLineBreak (c : ascii) : bool :=
  (nat_of_ascii c =? 10)%nat || (nat_of_ascii c =? 13)%nat.

(** The characters up to the next line terminator: what [.+] can take.
    (The terminators U+2028 and U+2029 lie outside the 8-bit characters.) *)
Fixpoint takeLine (s : string) : string :=
  match s with
  | String c r => if isLineBreak c then EmptyString else String c (takeLine r)
  | EmptyString => EmptyString
  end.

(** [systemPrompt.match(/\*\*Path\*\*: (.+)/m)], its group: the first
    place where the label is followed by at least one character of the
    same line. *)
Fixpoint matchPathLine (s : string) : option string :=
  match s with
  | EmptyString => None
  | String c r =>
      if JSString.startsWith (String c r) PATH_LABEL then
        match takeLine (JSString.drop 10 (String c r)) with
        | EmptyString => matchPathLine r
        | String d line => Some (String d line)
        end
      else matchPathLine r
  end.

(** The assignment to [currentWorkspacePath] at the start of
    [ai:sendMessage]: without a match the previous value stays. *)
Definition scopeFromPrompt (currentWorkspacePath : option string) (systemPrompt : string)
    : option string :=
  match matchPathLine systemPrompt with
  | Some p => Some (JSString.trim p)
  | None => currentWorkspacePath
  end.

(** *** [dialog:selectImage] *)

Fixpoint lastOf (l : list string) : string :=
  match l with
  | [] => EmptyString
  | [x] => x
  | _ :: rest => lastOf rest
  end.

(** [filePath.split('.').pop()?.toLowerCase() || 'png'] *)
Definition imageExt (filePath : string) : string :=
  let e := toLowerCase (lastOf (JSString.splitOn "." filePath)) in
  if JSString.truthy e then e else "png".

Definition imageMime (fileExt : string) : string :=
  if String.eqb fileExt "jpg" then "image/jpeg" else "image/" +:+ fileExt.

(** The data URI returned for the chosen file; [base64Image] is the
    base64 text of its bytes. *)
Definition selectedImageUri (filePath base64Image : string) : string :=
  "data:" +:+ imageMime (imageExt filePath) +:+ ";base64," +:+ base64Image.

(** The ids of the [tool_use] blocks of a response, in order. *)
Fixpoint toolUseIds (blocks : list ApiBlock) : list string :=
  match blocks with
  | [] => []
  | BToolUse t :: rest => tu_id t :: toolUseIds rest
  | _ :: rest => toolUseIds rest
  end.

End WithPlatform.

End Main.

(** ** [src/stores/chatStore.ts] *)

Module ChatStore.

Inductive MsgRole : Type := User | Model.

Record Message : Type := mkMessage {
  msg_id : string;
  msg_role : MsgRole;
  msg_text : string
}.

Record ChatSession : Type := mkSession {
  session_id : string;
  session_messages : list Message
}.

Record PendingEdit : Type := mkPendingEdit {
  edit_id : string;
  edit_type : EditKind;
  edit_path : string;
  edit_originalContent : string;
  edit_newContent : string;
  edit_status : EditStatus
}.

Definition withStatus (e : PendingEdit) (status : EditStatus) : PendingEdit :=
  mkPendingEdit (edit_id e) (edit_type e) (edit_path e)
    (edit_originalContent e) (edit_newContent e) status.

Definition addPendingEdit (edit : PendingEdit) (pendingEdits : list PendingEdit)
    : list PendingEdit :=
  pendingEdits ++ [edit].

Definition updateEditStatus (id : string) (status : EditStatus)
    (pendingEdits : list PendingEdit) : list PendingEdit :=
  List.map (fun e => if String.eqb (edit_id e) id then withStatus e status else e)
    pendingEdits.

Definition getPendingEdit (id : string) (pendingEdits : list PendingEdit)
    : option PendingEdit :=
  List.find (fun e => String.eqb (edit_id e) id) pendingEdits.

(** Truthiness of the result of [getPendingEdit]. *)
Definition known (o : option PendingEdit) : bool :=
  match o with Some _ => true | None => false end.

Definition getActiveSession (sessions : list ChatSession) (activeSessionId : option string)
    : option ChatSession :=
  match activeSessionId with
  | Some a => List.find (fun s => String.eqb (session_id s) a) sessions
  | None => None
  end.

Definition getConversationHistory (sessions : list ChatSession)
    (activeSessionId : option string) : list (Main.Role * string) :=
  match getActiveSession sessions activeSessionId with
  | None => []
  | Some session =>
      List.map
        (fun m => (match msg_role m with Model => Main.RAssistant | User => Main.RUser end,
                   msg_text m))
        (List.filter
           (fun m => negb (String.eqb (msg_id m) "welcome")
                     && JSString.truthy (JSString.trim (msg_text m)))
           (session_messages session))
  end.

Definition updateMessage (id text : string) (messages : list Message) : list Message :=
  List.map (fun m => if String.eqb (msg_id m) id then mkMessage (msg_id m) (msg_role m) text
                     else m) messages.

(** *** Sessions, with the fields the session actions maintain *)

Record StoredSession : Type := mkStored {
  ss_session : ChatSession;
  ss_title : string;
  ss_createdAt : N;
  ss_updatedAt : N
}.

Record Store : Type := mkStore {
  sessions : list StoredSession;
  activeSessionId : option string;
  pendingImages : list string
}.

Definition ss_id (s : StoredSession) : string := session_id (ss_session s).

Definition welcome : Message :=
  mkMessage "welcome" Model "Hi there. I'm ready to help you with your code.".

Definition NEW_CHAT : string := "New Chat".

(** [createNewSession()]: [id] is the value of [generateId()], [now] that
    of [Date.now()]. *)
Definition createNewSession (id : string) (now : N) : StoredSession :=
  mkStored (mkSession id [welcome]) NEW_CHAT now now.

Definition createSession (st : Store) (id : string) (now : N) : Store :=
  mkStore (sessions st ++ [createNewSession id now]) (Some id) (pendingImages st).

Definition switchSession (st : Store) (id : string) : Store :=
  mkStore (sessions st) (Some id) (pendingImages st).

Definition isActive (st : Store) (s : StoredSession) : bool :=
  match activeSessionId st with
  | Some a => String.eqb (ss_id s) a
  | None => false
  end.

Definition lastId (l : list StoredSession) : option string :=
  match List.rev l with
  | s :: _ => Some (ss_id s)
  | [] => None
  end.

(** [deleteSession(id)]; [freshId] and [now] serve the session created
    when none is left. *)
Definition deleteSession (st : Store) (id : string) (freshId : string) (now : N) : Store :=
  let newSessions := List.filter (fun s => negb (String.eqb (ss_id s) id)) (sessions st) in
  match activeSessionId st with
  | Some a =>
      if String.eqb a id then
        match lastId newSessions with
        | Some l => mkStore newSessions (Some l) (pendingImages st)
        | None => mkStore (newSessions ++ [createNewSession freshId now]) (Some freshId)
                    (pendingImages st)
        end
      else mkStore newSessions (Some a) (pendingImages st)
  | None => mkStore newSessions None (pendingImages st)
  end.

Definition updateSessionTitle (st : Store) (id title : string) (now : N) : Store :=
  mkStore
    (List.map (fun s => if String.eqb (ss_id s) id
                        then mkStored (ss_session s) title (ss_createdAt s) now else s)
       (sessions st))
    (activeSessionId st) (pendingImages st).

(** [text.slice(0, 30) + (text.length > 30 ? '...' : '')] *)
Definition autoTitle (text : string) : string :=
  Main.take 30 text +:+ (if (30 <? String.length text)%nat then "..." else EmptyString).

Definition isUser (r : MsgRole) : bool :=
  match r with User => true | Model => false end.

Definition addMessage (st : Store) (message : Message) (now : N) : Store :=
  mkStore
    (List.map
       (fun s =>
          if isActive st s then
            mkStored
              (mkSession (ss_id s) (session_messages (ss_session s) ++ [message]))
              (if String.eqb (ss_title s) NEW_CHAT && isUser (msg_role message)
               then autoTitle (msg_text message) else ss_title s)
              (ss_createdAt s) now
          else s)
       (sessions st))
    (activeSessionId st) (pendingImages st).

(** The store action [updateMessage(id, text)]. *)
Definition updateStoredMessage (st : Store) (id text : string) (now : N) : Store :=
  mkStore
    (List.map
       (fun s =>
          if isActive st s then
            mkStored
              (mkSession (ss_id s) (updateMessage id text (session_messages (ss_session s))))
              (ss_title s) (ss_createdAt s) now
          else s)
       (sessions st))
    (activeSessionId st) (pendingImages st).

Definition clearMessages (st : Store) (now : N) : Store :=
  mkStore
    (List.map
       (fun s =>
          if isActive st s then
            mkStored (mkSession (ss_id s) [welcome]) NEW_CHAT (ss_createdAt s) now
          else s)
       (sessions st))
    (activeSessionId st) (pendingImages st).

(** [getConversationHistory()] on the store. *)
Definition storeHistory (st : Store) : list (Main.Role * string) :=
  getConversationHistory (List.map ss_session (sessions st)) (activeSessionId st).

Definition addPendingImage (st : Store) (base64 : string) : Store :=
  mkStore (sessions st) (activeSessionId st) (pendingImages st ++ [base64]).

(** [pendingImages.filter((_, i) => i !== index)] *)
Fixpoint removeAt (index i : nat) (l : list string) : list string :=
  match l with
  | [] => []
  | x :: rest =>
      if (i =? index)%nat then removeAt index (S i) rest else x :: removeAt index (S i) rest
  end.

Definition removePendingImage (st : Store) (index : nat) : Store :=
  mkStore (sessions st) (activeSessionId st) (removeAt index 0 (pendingImages st)).

Definition clearPendingImages (st : Store) : Store :=
  mkStore (sessions st) (activeSessionId st) [].

(** [handleSelectImage] of [ChatPanel]: [picked] is what the dialog
    returned ([None] when it was cancelled). *)
Definition handleSelectImage (st : Store) (picked : option string) : Store :=
  if (5 <=? List.length (pendingImages st))%nat then st
  else match picked with
       | Some uri => if JSString.truthy uri then addPendingImage st uri else st
       | None => st
       end.

End ChatStore.

(** ** [src/components/chat/MessageList.tsx] and [DiffBlock.tsx] *)

Module MessageList.

Import ChatStore.

(** *** Marker decoding *)

(** The bodies matched by [/OPEN([\s\S]*?)CLOSE/g], left to right: the
    first opening delimiter, then the nearest closing delimiter after it;
    the scan resumes after that closing delimiter. *)
Fixpoint matchAll (fuel : nat) (opening closing text : string) : list string :=
  match fuel with
  | O => []
  | S f =>
      match JSString.splitFirst text opening with
      | None => []
      | Some (_, afterOpen) =>
          match JSString.splitFirst afterOpen closing with
          | None => []
          | Some (body, rest) => body :: matchAll f opening closing rest
          end
      end
  end.

Definition bodies (opening closing text : string) : list string :=
  matchAll (String.length text) opening closing text.

Definition kindOfName (s : string) : option EditKind :=
  if String.eqb s "write" then Some KWrite
  else if String.eqb s "edit" then Some KEdit
  else None.

Definition runStatusOfName (s : string) : option RunStatus :=
  if String.eqb s "running" then Some Running
  else if String.eqb s "success" then Some Success
  else if String.eqb s "error" then Some Error
  else None.

(** A parsed body read as a proposed edit, when it has the shape of the
    payloads that the tool executor emits.  The program keeps the parsed
    values untyped: [parseMessageContentAny] below follows it on every
    value, and [parseMessageContent] is its reading at the types of the
    executor's payloads, for the texts whose payloads have that shape. *)
Definition asProposedEdit (v : Json.value) : option ProposedEdit :=
  match Json.getString "id" v, Json.getString "type" v, Json.getString "path" v,
        Json.getString "originalContent" v, Json.getString "newContent" v with
  | Some id, Some ty, Some path, Some original, Some new =>
      match kindOfName ty with
      | Some k =>
          Some (mkProposedEdit (Json.truthy (Json.get "__proposed_edit__" v)) id k path
                  (match Json.getString "relativePath" v with
                   | Some r => r
                   | None => EmptyString
                   end)
                  original new)
      | None => None
      end
  | _, _, _, _, _ => None
  end.

(** A parsed body read as a tool status, when it has the shape of the
    payloads that the tool loop emits. *)
Definition asToolStatus (v : Json.value) : option ToolStatus :=
  match Json.getString "id" v, Json.getString "toolName" v, Json.getString "path" v,
        Json.getString "status" v, Json.getString "message" v with
  | Some id, Some tool, Some path, Some st, Some msg =>
      match runStatusOfName st with
      | Some r => Some (mkToolStatus id tool path r msg)
      | None => None
      end
  | _, _, _, _, _ => None
  end.

Definition decodeEdit (body : string) : option ProposedEdit :=
  match Json.parse body with
  | Some v => asProposedEdit v
  | None => None
  end.

Definition decodeStatus (body : string) : option ToolStatus :=
  match Json.parse body with
  | Some v => asToolStatus v
  | None => None
  end.

(** [toolStatusesMap.set(id, status)] on a [Map] kept in insertion order:
    a known key keeps its place and takes the new value. *)
Fixpoint mapSet (t : ToolStatus) (m : list ToolStatus) : list ToolStatus :=
  match m with
  | [] => [t]
  | u :: rest => if String.eqb (ts_id u) (ts_id t) then t :: rest else u :: mapSet t rest
  end.

Record Parsed : Type := mkParsed {
  cleanText : string;
  edits : list ProposedEdit;
  toolStatuses : list ToolStatus
}.

Section WithPlatform.
Context {P : Platform}.

(** The first loop of [parseMessageContent], on payloads of the
    executor's shape. *)
Fixpoint extractEdits (bs : list string) (clean : string) (acc : list ProposedEdit)
    : string * list ProposedEdit :=
  match bs with
  | [] => (clean, acc)
  | body :: rest =>
      match decodeEdit body with
      | Some e =>
          extractEdits rest
            (JSString.replace clean (DIFF_OPEN +:+ body +:+ DIFF_CLOSE) EmptyString)
            (acc ++ [e])
      | None => extractEdits rest clean acc
      end
  end.

(** The second loop of [parseMessageContent], on payloads of the
    executor's shape. *)
Fixpoint extractStatuses (bs : list string) (clean : string) (m : list ToolStatus)
    : string * list ToolStatus :=
  match bs with
  | [] => (clean, m)
  | body :: rest =>
      match decodeStatus body with
      | Some t =>
          extractStatuses rest
            (JSString.replace clean (STATUS_OPEN +:+ body +:+ STATUS_CLOSE) EmptyString)
            (mapSet t m)
      | None => extractStatuses rest clean m
      end
  end.

(** [parseMessageContent] at the types of the executor's payloads. *)
Definition parseMessageContent (text : string) : Parsed :=
  let '(clean1, es) := extractEdits (bodies DIFF_OPEN DIFF_CLOSE text) text [] in
  let '(clean2, m) := extractStatuses (bodies STATUS_OPEN STATUS_CLOSE text) clean1 [] in
  mkParsed (JSString.trim clean2) es
    (Main.sortBy (fun a b => localeCompare (ts_id a) (ts_id b)) m).

(** *** [parseMessageContent] on the untyped values it handles

    The program declares the parsed payloads [any]: whatever [JSON.parse]
    returns is pushed on [edits] or stored in the [Map], and its [id] is
    read when the statuses are sorted. *)

Definition NOT_A_FUNCTION : string := "TypeError: a.id.localeCompare is not a function".
Definition READ_OF_NULL : string := "TypeError: Cannot read properties of null".
Definition READ_OF_UNDEFINED : string := "TypeError: Cannot read properties of undefined".

(** [v.id] for a value that [JSON.parse] returned: a TypeError for [null],
    the own property of an object, and [undefined] ([None]) for an object
    without it and for every other value. *)
Definition idOf (v : Json.value) : result (option Json.value) :=
  match v with
  | Json.JNull => Throw READ_OF_NULL
  | _ => Ok (Json.get "id" v)
  end.

(** Equality of [Map] keys: [undefined] and [null] each equal
    themselves, two booleans or two strings are compared by value, and an
    array or an object, which is a new one at every parse, equals no other
    key.  Two numbers are compared by their lexemes: numbers written
    differently are told apart here ([1] and [1.0], one key for [Map]). *)
Definition sameKey (a b : option Json.value) : bool :=
  match a, b with
  | None, None => true
  | Some Json.JNull, Some Json.JNull => true
  | Some (Json.JBool x), Some (Json.JBool y) => Bool.eqb x y
  | Some (Json.JNum x), Some (Json.JNum y) => String.eqb x y
  | Some (Json.JStr x), Some (Json.JStr y) => String.eqb x y
  | _, _ => false
  end.

(** [toolStatusesMap.set(key, v)]: a known key keeps its place and takes
    the new value. *)
Fixpoint mapSetAny (key : option Json.value) (v : Json.value)
    (m : list (option Json.value * Json.value)) : list (option Json.value * Json.value) :=
  match m with
  | [] => [(key, v)]
  | (k, u) :: rest =>
      if sameKey k key then (k, v) :: rest else (k, u) :: mapSetAny key v rest
  end.

(** The first loop of [parseMessageContent]: every body that parses is
    pushed and its marker is removed from the clean text. *)
Fixpoint extractEditsAny (bs : list string) (clean : string) (acc : list Json.value)
    : string * list Json.value :=
  match bs with
  | [] => (clean, acc)
  | body :: rest =>
      match Json.parse body with
      | Some v =>
          extractEditsAny rest
            (JSString.replace clean (DIFF_OPEN +:+ body +:+ DIFF_CLOSE) EmptyString)
            (acc ++ [v])
      | None => extractEditsAny rest clean acc
      end
  end.

(** The second loop: the [catch] that covers [JSON.parse] covers the read
    of [statusData.id] too. *)
Fixpoint extractStatusesAny (bs : list string) (clean : string)
    (m : list (option Json.value * Json.value))
    : string * list (option Json.value * Json.value) :=
  match bs with
  | [] => (clean, m)
  | body :: rest =>
      match Json.parse body with
      | Some v =>
          match idOf v with
          | Ok key =>
              extractStatusesAny rest
                (JSString.replace clean (STATUS_OPEN +:+ body +:+ STATUS_CLOSE) EmptyString)
                (mapSetAny key v m)
          | Throw _ => extractStatusesAny rest clean m
          end
      | None => extractStatusesAny rest clean m
      end
  end.

(** [String(x)], for the argument of [localeCompare]; a number is written
    as its lexeme. *)
Fixpoint toStringOf (v : Json.value) : string :=
  match v with
  | Json.JNull => "null"
  | Json.JBool true => "true"
  | Json.JBool false => "false"
  | Json.JNum lexeme => lexeme
  | Json.JStr s => s
  | Json.JArr items =>
      JSString.joinWith ","
        (List.map (fun x => match x with Json.JNull => EmptyString | _ => toStringOf x end)
           items)
  | Json.JObj _ => "[object Object]"
  end.

(** The comparator [(a, b) => a.id.localeCompare(b.id)] on two values of
    the map: only a string has the method. *)
Definition compareIds (a b : Json.value) : result Z :=
  match Json.get "id" a with
  | Some (Json.JStr s) =>
      Ok (localeCompare s
            match Json.get "id" b with
            | Some x => toStringOf x
            | None => "undefined"
            end)
  | Some Json.JNull => Throw READ_OF_NULL
  | None => Throw READ_OF_UNDEFINED
  | Some _ => Throw NOT_A_FUNCTION
  end.

(** [Array.prototype.sort] with a comparator that may throw: the
    exception of a comparison ends the sort.  Which pairs a sort compares
    is the engine's choice; this insertion sort, the one of [Main.sortBy],
    stands for it where the comparator answers for every pair of elements
    or throws for every pair. *)
Fixpoint insertByM {A} (cmp : A -> A -> result Z) (x : A) (l : list A) : result (list A) :=
  match l with
  | [] => Ok [x]
  | y :: rest =>
      match cmp x y with
      | Throw msg => Throw msg
      | Ok c =>
          if (c <=? 0)%Z then Ok (x :: y :: rest)
          else match insertByM cmp x rest with
               | Ok r => Ok (y :: r)
               | Throw msg => Throw msg
               end
      end
  end.

Fixpoint sortByM {A} (cmp : A -> A -> result Z) (l : list A) : result (list A) :=
  match l with
  | [] => Ok []
  | x :: rest =>
      match sortByM cmp rest with
      | Ok r => insertByM cmp x r
      | Throw msg => Throw msg
      end
  end.

Record ParsedAny : Type := mkParsedAny {
  cleanTextAny : string;
  editsAny : list Json.value;
  toolStatusesAny : list Json.value
}.

Definition parseMessageContentAny (text : string) : result ParsedAny :=
  let '(clean1, es) := extractEditsAny (bodies DIFF_OPEN DIFF_CLOSE text) text [] in
  let '(clean2, m) := extractStatusesAny (bodies STATUS_OPEN STATUS_CLOSE text) clean1 [] in
  match sortByM compareIds (List.map snd m) with
  | Ok sorted => Ok (mkParsedAny (JSString.trim clean2) es sorted)
  | Throw msg => Throw msg
  end.

(** *** The registration effect of [MessageItem] *)

Definition pendingOf (e : ProposedEdit) : PendingEdit :=
  mkPendingEdit (pe_id e) (pe_type e) (pe_path e)
    (pe_originalContent e) (pe_newContent e) Pending.

Fixpoint registerEdits (es : list ProposedEdit) (pendingEdits : list PendingEdit)
    : list PendingEdit :=
  match es with
  | [] => pendingEdits
  | e :: rest =>
      registerEdits rest
        (if pe_flag e && negb (known (getPendingEdit (pe_id e) pendingEdits))
         then addPendingEdit (pendingOf e) pendingEdits
         else pendingEdits)
  end.

(** Rendering a message text: decode it, then run the effect. *)
Definition observe (text : string) (pendingEdits : list PendingEdit) : list PendingEdit :=
  registerEdits (edits (parseMessageContent text)) pendingEdits.

(** *** Accept and reject *)

(** The renderer's ledger together with the disk of the main process;
    [window.electronAPI.applyEdit] is the bridge to [ai:applyEdit]. *)
Record World : Type := mkWorld {
  disk : Disk;
  pendingEdits : list PendingEdit
}.

Definition handleAcceptEdit (w : World) (editId path newContent : string) : World :=
  let '(success, disk') := Main.applyEdit (disk w) path newContent in
  if success then mkWorld disk' (updateEditStatus editId Applied (pendingEdits w))
  else mkWorld disk' (pendingEdits w).

Definition handleRejectEdit (w : World) (editId : string) : World :=
  mkWorld (disk w) (updateEditStatus editId Rejected (pendingEdits w)).

(** *** The buttons of [DiffBlock] *)

Inductive Action : Type := Accept | Reject.

Definition statusIs (s : EditStatus) (o : option PendingEdit) : bool :=
  match o with
  | Some e => match edit_status e, s with
              | Applied, Applied | Rejected, Rejected | Pending, Pending => true
              | _, _ => false
              end
  | None => false
  end.

(** The buttons [DiffBlock] renders for its props: none once the edit is
    shown as applied or as rejected. *)
Definition diffBlockButtons (isApplied isRejected : bool) : list Action :=
  if isApplied then [] else if isRejected then [] else [Accept; Reject].

(** The buttons [MessageItem] gives the block of a decoded edit when it
    renders with the ledger of [w]. *)
Definition offered (w : World) (e : ProposedEdit) : list Action :=
  let pendingEdit := getPendingEdit (pe_id e) (pendingEdits w) in
  diffBlockButtons (statusIs Applied pendingEdit) (statusIs Rejected pendingEdit).

(** A click on a button of the block of [e] in an item that has just been
    rendered with the ledger of [w]; without that button there is nothing
    to click. *)
Definition click (w : World) (e : ProposedEdit) (a : Action) : World :=
  if existsb (fun b => match a, b with Accept, Accept | Reject, Reject => true | _, _ => false end)
       (offered w e)
  then match a with
       | Accept => handleAcceptEdit w (pe_id e) (pe_path e) (pe_newContent e)
       | Reject => handleRejectEdit w (pe_id e)
       end
  else w.

(** *** What stays on screen

    [MessageItem] is wrapped in [React.memo].  [MessageList] renders
    again on every change of the store, but the props it hands to an item
    keep their identity while only [pendingEdits] changes: the message
    object, the two handlers ([useCallback] over the store's
    [updateEditStatus]) and the store's [addPendingEdit] and
    [getPendingEdit].  The item is then not rendered again, and its
    [DiffBlock]s keep the [isApplied] and [isRejected] that were computed
    from the ledger at the item's last render. *)
Record Screen : Type := mkScreen {
  world : World;
  rendered : list PendingEdit      (* the ledger at the last render of the item *)
}.

(** The item renders, because it is mounted or its message has changed:
    the blocks are built from the ledger as it is, then the registration
    effect runs. *)
Definition renderItem (text : string) (w : World) : Screen :=
  mkScreen (mkWorld (disk w) (observe text (pendingEdits w))) (pendingEdits w).

(** The buttons on screen for a decoded edit. *)
Definition shown (s : Screen) (e : ProposedEdit) : list Action :=
  let pendingEdit := getPendingEdit (pe_id e) (rendered s) in
  diffBlockButtons (statusIs Applied pendingEdit) (statusIs Rejected pendingEdit).

(** A click on a button that is on screen: the handler runs on the store
    as it is now, and the change of the ledger does not render the item
    again. *)
Definition press (s : Screen) (e : ProposedEdit) (a : Action) : Screen :=
  if existsb (fun b => match a, b with Accept, Accept | Reject, Reject => true | _, _ => false end)
       (shown s e)
  then mkScreen
         match a with
         | Accept => handleAcceptEdit (world s) (pe_id e) (pe_path e) (pe_newContent e)
         | Reject => handleRejectEdit (world s) (pe_id e)
         end
         (rendered s)
  else s.

End WithPlatform.

End MessageList.

(** ** [src/lib/languageUtils.ts] *)

Module LanguageUtils.

(** The own properties of [EXTENSION_TO_LANGUAGE]. *)
Definition EXTENSION_TO_LANGUAGE : list (string * string) :=
  [ ("js", "javascript"); ("jsx", "javascript"); ("ts", "typescript");
    ("tsx", "typescriptreact"); ("mjs", "javascript"); ("cjs", "javascript");
    ("html", "html"); ("htm", "html"); ("css", "css"); ("scss", "scss");
    ("sass", "scss"); ("less", "less");
    ("json", "json"); ("xml", "xml"); ("yaml", "yaml"); ("yml", "yaml"); ("toml", "ini");
    ("md", "markdown"); ("mdx", "markdown");
    ("py", "python"); ("rb", "ruby"); ("go", "go"); ("rs", "rust"); ("java", "java");
    ("kt", "kotlin"); ("swift", "swift"); ("c", "c"); ("cpp", "cpp"); ("h", "c");
    ("hpp", "cpp"); ("cs", "csharp"); ("php", "php");
    ("sh", "shell"); ("bash", "shell"); ("zsh", "shell"); ("ps1", "powershell");
    ("env", "ini"); ("gitignore", "ini"); ("dockerignore", "ini");
    ("sql", "sql") ].

(** The properties the object literal inherits from [Object.prototype]:
    a lookup of one of these names finds the inherited member. *)
Definition prototypeKeys : list string :=
  [ "constructor"; "__defineGetter__"; "__defineSetter__"; "hasOwnProperty";
    "__lookupGetter__"; "__lookupSetter__"; "isPrototypeOf"; "propertyIsEnumerable";
    "toString"; "valueOf"; "__proto__"; "toLocaleString" ].

(** What [getLanguageFromPath] returns: a language id, or the inherited
    member a lookup ran into (it is truthy, so [||] lets it through). *)
Inductive Language : Type :=
| LangId (id : string)
| Inherited (key : string).

Fixpoint lookup (k : string) (table : list (string * string)) : option string :=
  match table with
  | [] => None
  | (k', v) :: rest => if String.eqb k k' then Some v else lookup k rest
  end.

(** [EXTENSION_TO_LANGUAGE[k] || 'plaintext'] *)
Definition languageOr (k : string) : Language :=
  match lookup k EXTENSION_TO_LANGUAGE with
  | Some v => if JSString.truthy v then LangId v else LangId "plaintext"
  | None => if existsb (String.eqb k) prototypeKeys then Inherited k else LangId "plaintext"
  end.

(** [p.split(/[\\/]/).pop() || ''] *)
Definition baseName (p : string) : string :=
  Main.lastOf (JSString.splitOn "/" (JSString.slashes p)).

(** [name.split('.').pop()?.toLowerCase() || ''] *)
Definition extensionOf (name : string) : string :=
  JSString.toLowerCase (Main.lastOf (JSString.splitOn "." name)).

Definition getLanguageFromPath (filePath : option string) : Language :=
  match filePath with
  | None => LangId "plaintext"
  | Some p =>
      if negb (JSString.truthy p) then LangId "plaintext"
      else
        let fileName := baseName p in
        let extension := extensionOf fileName in
        if JSString.startsWith fileName "." && negb (JSString.truthy extension)
        then languageOr (JSString.drop 1 fileName)
        else languageOr extension
  end.

Definition binaryExtensions : list string :=
  [ "png"; "jpg"; "jpeg"; "gif"; "webp"; "ico"; "bmp"; "svg";
    "mp3"; "mp4"; "wav"; "avi"; "mov"; "mkv";
    "pdf"; "doc"; "docx"; "xls"; "xlsx"; "ppt"; "pptx";
    "zip"; "rar"; "7z"; "tar"; "gz";
    "exe"; "dll"; "so"; "dylib";
    "woff"; "woff2"; "ttf"; "otf"; "eot" ].

Definition isBinaryFile (filePath : string) : bool :=
  existsb (String.eqb (extensionOf filePath)) binaryExtensions.

End LanguageUtils.

(** ** [src/stores/workspaceStore.ts] *)

Module WorkspaceStore.

(** The fields of the store that the tree actions read or write, and the
    module-level debounce timer: [refreshTimeout] holds the changed path of
    the refresh that is scheduled and has not fired. *)
Record State : Type := mkState {
  rootPath : option string;
  tree : list FileNode;
  expandedFolders : gset string;
  selectedPath : option string;
  editingNodeId : option string;
  isCreating : bool;
  refreshTimeout : option string
}.

Definition truthyOpt (o : option string) : bool :=
  match o with Some s => JSString.truthy s | None => false end.

Definition setChildren (n : FileNode) (children : option (list FileNode)) : FileNode :=
  mkNode (node_id n) (node_name n) (node_path n) (node_isFolder n) children
    (node_isNew n) (node_isEditing n).

(** [updateTreeChildren(tree, folderPath, newChildren)], on one node. *)
Fixpoint updateNodeChildren (folderPath : string) (newChildren : option (list FileNode))
    (node : FileNode) : FileNode :=
  match node with
  | mkNode i nm p f ch isNew isEd =>
      if String.eqb p folderPath then mkNode i nm p f newChildren isNew isEd
      else match ch with
           | Some cs =>
               mkNode i nm p f (Some (List.map (updateNodeChildren folderPath newChildren) cs))
                 isNew isEd
           | None => node
           end
  end.

Definition updateTreeChildren (tree : list FileNode) (folderPath : string)
    (newChildren : option (list FileNode)) : list FileNode :=
  List.map (updateNodeChildren folderPath newChildren) tree.

(** The mapping step of [addNodeToTree], on one node. *)
Fixpoint addUnderNode (parentPath : string) (newNode : FileNode) (node : FileNode) : FileNode :=
  match node with
  | mkNode i nm p f ch isNew isEd =>
      if String.eqb p parentPath then
        mkNode i nm p f (Some (newNode :: match ch with Some cs => cs | None => [] end))
          isNew isEd
      else match ch with
           | Some cs =>
               mkNode i nm p f (Some (List.map (addUnderNode parentPath newNode) cs)) isNew isEd
           | None => node
           end
  end.

Definition addNodeToTree (tree : list FileNode) (parentPath : string) (newNode : FileNode)
    (root : string) : list FileNode :=
  if negb (JSString.truthy parentPath) || String.eqb parentPath root then newNode :: tree
  else List.map (addUnderNode parentPath newNode) tree.

(** [removeNodeFromTree(tree, nodeId)] *)
Fixpoint removeFromNode (nodeId : string) (node : FileNode) : FileNode :=
  match node with
  | mkNode i nm p f ch isNew isEd =>
      match ch with
      | Some cs =>
          mkNode i nm p f
            (Some ((fix removeFromList (l : list FileNode) : list FileNode :=
                      match l with
                      | [] => []
                      | c :: rest =>
                          if String.eqb (node_id c) nodeId then removeFromList rest
                          else removeFromNode nodeId c :: removeFromList rest
                      end) cs))
            isNew isEd
      | None => node
      end
  end.

Definition removeNodeFromTree (tree : list FileNode) (nodeId : string) : list FileNode :=
  List.map (removeFromNode nodeId)
    (List.filter (fun n => negb (String.eqb (node_id n) nodeId)) tree).

Fixpoint dropLast (l : list string) : list string :=
  match l with
  | [] => []
  | [_] => []
  | x :: rest => x :: dropLast rest
  end.

Definition getParentPath (filePath : string) : string :=
  JSString.joinWith "/" (dropLast (JSString.splitOn "/" (JSString.slashes filePath))).

(** The temporary node of [startCreateFile] ([isFolder = false]) and of
    [startCreateFolder] ([isFolder = true]). *)
Definition tempNode (isFolder : bool) (now : N) : FileNode :=
  let tempId := (if isFolder then "__temp_folder_" else "__temp_file_") +:+ JSString.ofN now in
  mkNode tempId (if isFolder then "New Folder" else "untitled.txt") tempId isFolder None
    true false.

Definition startCreate (isFolder : bool) (st : State) (parentPath : string) (now : N) : State :=
  match rootPath st with
  | None => st
  | Some root =>
      if negb (JSString.truthy root) then st
      else if isCreating st then st
      else
        let cleanedTree := List.filter (fun n => negb (node_isNew n)) (tree st) in
        let cleanedTreeDeep :=
          List.map (fun n =>
                      match node_children n with
                      | Some cs =>
                          setChildren n (Some (List.filter (fun c => negb (node_isNew c)) cs))
                      | None => n
                      end) cleanedTree in
        let t := tempNode isFolder now in
        mkState (rootPath st) (addNodeToTree cleanedTreeDeep parentPath t root)
          (expandedFolders st) (Some (node_id t)) (Some (node_id t)) true
          (refreshTimeout st)
  end.

Definition startCreateFile : State -> string -> N -> State := startCreate false.
Definition startCreateFolder : State -> string -> N -> State := startCreate true.

Definition cancelCreate (st : State) (tempId : string) : State :=
  mkState (rootPath st) (removeNodeFromTree (tree st) tempId) (expandedFolders st)
    (selectedPath st) None false (refreshTimeout st).

Definition startEditing (st : State) (nodeId : string) : State :=
  mkState (rootPath st) (tree st) (expandedFolders st) (selectedPath st) (Some nodeId)
    (isCreating st) (refreshTimeout st).

Definition stopEditing (st : State) : State :=
  mkState (rootPath st) (tree st) (expandedFolders st) (selectedPath st) None
    (isCreating st) (refreshTimeout st).

(** The test of [handleFsChange] for temporary nodes: the top-level nodes
    and their direct children. *)
Definition hasTempNodes (tree : list FileNode) : bool :=
  existsb node_isNew tree
  || existsb (fun n => match node_children n with
                       | Some cs => existsb node_isNew cs
                       | None => false
                       end) tree.

(** [handleFsChange(event, changedPath)]: either blocked, or the pending
    timer is replaced by one for [changedPath]. *)
Definition handleFsChange (st : State) (event changedPath : string) : State :=
  if truthyOpt (editingNodeId st) || hasTempNodes (tree st) then st
  else mkState (rootPath st) (tree st) (expandedFolders st) (selectedPath st)
         (editingNodeId st) (isCreating st) (Some changedPath).

(** A node in an uncommitted creation state anywhere below [n]. *)
Fixpoint nodeHasNew (n : FileNode) : bool :=
  match n with
  | mkNode _ _ _ _ ch isNew _ =>
      isNew || match ch with Some cs => existsb nodeHasNew cs | None => false end
  end.

Definition treeHasNew (tree : list FileNode) : bool := existsb nodeHasNew tree.

Section WithPlatform.
Context {P : Platform}.

(** [window.electronAPI.fs.readDir], answered by the main process whose
    workspace is [workspacePath]. *)
Definition readDir (workspacePath : option string) (dirPath : string)
    : result (list FileNode) :=
  Main.fs_readDir workspacePath dirPath.

(** The loop of [refreshFolder] over the expanded folders of the root
    listing; it stops at the first listing that throws. *)
Fixpoint refreshExpanded (workspacePath : option string) (expanded : gset string)
    (folders : list FileNode) (tree : list FileNode) : list FileNode :=
  match folders with
  | [] => tree
  | folder :: rest =>
      if bool_decide (node_path folder ∈ expanded) then
        match readDir workspacePath (node_path folder) with
        | Ok children =>
            refreshExpanded workspacePath expanded rest
              (updateTreeChildren tree (node_path folder) (Some children))
        | Throw _ => tree
        end
      else refreshExpanded workspacePath expanded rest tree
  end.

(** [refreshFolder(folderPath)], run without interleaving; when a listing
    throws, the state keeps what was set before. *)
Definition refreshFolder (workspacePath : option string) (st : State) (folderPath : string)
    : State :=
  let withTree t :=
    mkState (rootPath st) t (expandedFolders st) (selectedPath st) (editingNodeId st)
      (isCreating st) (refreshTimeout st) in
  match rootPath st with
  | None => st
  | Some root =>
      if negb (JSString.truthy root) then st
      else if String.eqb (JSString.slashes folderPath) (JSString.slashes root)
              || String.eqb folderPath root then
        match readDir workspacePath root with
        | Throw _ => st
        | Ok items =>
            withTree (refreshExpanded workspacePath (expandedFolders st)
                        (List.filter node_isFolder items) items)
        end
      else if bool_decide (folderPath ∈ expandedFolders st) then
        match readDir workspacePath folderPath with
        | Ok children => withTree (updateTreeChildren (tree st) folderPath (Some children))
        | Throw _ => st
        end
      else st
  end.

(** The debounce timer fires. *)
Definition fireTimer (workspacePath : option string) (st : State) : State :=
  match refreshTimeout st with
  | None => st
  | Some changedPath =>
      refreshFolder workspacePath
        (mkState (rootPath st) (tree st) (expandedFolders st) (selectedPath st)
           (editingNodeId st) (isCreating st) None)
        (getParentPath changedPath)
  end.

(** [toggleFolder(folderPath)], run without interleaving. *)
Definition toggleFolder (workspacePath : option string) (st : State) (folderPath : string)
    : State :=
  if bool_decide (folderPath ∈ expandedFolders st) then
    mkState (rootPath st) (updateTreeChildren (tree st) folderPath None)
      (expandedFolders st ∖ {[folderPath]}) (selectedPath st) (editingNodeId st)
      (isCreating st) (refreshTimeout st)
  else
    match readDir workspacePath folderPath with
    | Ok children =>
        mkState (rootPath st) (updateTreeChildren (tree st) folderPath (Some children))
          ({[folderPath]} ∪ expandedFolders st) (selectedPath st) (editingNodeId st)
          (isCreating st) (refreshTimeout st)
    | Throw _ => st
    end.

(** *** Editor tabs *)

(** The editor fields of the store.  [fileContents] is the object used as
    a map from paths to contents. *)
Record Editor : Type := mkEditor {
  activeFileId : option string;
  openFiles : list string;
  fileContents : gmap string string;
  isFileLoading : bool;
  fileError : option string;
  unsavedFiles : gset string
}.

Definition initialEditor : Editor := mkEditor None [] ∅ false None ∅.

Definition updateActiveFileContent (ed : Editor) (content : string) : Editor :=
  match activeFileId ed with
  | None => ed
  | Some a =>
      if negb (JSString.truthy a) then ed
      else mkEditor (activeFileId ed) (openFiles ed) (<[a := content]> (fileContents ed))
             (isFileLoading ed) (fileError ed) ({[a]} ∪ unsavedFiles ed)
  end.

(** [saveActiveFile()]: the editor and the disk afterwards.  A write that
    throws is logged and leaves the unsaved mark. *)
Definition saveActiveFile (workspacePath : option string) (ed : Editor) (disk : Disk)
    : Editor * Disk :=
  match activeFileId ed with
  | None => (ed, disk)
  | Some a =>
      if negb (JSString.truthy a) then (ed, disk)
      else match fileContents ed !! a with
           | None => (ed, disk)
           | Some content =>
               match Main.fs_writeFile workspacePath disk a content with
               | (Ok _, disk') =>
                   (mkEditor (activeFileId ed) (openFiles ed) (fileContents ed)
                      (isFileLoading ed) (fileError ed) (unsavedFiles ed ∖ {[a]}), disk')
               | (Throw _, disk') => (ed, disk')
               end
           end
  end.

Definition includesPath (l : list string) (p : string) : bool := existsb (String.eqb p) l.

(** [openFile(path)], run without interleaving.  The list of binary
    extensions is the one of [isBinaryFile]; [error?.message || ...] is
    taken from the message the handler throws. *)
Definition openFile (workspacePath : option string) (disk : Disk) (ed : Editor)
    (path : string) : Editor :=
  let newOpenFiles :=
    if includesPath (openFiles ed) path then openFiles ed else openFiles ed ++ [path] in
  let ext := LanguageUtils.extensionOf path in
  if includesPath LanguageUtils.binaryExtensions ext then
    mkEditor (Some path) newOpenFiles (fileContents ed) false
      (Some ("Cannot open binary file: ." +:+ ext)) (unsavedFiles ed)
  else
    match fileContents ed !! path with
    | Some _ =>
        mkEditor (Some path) newOpenFiles (fileContents ed) (isFileLoading ed) None
          (unsavedFiles ed)
    | None =>
        match Main.fs_readFile workspacePath disk path with
        | Ok content =>
            mkEditor (Some path) newOpenFiles (<[path := content]> (fileContents ed)) false
              None (unsavedFiles ed)
        | Throw msg =>
            mkEditor (Some path) newOpenFiles (fileContents ed) false
              (Some (if JSString.truthy msg then msg else "Failed to open file"))
              (unsavedFiles ed)
        end
    end.

(** [arr.indexOf(x)], with [-1] when [x] is absent. *)
Fixpoint indexOf (x : string) (l : list string) : Z :=
  match l with
  | [] => (-1)%Z
  | y :: rest =>
      if String.eqb y x then 0%Z
      else let i := indexOf x rest in if (i <? 0)%Z then (-1)%Z else (i + 1)%Z
  end.

(** [arr[i]]: nothing outside the array. *)
Definition at_ (l : list string) (i : Z) : option string :=
  if (i <? 0)%Z then None else nth_error l (Z.to_nat i).

Definition closeFile (ed : Editor) (path : string) : Editor :=
  let newOpenFiles := List.filter (fun p => negb (String.eqb p path)) (openFiles ed) in
  let newActiveId :=
    match activeFileId ed with
    | Some a =>
        if String.eqb a path then
          if (0 <? List.length newOpenFiles)%nat then
            let index := indexOf path (openFiles ed) in
            if (index >=? Z.of_nat (List.length newOpenFiles))%Z
            then at_ newOpenFiles (Z.of_nat (List.length newOpenFiles) - 1)
            else at_ newOpenFiles index
          else None
        else Some a
    | None => None
    end in
  mkEditor newActiveId newOpenFiles (delete path (fileContents ed)) (isFileLoading ed)
    (fileError ed) (unsavedFiles ed ∖ {[path]}).

End WithPlatform.

End WorkspaceStore.

(** ** [src/services/contextService.ts] *)

Module ContextService.

Record ActiveFile : Type := mkActiveFile {
  af_path : string;
  af_content : string;
  af_language : string;
  af_cursorLine : N;
  af_cursorColumn : N
}.

Record WorkspaceContext : Type := mkContext {
  projectName : string;
  projectPath : string;
  fileTree : string;
  activeFile : option ActiveFile;
  openFilePaths : list string
}.

(** [s.repeat(n)] *)
Fixpoint repeatStr (s : string) (n : nat) : string :=
  match n with O => EmptyString | S n' => s +:+ repeatStr s n' end.

(** The lines that [buildFileTreeString] pushes for one node. *)
Fixpoint nodeLines (indent : nat) (node : FileNode) : list string :=
  match node with
  | mkNode _ nm _ isFolder ch _ _ =>
      let prefix := repeatStr "  " indent in
      if isFolder then
        (prefix +:+ "📁 " +:+ nm +:+ "/")
        :: match ch with
           | Some cs =>
               match cs with
               | [] => []
               | _ :: _ => [JSString.joinWith nl (List.flat_map (nodeLines (S indent)) cs)]
               end
           | None => []
           end
      else [prefix +:+ "📄 " +:+ nm]
  end.

Definition buildFileTreeString (tree : list FileNode) (indent : nat) : string :=
  JSString.joinWith nl (List.flat_map (nodeLines indent) tree).

Definition FENCE : string := "```".

(** [buildSystemPrompt(context)] *)
Definition buildSystemPrompt (context : WorkspaceContext) : string :=
  JSString.joinWith nl
    ([ "You are an AI coding assistant integrated into Work Studio IDE.";
       "You have full context of the user's current workspace and can help with coding tasks.";
       EmptyString;
       "## Current Project";
       "- **Name**: " +:+ projectName context ]
     ++ (if JSString.truthy (projectPath context)
         then ["- **Path**: " +:+ projectPath context] else [])
     ++ [ EmptyString;
          "## Project Structure";
          FENCE;
          fileTree context;
          FENCE;
          EmptyString ]
     ++ (match activeFile context with
         | Some af =>
             [ "## Currently Open File";
               "- **Path**: " +:+ af_path af;
               "- **Language**: " +:+ af_language af;
               "- **Cursor Position**: Line " +:+ JSString.ofN (af_cursorLine af)
                 +:+ ", Column " +:+ JSString.ofN (af_cursorColumn af);
               EmptyString;
               "### File Content (with line numbers)";
               FENCE +:+ af_language af;
               JSString.joinWith nl
                 (Main.numberLines 0 (JSString.splitOn "010" (af_content af)));
               FENCE;
               EmptyString ]
         | None => []
         end)
     ++ (let otherFiles :=
           List.filter (fun p => match activeFile context with
                                 | Some af => negb (String.eqb p (af_path af))
                                 | None => true
                                 end) (openFilePaths context) in
         match otherFiles with
         | [] => []
         | _ :: _ =>
             ["## Other Open Tabs"]
             ++ List.map (fun path => "- " +:+ LanguageUtils.baseName path) otherFiles
             ++ [EmptyString]
         end)
     ++ [ "## Your Role";
          "- Help the user understand, modify, debug, or extend their code.";
          "- You can see the currently open file and project structure.";
          "- Provide specific, actionable suggestions with code examples.";
          "- Reference line numbers when discussing the open file." ]).

End ContextService.

(** ** [src/components/chat/DiffBlock.tsx]: [generateDiff] *)

Module DiffBlock.

Inductive LineType : Type := LineAdd | LineRemove | LineContext.

Record DiffLine : Type := mkLine {
  dl_type : LineType;
  dl_content : string
}.

Definition sameLine (a b : option string) : bool :=
  match a, b with
  | Some x, Some y => String.eqb x y
  | _, _ => false
  end.

(** The first [while]: [prefixLen] advances while both lists have a line
    at that index and the two lines are equal. *)
Fixpoint prefixLoop (fuel prefixLen : nat) (oldLines newLines : list string) : nat :=
  match fuel with
  | O => prefixLen
  | S f =>
      if (prefixLen <? List.length oldLines)%nat && (prefixLen <? List.length newLines)%nat
         && sameLine (nth_error oldLines prefixLen) (nth_error newLines prefixLen)
      then prefixLoop f (S prefixLen) oldLines newLines
      else prefixLen
  end.

(** The second [while], counting equal lines from the end without
    entering the common prefix. *)
Fixpoint suffixLoop (fuel prefixLen suffixLen : nat) (oldLines newLines : list string) : nat :=
  match fuel with
  | O => suffixLen
  | S f =>
      if (suffixLen <? List.length oldLines - prefixLen)%nat
         && (suffixLen <? List.length newLines - prefixLen)%nat
         && sameLine (nth_error oldLines (List.length oldLines - 1 - suffixLen))
                     (nth_error newLines (List.length newLines - 1 - suffixLen))
      then suffixLoop f prefixLen (S suffixLen) oldLines newLines
      else suffixLen
  end.

Definition prefixLenOf (oldLines newLines : list string) : nat :=
  prefixLoop (List.length oldLines) 0 oldLines newLines.

Definition suffixLenOf (oldLines newLines : list string) : nat :=
  suffixLoop (List.length oldLines) (prefixLenOf oldLines newLines) 0 oldLines newLines.

(** The lines [l[lo]], ..., [l[hi - 1]] that a [for] loop pushes. *)
Definition slice (lo hi : nat) (l : list string) : list string :=
  List.firstn (hi - lo) (List.skipn lo l).

Definition generateDiff (oldLines newLines : list string) : list DiffLine :=
  let prefixLen := prefixLenOf oldLines newLines in
  let suffixLen := suffixLenOf oldLines newLines in
  let result :=
    List.map (mkLine LineContext) (slice (prefixLen - 3) prefixLen oldLines)
    ++ List.map (mkLine LineRemove) (slice prefixLen (List.length oldLines - suffixLen) oldLines)
    ++ List.map (mkLine LineAdd) (slice prefixLen (List.length newLines - suffixLen) newLines)
    ++ List.map (mkLine LineContext)
         (slice (List.length oldLines - suffixLen)
            (List.length oldLines - suffixLen + Nat.min suffixLen 3) oldLines) in
  match result with
  | [] => List.map (mkLine LineContext) (slice 0 (Nat.min 5 (List.length newLines)) newLines)
  | _ :: _ => result
  end.

(** The diff that [DiffBlock] shows for its two contents. *)
Definition diffOf (originalContent newContent : string) : list DiffLine :=
  generateDiff (JSString.splitOn "010" originalContent) (JSString.splitOn "010" newContent).

Definition linesOfType (t : LineType) (d : list DiffLine) : list string :=
  List.map dl_content
    (List.filter (fun l => match dl_type l, t with
                           | LineAdd, LineAdd | LineRemove, LineRemove
                           | LineContext, LineContext => true
                           | _, _ => false
                           end) d).

End DiffBlock.


(** ** [src/components/chat/ChatPanel.tsx]: [handleSendMessage] *)

Module ChatPanel.

Import ChatStore.

(** The arguments of [window.electronAPI.sendMessage] that come from the
    input and the store. *)
Record Sent : Type := mkSent {
  sent_message : string;
  sent_images : list string;
  sent_history : list (Main.Role * string)
}.

(** [handleSendMessage] up to the call of [sendMessage]: the store after
    the two [addMessage] calls, and what is sent.  [clock i] is the value of
    the [i]-th [Date.now()] of the call. *)
Definition handleSendMessage (st : Store) (inputValue : string) (isLoading : bool)
    (clock : nat -> N) : Store * option Sent :=
  if (negb (JSString.truthy (JSString.trim inputValue))
      && (List.length (pendingImages st) =? 0)%nat) || isLoading
  then (st, None)
  else
    let currentImages := pendingImages st in
    let userMsg := mkMessage (JSString.ofN (clock 0)) User (JSString.trim inputValue) in
    let st1 := addMessage (clearPendingImages st) userMsg (clock 2) in
    let tempModelMsgId := JSString.ofN (clock 3 + 1) in
    let st2 := addMessage st1 (mkMessage tempModelMsgId Model EmptyString) (clock 5) in
    (st2, Some (mkSent (JSString.trim inputValue) currentImages (storeHistory st2))).

End ChatPanel.

(** * Properties *)

(** ** Strings *)

Section StringFacts.

Lemma append_cons (c : ascii) (s t : string) : String c s +:+ t = String c (s +:+ t).
Proof. reflexivity. Qed.

Lemma append_nil_l (s : string) : EmptyString +:+ s = s.
Proof. reflexivity. Qed.

Lemma append_nil_r (s : string) : s +:+ EmptyString = s.
Proof. induction s as [|c s IH]; [reflexivity | rewrite append_cons; congruence]. Qed.

Lemma append_assoc (a b c : string) : (a +:+ b) +:+ c = a +:+ (b +:+ c).
Proof. induction a as [|x a IH]; [reflexivity | rewrite !append_cons; congruence]. Qed.

Lemma length_append (a b : string) :
  String.length (a +:+ b) = String.length a + String.length b.
Proof. induction a as [|x a IH]; [reflexivity | rewrite append_cons; simpl; congruence]. Qed.

Lemma startsWith_append (p rest : string) : JSString.startsWith (p +:+ rest) p = true.
Proof.
  induction p as [|a p IH]; [reflexivity |].
  rewrite append_cons. simpl. now rewrite Ascii.eqb_refl.
Qed.

Lemma startsWith_inv (s p : string) :
  JSString.startsWith s p = true -> s = p +:+ JSString.drop (String.length p) s.
Proof.
  revert s; induction p as [|a p IH]; intros s Hs; [reflexivity |].
  destruct s as [|b s]; [discriminate |]. simpl in Hs.
  destruct (Ascii.eqb_spec a b) as [->|]; [|discriminate].
  rewrite append_cons. simpl. f_equal. now apply IH.
Qed.

(** [startsWith] decides the prefix relation. *)
Lemma startsWith_spec (s p : string) :
  JSString.startsWith s p = true <-> exists rest, s = p +:+ rest.
Proof.
  split.
  - intros Hs. eexists. now apply startsWith_inv.
  - intros [rest ->]. apply startsWith_append.
Qed.

Lemma startsWith_extend (s p t : string) :
  JSString.startsWith s p = true -> JSString.startsWith (s +:+ t) p = true.
Proof.
  intros [rest ->]%startsWith_spec. rewrite append_assoc. apply startsWith_append.
Qed.

(** A text at least as long as the pattern decides the test alone. *)
Lemma startsWith_long (s p t : string) :
  String.length p <= String.length s ->
  JSString.startsWith (s +:+ t) p = JSString.startsWith s p.
Proof.
  revert s; induction p as [|a p IH]; intros s Hlen; [reflexivity |].
  destruct s as [|b s]; simpl in Hlen; [lia |].
  rewrite append_cons. simpl.
  destruct (Ascii.eqb a b); [apply IH; lia | reflexivity].
Qed.

Lemma drop_append (n : nat) (s t : string) :
  n <= String.length s -> JSString.drop n (s +:+ t) = JSString.drop n s +:+ t.
Proof.
  revert s; induction n as [|n IH]; intros s Hn; [reflexivity |].
  destruct s as [|c s]; simpl in Hn; [lia |].
  rewrite append_cons. simpl. apply IH; lia.
Qed.

Lemma startsWith_length (s p : string) :
  JSString.startsWith s p = true -> String.length p <= String.length s.
Proof.
  intros [rest ->]%startsWith_spec. rewrite length_append. lia.
Qed.

Lemma splitFirst_eq (s pat : string) :
  JSString.splitFirst s pat =
  if JSString.startsWith s pat then Some (EmptyString, JSString.drop (String.length pat) s)
  else match s with
       | EmptyString => None
       | String c s' =>
           match JSString.splitFirst s' pat with
           | Some (a, b) => Some (String c a, b)
           | None => None
           end
       end.
Proof. destruct s; reflexivity. Qed.

Lemma splitFirst_sound (s pat a b : string) :
  JSString.splitFirst s pat = Some (a, b) -> s = a +:+ pat +:+ b.
Proof.
  revert a b; induction s as [|c s IH]; intros a b; rewrite splitFirst_eq.
  - destruct (JSString.startsWith EmptyString pat) eqn:E; [|discriminate].
    intros [= <- <-]. now apply startsWith_inv in E.
  - destruct (JSString.startsWith (String c s) pat) eqn:E.
    + intros [= <- <-]. now apply startsWith_inv in E.
    + destruct (JSString.splitFirst s pat) as [[a' b']|] eqn:E'; [|discriminate].
      intros [= <- <-]. rewrite append_cons. f_equal. now apply IH.
Qed.

Lemma splitFirst_length (s pat a b : string) :
  JSString.splitFirst s pat = Some (a, b) ->
  String.length s = String.length a + String.length pat + String.length b.
Proof.
  intros ->%splitFirst_sound. rewrite !length_append. lia.
Qed.

(** An occurrence found in a text is the one found in any extension of it. *)
Lemma splitFirst_extend (s pat t a b : string) :
  JSString.splitFirst s pat = Some (a, b) ->
  JSString.splitFirst (s +:+ t) pat = Some (a, b +:+ t).
Proof.
  revert a b; induction s as [|c s IH]; intros a b Hs;
    pose proof (splitFirst_length _ _ _ _ Hs) as Hlen;
    rewrite splitFirst_eq in Hs; rewrite splitFirst_eq;
    (rewrite startsWith_long by lia).
  - destruct (JSString.startsWith EmptyString pat) eqn:E; [|discriminate].
    injection Hs as <- <-. f_equal. f_equal.
    apply drop_append. now apply startsWith_length.
  - destruct (JSString.startsWith (String c s) pat) eqn:E.
    + injection Hs as <- <-. f_equal. f_equal.
      apply drop_append. now apply startsWith_length.
    + destruct (JSString.splitFirst s pat) as [[a' b']|] eqn:E'; [|discriminate].
      injection Hs as <- <-. rewrite append_cons.
      now rewrite (IH _ _ eq_refl).
Qed.

End StringFacts.

(** ** JSON parsing

    The fuel of the parser only bounds the recursion: a parse that
    succeeds with some fuel succeeds, with the same result, with any fuel
    of at least twice the number of characters it consumes, and [parse]
    provides more than that. *)

Section JsonFacts.

Lemma skipWs_length (s : string) : String.length (Json.skipWs s) <= String.length s.
Proof.
  induction s as [|c s IH]; simpl; [lia |].
  destruct (Json.isWs c); simpl; lia.
Qed.

Lemma consResult_some (c : ascii) (o : option (string * string)) (x r : string) :
  Json.consResult c o = Some (x, r) -> exists x', o = Some (x', r) /\ x = String c x'.
Proof. destruct o as [[x' r']|]; simpl; [|discriminate]. intros [= <- <-]. eauto. Qed.

Lemma parseStringBody_length (s x r : string) :
  Json.parseStringBody s = Some (x, r) -> String.length r < String.length s.
Proof.
  remember (String.length s) as n eqn:Hn. revert s x r Hn.
  induction n as [n IH] using lt_wf_ind. intros s x r Hn.
  destruct s as [|c s]; simpl; [discriminate |].
  destruct (Ascii.eqb c Json.dquote). { intros [= <- <-]. simpl in Hn. lia. }
  destruct (Ascii.eqb c "\").
  - destruct s as [|e s]; [discriminate |].
    destruct (Ascii.eqb e "u").
    + destruct s as [|h1 [|h2 [|h3 [|h4 s]]]]; try discriminate.
      destruct (Json.unicodeEscape h1 h2 h3 h4); [|discriminate].
      intros (x' & H & _)%consResult_some.
      eapply IH in H; [| |reflexivity]; simpl in *; lia.
    + destruct (Json.unescape e); [|discriminate].
      intros (x' & H & _)%consResult_some.
      eapply IH in H; [| |reflexivity]; simpl in *; lia.
  - destruct (nat_of_ascii c <? 32)%nat; [discriminate |].
    intros (x' & H & _)%consResult_some.
    eapply IH in H; [| |reflexivity]; simpl in *; lia.
Qed.

Lemma spanDigits_length (s : string) :
  String.length (snd (Json.spanDigits s)) <= String.length s.
Proof.
  induction s as [|c s IH]; simpl; [lia |].
  destruct (Json.isDigit c); simpl; [|lia].
  destruct (Json.spanDigits s); simpl in *. lia.
Qed.

Lemma parseInt_length (s x r : string) :
  Json.parseInt s = Some (x, r) -> String.length r < String.length s.
Proof.
  destruct s as [|c s]; simpl; [discriminate |].
  destruct (Ascii.eqb c "0"). { intros [= <- <-]. lia. }
  destruct (Json.isDigit c); [|discriminate].
  pose proof (spanDigits_length s) as H. destruct (Json.spanDigits s); simpl in *.
  intros [= <- <-]. lia.
Qed.

Lemma parseFrac_length (s x r : string) :
  Json.parseFrac s = Some (x, r) -> String.length r <= String.length s.
Proof.
  destruct s as [|c s]; simpl. { intros [= <- <-]. simpl. lia. }
  destruct (Ascii.eqb c ".").
  - pose proof (spanDigits_length s) as H. destruct (Json.spanDigits s) as [[|d ds] rest];
      [discriminate |]. intros [= <- <-]. simpl in *. lia.
  - intros [= <- <-]. simpl. lia.
Qed.

Lemma parseExp_length (s x r : string) :
  Json.parseExp s = Some (x, r) -> String.length r <= String.length s.
Proof.
  destruct s as [|c s]; simpl. { intros [= <- <-]. simpl. lia. }
  destruct (Ascii.eqb c "e" || Ascii.eqb c "E").
  - destruct s as [|g s'].
    + simpl. discriminate.
    + destruct (Ascii.eqb g "+" || Ascii.eqb g "-").
      * pose proof (spanDigits_length s') as H.
        destruct (Json.spanDigits s') as [[|d ds] rest]; [discriminate |].
        intros [= <- <-]. simpl in *. lia.
      * pose proof (spanDigits_length (String g s')) as H.
        destruct (Json.spanDigits (String g s')) as [[|d ds] rest]; [discriminate |].
        intros [= <- <-]. simpl in *. lia.
  - intros [= <- <-]. simpl. lia.
Qed.

Lemma parseNumber_length (s x r : string) :
  Json.parseNumber s = Some (x, r) -> String.length r < String.length s.
Proof.
  unfold Json.parseNumber.
  assert (H : forall sign s1, String.length s1 <= String.length s ->
     match Json.parseInt s1 with
     | Some (i, s2) => match Json.parseFrac s2 with
        | Some (f, s3) => match Json.parseExp s3 with
           | Some (e, s4) => Some (sign +:+ i +:+ f +:+ e, s4) | None => None end
        | None => None end
     | None => None end = Some (x, r) -> String.length r < String.length s).
  { intros sign s1 Hle.
    destruct (Json.parseInt s1) as [[i s2]|] eqn:Ei; [|discriminate].
    destruct (Json.parseFrac s2) as [[f s3]|] eqn:Ef; [|discriminate].
    destruct (Json.parseExp s3) as [[e s4]|] eqn:Ee; [|discriminate].
    intros [= _ <-].
    apply parseInt_length in Ei. apply parseFrac_length in Ef. apply parseExp_length in Ee.
    lia. }
  destruct s as [|c s']; [apply H; lia |].
  destruct (Ascii.eqb c "-"); apply H; simpl; lia.
Qed.

Definition stable {A} (parser : nat -> string -> option (A * string)) (f : nat) : Prop :=
  forall s v r, parser f s = Some (v, r) ->
    String.length r < String.length s
    /\ forall g, 2 * (String.length s - String.length r) <= g -> parser g s = Some (v, r).

Lemma skipWs_cons_length (s : string) (c : ascii) (r : string) :
  Json.skipWs s = String c r -> String.length r < String.length s.
Proof. intros H. pose proof (skipWs_length s) as L. rewrite H in L. simpl in L. lia. Qed.

Lemma drop_length (n : nat) (s : string) :
  String.length (JSString.drop n s) <= String.length s.
Proof.
  revert s; induction n as [|n IH]; intros s; simpl; [lia |].
  destruct s as [|c s]; simpl; [lia |]. specialize (IH s). lia.
Qed.

Lemma literal_length (c : ascii) (r : string) (n : nat) :
  String.length (JSString.drop (S n) (String c r)) <= String.length r.
Proof. simpl. apply drop_length. Qed.

Lemma parseValue_S (f : nat) (s : string) :
  Json.parseValue (S f) s =
      match Json.skipWs s with
      | EmptyString => None
      | String c r =>
          if Ascii.eqb c Json.dquote then
            match Json.parseStringBody r with
            | Some (x, rest) => Some (Json.JStr x, rest)
            | None => None
            end
          else if Ascii.eqb c "[" then
            match Json.skipWs r with
            | String d r' =>
                if Ascii.eqb d "]" then Some (Json.JArr [], r')
                else match Json.parseElements f r with
                     | Some (items, rest) => Some (Json.JArr items, rest)
                     | None => None
                     end
            | EmptyString => None
            end
          else if Ascii.eqb c "{" then
            match Json.skipWs r with
            | String d r' =>
                if Ascii.eqb d "}" then Some (Json.JObj [], r')
                else match Json.parseMembers f r with
                     | Some (fields, rest) => Some (Json.JObj fields, rest)
                     | None => None
                     end
            | EmptyString => None
            end
          else if JSString.startsWith (String c r) "true" then Some (Json.JBool true, JSString.drop 4 (String c r))
          else if JSString.startsWith (String c r) "false" then Some (Json.JBool false, JSString.drop 5 (String c r))
          else if JSString.startsWith (String c r) "null" then Some (Json.JNull, JSString.drop 4 (String c r))
          else match Json.parseNumber (String c r) with
               | Some (lexeme, rest) => Some (Json.JNum lexeme, rest)
               | None => None
               end
      end.
Proof. reflexivity. Qed.

Lemma parseElements_S (f : nat) (s : string) :
  Json.parseElements (S f) s =
      match Json.parseValue f s with
      | None => None
      | Some (v, r) =>
          match Json.skipWs r with
          | String c r' =>
              if Ascii.eqb c "," then
                match Json.parseElements f r' with
                | Some (items, rest) => Some (v :: items, rest)
                | None => None
                end
              else if Ascii.eqb c "]" then Some ([v], r')
              else None
          | EmptyString => None
          end
      end.
Proof. reflexivity. Qed.

Lemma parseMembers_S (f : nat) (s : string) :
  Json.parseMembers (S f) s =
      match Json.skipWs s with
      | String q r0 =>
          if Ascii.eqb q Json.dquote then
            match Json.parseStringBody r0 with
            | None => None
            | Some (k, r1) =>
                match Json.skipWs r1 with
                | String colon r2 =>
                    if Ascii.eqb colon ":" then
                      match Json.parseValue f r2 with
                      | None => None
                      | Some (v, r3) =>
                          match Json.skipWs r3 with
                          | String c r4 =>
                              if Ascii.eqb c "," then
                                match Json.parseMembers f r4 with
                                | Some (fields, rest) => Some ((k, v) :: fields, rest)
                                | None => None
                                end
                              else if Ascii.eqb c "}" then Some ([(k, v)], r4)
                              else None
                          | EmptyString => None
                          end
                      end
                    else None
                | EmptyString => None
                end
            end
          else None
      | EmptyString => None
      end.
Proof. reflexivity. Qed.

Lemma parse_fuel (f : nat) :
  stable Json.parseValue f /\ stable Json.parseElements f /\ stable Json.parseMembers f.
Proof.
  unfold stable. induction f as [|f (IHV & IHE & IHM)].
  { split; [|split]; intros s v r H; discriminate H. }
  split; [|split]; intros s v r H.
  - (* parseValue *)
    rewrite parseValue_S in H.
    destruct (Json.skipWs s) as [|c r0] eqn:Es; [discriminate |].
    pose proof (skipWs_cons_length _ _ _ Es) as Ls.
    destruct (Ascii.eqb c Json.dquote) eqn:E1.
    { destruct (Json.parseStringBody r0) as [[x rest]|] eqn:Eb; [|discriminate].
      injection H as <- <-. pose proof (parseStringBody_length _ _ _ Eb) as Lb.
      split; [lia |]. intros g Hgle. destruct g as [|g']; [lia |].
      rewrite parseValue_S. now rewrite Es, E1, Eb. }
    destruct (Ascii.eqb c "[") eqn:E2.
    { destruct (Json.skipWs r0) as [|d r'] eqn:Er; [discriminate |].
      pose proof (skipWs_cons_length _ _ _ Er) as Lr.
      destruct (Ascii.eqb d "]") eqn:E3.
      - injection H as <- <-. split; [lia |]. intros g Hgle. destruct g as [|g']; [lia |].
        rewrite parseValue_S. now rewrite Es, E1, E2, Er, E3.
      - destruct (Json.parseElements f r0) as [[items rest]|] eqn:Ee; [|discriminate].
        injection H as <- <-. destruct (IHE _ _ _ Ee) as [Le He].
        split; [lia |]. intros g Hgle. destruct g as [|g']; [lia |].
        rewrite parseValue_S. rewrite Es, E1, E2, Er, E3, He; [reflexivity | lia]. }
    destruct (Ascii.eqb c "{") eqn:E4.
    { destruct (Json.skipWs r0) as [|d r'] eqn:Er; [discriminate |].
      pose proof (skipWs_cons_length _ _ _ Er) as Lr.
      destruct (Ascii.eqb d "}") eqn:E3.
      - injection H as <- <-. split; [lia |]. intros g Hgle. destruct g as [|g']; [lia |].
        rewrite parseValue_S. now rewrite Es, E1, E2, E4, Er, E3.
      - destruct (Json.parseMembers f r0) as [[fields rest]|] eqn:Ee; [|discriminate].
        injection H as <- <-. destruct (IHM _ _ _ Ee) as [Le He].
        split; [lia |]. intros g Hgle. destruct g as [|g']; [lia |].
        rewrite parseValue_S. rewrite Es, E1, E2, E4, Er, E3, He; [reflexivity | lia]. }
    destruct (JSString.startsWith (String c r0) "true") eqn:E5.
    { injection H as <- <-.
      pose proof (literal_length c r0 3) as Ll. simpl in Ll.
      split; [lia |]. intros g Hgle. destruct g as [|g']; [lia |].
      rewrite parseValue_S. now rewrite Es, E1, E2, E4, E5. }
    destruct (JSString.startsWith (String c r0) "false") eqn:E6.
    { injection H as <- <-.
      pose proof (literal_length c r0 4) as Ll. simpl in Ll.
      split; [lia |]. intros g Hgle. destruct g as [|g']; [lia |].
      rewrite parseValue_S. now rewrite Es, E1, E2, E4, E5, E6. }
    destruct (JSString.startsWith (String c r0) "null") eqn:E7.
    { injection H as <- <-.
      pose proof (literal_length c r0 3) as Ll. simpl in Ll.
      split; [lia |]. intros g Hgle. destruct g as [|g']; [lia |].
      rewrite parseValue_S. now rewrite Es, E1, E2, E4, E5, E6, E7. }
    destruct (Json.parseNumber (String c r0)) as [[lexeme rest]|] eqn:En; [|discriminate].
    injection H as <- <-. pose proof (parseNumber_length _ _ _ En) as Ln. simpl in Ln.
    split; [lia |]. intros g Hgle. destruct g as [|g']; [lia |].
    rewrite parseValue_S. now rewrite Es, E1, E2, E4, E5, E6, E7, En.
  - (* parseElements *)
    rewrite parseElements_S in H.
    destruct (Json.parseValue f s) as [[x r1]|] eqn:Ev; [|discriminate].
    destruct (IHV _ _ _ Ev) as [Lv Hv].
    destruct (Json.skipWs r1) as [|c r2] eqn:Es; [discriminate |].
    pose proof (skipWs_cons_length _ _ _ Es) as Ls.
    destruct (Ascii.eqb c ",") eqn:E1.
    + destruct (Json.parseElements f r2) as [[items rest]|] eqn:Ee; [|discriminate].
      injection H as <- <-. destruct (IHE _ _ _ Ee) as [Le He].
      split; [lia |]. intros g Hgle. destruct g as [|g']; [lia |].
      rewrite parseElements_S. rewrite Hv by lia. rewrite Es, E1, He; [reflexivity | lia].
    + destruct (Ascii.eqb c "]") eqn:E2; [|discriminate].
      injection H as <- <-.
      split; [lia |]. intros g Hgle. destruct g as [|g']; [lia |].
      rewrite parseElements_S. rewrite Hv by lia. now rewrite Es, E1, E2.
  - (* parseMembers *)
    rewrite parseMembers_S in H.
    destruct (Json.skipWs s) as [|q r0] eqn:Es; [discriminate |].
    pose proof (skipWs_cons_length _ _ _ Es) as Ls.
    destruct (Ascii.eqb q Json.dquote) eqn:E1; [|discriminate].
    destruct (Json.parseStringBody r0) as [[k r1]|] eqn:Eb; [|discriminate].
    pose proof (parseStringBody_length _ _ _ Eb) as Lb.
    destruct (Json.skipWs r1) as [|colon r2] eqn:Es1; [discriminate |].
    pose proof (skipWs_cons_length _ _ _ Es1) as Ls1.
    destruct (Ascii.eqb colon ":") eqn:E2; [|discriminate].
    destruct (Json.parseValue f r2) as [[x r3]|] eqn:Ev; [|discriminate].
    destruct (IHV _ _ _ Ev) as [Lv Hv].
    destruct (Json.skipWs r3) as [|c r4] eqn:Es3; [discriminate |].
    pose proof (skipWs_cons_length _ _ _ Es3) as Ls3.
    destruct (Ascii.eqb c ",") eqn:E3.
    + destruct (Json.parseMembers f r4) as [[fields rest]|] eqn:Em; [|discriminate].
      injection H as <- <-. destruct (IHM _ _ _ Em) as [Lm Hm].
      split; [lia |]. intros g Hgle. destruct g as [|g']; [lia |].
      rewrite parseMembers_S. rewrite Es, E1, Eb, Es1, E2. rewrite Hv by lia.
      rewrite Es3, E3, Hm; [reflexivity | lia].
    + destruct (Ascii.eqb c "}") eqn:E4; [|discriminate].
      injection H as <- <-.
      split; [lia |]. intros g Hgle. destruct g as [|g']; [lia |].
      rewrite parseMembers_S. rewrite Es, E1, Eb, Es1, E2. rewrite Hv by lia.
      now rewrite Es3, E3, E4.
Qed.

(** [Json.parse] succeeds exactly when some fuel parses a value followed
    by white space only. *)
Lemma parse_adequate (text : string) (v : Json.value) :
  Json.parse text = Some v
  <-> exists f r, Json.parseValue f text = Some (v, r) /\ Json.skipWs r = EmptyString.
Proof.
  unfold Json.parse. split.
  - destruct (Json.parseValue (2 * String.length text + 2) text) as [[v' r]|] eqn:E;
      [|discriminate].
    destruct (Json.skipWs r) eqn:Er; [|discriminate].
    intros [= <-]. now exists (2 * String.length text + 2), r.
  - intros (f & r & Hp & Hr).
    destruct (parse_fuel f) as [HV _]. destruct (HV _ _ _ Hp) as [_ Hg].
    rewrite Hg by lia. now rewrite Hr.
Qed.

(** *** Round trip of the payload objects *)

Lemma parseStringBody_cons (c : ascii) (s : string) :
  Json.parseStringBody (String c s) =
  if Ascii.eqb c Json.dquote then Some (EmptyString, s)
  else if Ascii.eqb c "\" then
    match s with
    | EmptyString => None
    | String e r' =>
        if Ascii.eqb e "u" then
          match r' with
          | String h1 (String h2 (String h3 (String h4 r''))) =>
              match Json.unicodeEscape h1 h2 h3 h4 with
              | Some ch => Json.consResult ch (Json.parseStringBody r'')
              | None => None
              end
          | _ => None
          end
        else
          match Json.unescape e with
          | Some ch => Json.consResult ch (Json.parseStringBody r')
          | None => None
          end
    end
  else if (nat_of_ascii c <? 32)%nat then None
  else Json.consResult c (Json.parseStringBody s).
Proof. reflexivity. Qed.

Lemma parse_escapeChar (c : ascii) (s : string) :
  Json.parseStringBody (Json.escapeChar c +:+ s) = Json.consResult c (Json.parseStringBody s).
Proof.
  destruct c as [[] [] [] [] [] [] [] []];
    match goal with
    | |- Json.parseStringBody (?e +:+ _) = _ =>
        let e' := eval vm_compute in e in change e with e'
    end;
    rewrite ?append_cons, ?append_nil_l; rewrite parseStringBody_cons; reflexivity.
Qed.

Lemma parse_escapeBody (s rest : string) :
  Json.parseStringBody (Json.escapeBody s +:+ String Json.dquote rest) = Some (s, rest).
Proof.
  induction s as [|c s IH].
  - reflexivity.
  - cbn [Json.escapeBody]. rewrite append_assoc, parse_escapeChar, IH. reflexivity.
Qed.

Lemma quote_append (s rest : string) :
  Json.quote s +:+ rest = String Json.dquote (Json.escapeBody s +:+ String Json.dquote rest).
Proof. unfold Json.quote. rewrite append_cons, append_assoc. reflexivity. Qed.

(** The values of the payload objects: strings and booleans. *)
Definition flat (v : Json.value) : Prop :=
  match v with
  | Json.JStr _ | Json.JBool _ => True
  | _ => False
  end.

Lemma parseValue_flat (f : nat) (v : Json.value) (rest : string) :
  flat v ->
  Json.parseValue (S f) (Json.stringify v +:+ rest) = Some (v, rest).
Proof.
  intros Hv. destruct v as [|[]| |s| |]; simpl in Hv; try contradiction; clear Hv.
  - reflexivity.
  - reflexivity.
  - change (Json.stringify (Json.JStr s)) with (Json.quote s).
    rewrite quote_append. rewrite parseValue_S.
    change (Json.skipWs (String Json.dquote ?x)) with (String Json.dquote x).
    cbv beta iota. rewrite Ascii.eqb_refl, parse_escapeBody. reflexivity.
Qed.

Definition memberText (kv : string * Json.value) : string :=
  Json.quote (fst kv) +:+ ":" +:+ Json.stringify (snd kv).

Lemma stringify_obj (fields : list (string * Json.value)) :
  Json.stringify (Json.JObj fields)
  = "{" +:+ JSString.joinWith "," (List.map memberText fields) +:+ "}".
Proof. reflexivity. Qed.

Lemma parseMember_flat (f : nat) (k : string) (v : Json.value) (rest : string) :
  flat v ->
  Json.parseMembers (S (S f)) (memberText (k, v) +:+ rest)
  = match Json.skipWs rest with
    | String c r4 =>
        if Ascii.eqb c "," then
          match Json.parseMembers (S f) r4 with
          | Some (fields, rest') => Some ((k, v) :: fields, rest')
          | None => None
          end
        else if Ascii.eqb c "}" then Some ([(k, v)], r4)
        else None
    | EmptyString => None
    end.
Proof.
  intros Hv. unfold memberText. simpl fst. simpl snd.
  rewrite !append_assoc, quote_append. rewrite parseMembers_S.
  change (Json.skipWs (String Json.dquote ?x)) with (String Json.dquote x).
  cbv beta iota. rewrite Ascii.eqb_refl, parse_escapeBody.
  change (Json.skipWs (":" +:+ ?x)) with (String ":" x).
  cbv beta iota. rewrite Ascii.eqb_refl. rewrite (parseValue_flat f v rest Hv). reflexivity.
Qed.

Lemma parseMembers_flat (fields : list (string * Json.value)) :
  fields <> [] ->
  List.Forall (fun kv => flat (snd kv)) fields ->
  forall (f : nat) (rest : string),
    List.length fields < f ->
    Json.parseMembers f (JSString.joinWith "," (List.map memberText fields) +:+ "}" +:+ rest)
    = Some (fields, rest).
Proof.
  induction fields as [|[k v] fields IH]; [contradiction |].
  intros _ Hall f rest Hf.
  inversion Hall as [|? ? Hv Hall']; subst. simpl in Hv.
  destruct f as [|[|f]]; simpl in Hf; try lia.
  destruct fields as [|kv fields].
  - cbn [List.map JSString.joinWith]. rewrite (parseMember_flat f k v _ Hv). reflexivity.
  - change (JSString.joinWith "," (List.map memberText ((k, v) :: kv :: fields)))
      with (memberText (k, v) +:+ "," +:+ JSString.joinWith "," (List.map memberText (kv :: fields))).
    rewrite !append_assoc. rewrite (parseMember_flat f k v _ Hv).
    change (Json.skipWs ("," +:+ ?x)) with (String "," x).
    cbv beta iota. rewrite Ascii.eqb_refl.
    rewrite (IH ltac:(discriminate) Hall' (S f) rest ltac:(simpl in *; lia)).
    reflexivity.
Qed.

Lemma parse_flat_object (fields : list (string * Json.value)) :
  List.Forall (fun kv => flat (snd kv)) fields ->
  Json.parse (Json.stringify (Json.JObj fields)) = Some (Json.JObj fields).
Proof.
  intros Hall. apply parse_adequate.
  exists (S (S (List.length fields))), EmptyString. split; [|reflexivity].
  rewrite stringify_obj, parseValue_S.
  change (Json.skipWs ("{" +:+ ?x)) with (String "{" x). cbv beta iota.
  change (Ascii.eqb "{" Json.dquote) with false.
  change (Ascii.eqb "{" "[") with false.
  change (Ascii.eqb "{" "{") with true. cbv beta iota.
  destruct fields as [|[k v] fields]; [reflexivity |].
  assert (Hq : exists x, JSString.joinWith "," (List.map memberText ((k, v) :: fields)) +:+ "}"
                         = String Json.dquote x).
  { destruct fields; cbn [List.map JSString.joinWith]; unfold memberText at 1; simpl fst;
      rewrite !append_assoc, quote_append; eauto. }
  destruct Hq as [x Hx].
  pose proof (parseMembers_flat ((k, v) :: fields) ltac:(discriminate) Hall
                (S (List.length ((k, v) :: fields))) EmptyString ltac:(lia)) as Hm.
  rewrite append_nil_r in Hm.
  rewrite Hx in *.
  change (Json.skipWs (String Json.dquote x)) with (String Json.dquote x). cbv beta iota.
  change (Ascii.eqb Json.dquote "}") with false. cbv beta iota.
  now rewrite Hm.
Qed.

(** Encoding then parsing gives back the proposal and the status. *)
Lemma decodeEdit_stringify (e : ProposedEdit) :
  MessageList.decodeEdit (Json.stringify (proposedEditJson e)) = Some e.
Proof.
  unfold MessageList.decodeEdit, proposedEditJson.
  rewrite parse_flat_object by (repeat constructor).
  destruct e as [flag id k path rel original new].
  destruct k, flag; reflexivity.
Qed.

Lemma decodeStatus_stringify (t : ToolStatus) :
  MessageList.decodeStatus (Json.stringify (toolStatusJson t)) = Some t.
Proof.
  unfold MessageList.decodeStatus, toolStatusJson.
  rewrite parse_flat_object by (repeat constructor).
  destruct t as [id tool path st msg].
  destruct st; reflexivity.
Qed.

End JsonFacts.

(** ** Path guard *)

Section PathGuard.
Context {P : Platform}.

(** Separator normalisation, in the words of the specification: the text
    read character by character, a backslash written as a slash and every
    other character kept. *)
Inductive separatorNormalised : string -> string -> Prop :=
| sn_end : separatorNormalised EmptyString EmptyString
| sn_backslash (s t : string) :
    separatorNormalised s t -> separatorNormalised (String "\" s) (String "/" t)
| sn_other (c : ascii) (s t : string) :
    c <> "\"%char -> separatorNormalised s t -> separatorNormalised (String c s) (String c t).

(** [n] is the normalised form of the path [p]: its absolute form (what
    [path.resolve] makes of it), case-folded by the engine, then
    separator-normalised. *)
Definition normalisedForm (p n : string) : Prop :=
  separatorNormalised (toLowerCase (resolve p)) n.

(** [prefix] is a string prefix of [s]. *)
Definition isPrefixOf (prefix s : string) : Prop := exists rest, s = prefix +:+ rest.

Lemma slashes_normalised (s : string) : separatorNormalised s (JSString.slashes s).
Proof.
  induction s as [|c s IH]; [constructor |].
  change (JSString.slashes (String c s))
    with (String (if Ascii.eqb c "\" then "/"%char else c) (JSString.slashes s)).
  destruct (Ascii.eqb_spec c "\") as [->|Hc]; now constructor.
Qed.

Lemma separatorNormalised_fun (s t u : string) :
  separatorNormalised s t -> separatorNormalised s u -> t = u.
Proof.
  intros Ht; revert u; induction Ht as [|s t Ht IH|c s t Hc Ht IH]; intros u Hu;
    inversion Hu; subst; try congruence; f_equal; now apply IH.
Qed.

Lemma separatorNormalised_no_backslash (s t : string) :
  separatorNormalised s t -> forall i, String.get i t <> Some "\"%char.
Proof.
  induction 1 as [|s t Ht IH|c s t Hc Ht IH]; intros [|i]; simpl;
    try discriminate; try apply IH.
  intros [= ->]. now apply Hc.
Qed.

Lemma separatorNormalised_length (s t : string) :
  separatorNormalised s t -> String.length t = String.length s.
Proof. induction 1; simpl; congruence. Qed.

(** C2. With no root set the guard answers [false] (also for the empty
    string, which the test [!workspacePath] treats like [null]).  With a
    root set it answers [true] exactly when the normalised form of the
    target has the normalised form of the root as a string prefix, the
    normalised form of a path being its absolute, case-folded,
    separator-normalised form: every path has exactly one, and no
    backslash is left in it. *)
Theorem isWithinWorkspace_spec :
  (forall p, Main.isWithinWorkspace None p = false)
  /\ (forall p, Main.isWithinWorkspace (Some EmptyString) p = false)
  /\ (forall c root p,
        Main.isWithinWorkspace (Some (String c root)) p = true
        <-> exists nroot np,
              normalisedForm (String c root) nroot
              /\ normalisedForm p np
              /\ isPrefixOf nroot np)
  /\ (forall p, exists n,
        normalisedForm p n
        /\ (forall n', normalisedForm p n' -> n' = n)
        /\ String.length n = String.length (toLowerCase (resolve p))
        /\ (forall i, String.get i n <> Some "\"%char)).
Proof.
  assert (Hcode : forall p, normalisedForm p (Main.normalizePath p)).
  { intros p. unfold normalisedForm, Main.normalizePath. apply slashes_normalised. }
  split; [reflexivity |]. split; [reflexivity |]. split.
  - intros c root p. unfold Main.isWithinWorkspace.
    change (negb (JSString.truthy (String c root))) with false. cbv iota.
    rewrite startsWith_spec. split.
    + intros Hpre. exists (Main.normalizePath (String c root)), (Main.normalizePath p).
      split; [apply Hcode |]. split; [apply Hcode | exact Hpre].
    + intros (nroot & np & Hr & Hp & Hpre).
      rewrite (separatorNormalised_fun _ _ _ (Hcode (String c root)) Hr).
      rewrite (separatorNormalised_fun _ _ _ (Hcode p) Hp).
      exact Hpre.
  - intros p. exists (Main.normalizePath p).
    split; [apply Hcode |]. split; [|split].
    + intros n' Hn'. exact (separatorNormalised_fun _ _ _ Hn' (Hcode p)).
    + exact (separatorNormalised_length _ _ (Hcode p)).
    + exact (separatorNormalised_no_backslash _ _ (Hcode p)).
Qed.

(** Two paths whose absolute forms differ in letter case only, whatever
    the letters, are the same to the guard: a root is within itself under
    any spelling that the engine folds to the same text. *)
Lemma isWithinWorkspace_folds_case (c : ascii) (root p : string) :
  toLowerCase (resolve p) = toLowerCase (resolve (String c root)) ->
  Main.isWithinWorkspace (Some (String c root)) p = true.
Proof.
  intros H. unfold Main.isWithinWorkspace, Main.normalizePath.
  change (negb (JSString.truthy (String c root))) with false. cbv iota.
  rewrite H. apply startsWith_spec. exists EmptyString. symmetry. apply append_nil_r.
Qed.

End PathGuard.

(** The guard on POSIX paths with working directory [/home/u]: relative
    and dotted targets are resolved first, letter case is folded, and the
    test is a prefix test on the text, so a sibling directory whose name
    extends the root's passes too. *)
Example isWithinWorkspace_posix :
  let guard := Main.isWithinWorkspace
                 (P := Posix.platform "/home/u" (fun _ => None) (fun _ => false))
                 (Some "/home/u/proj") in
  guard "/home/u/proj/src/app.js" = true
  /\ guard "proj/src/../app.js" = true
  /\ guard "/HOME/U/Proj/app.js" = true
  /\ guard "/home/u/proj/../secret.txt" = false
  /\ guard "/etc/passwd" = false
  /\ guard "/home/u/proj-old/app.js" = true.
Proof. repeat split; reflexivity. Qed.

(** ** Edit ledger *)

(** A concrete platform for runs: POSIX paths, working directory
    [/home/u], a project under [/home/u/proj], and [/ro/] unwritable. *)
Definition demoDirs (dir : string) : option (list Dirent) :=
  if String.eqb dir "/home/u/proj"
  then Some [mkDirent ".git" true; mkDirent "b.txt" false; mkDirent "src" true;
             mkDirent ".env" false; mkDirent "a.txt" false]
  else if String.eqb dir "/home/u/proj/src" then Some [mkDirent "components" true]
  else if String.eqb dir "/home/u/proj/src/components" then Some [mkDirent "Button.tsx" false]
  else None.

Definition demo : Platform :=
  Posix.platform "/home/u" demoDirs (fun p => JSString.startsWith p "/ro/").

Section Ledger.
Context {P : Platform}.

Import ChatStore MessageList.

(** A handler called directly, without the button gate of [DiffBlock]. *)
Definition invoke (w : World) (e : ProposedEdit) (a : Action) : World :=
  match a with
  | Accept => handleAcceptEdit w (pe_id e) (pe_path e) (pe_newContent e)
  | Reject => handleRejectEdit w (pe_id e)
  end.

Definition terminal (s : EditStatus) : bool :=
  match s with Pending => false | Applied | Rejected => true end.

Lemma updateEditStatus_idem (id : string) (s : EditStatus) (l : list PendingEdit) :
  updateEditStatus id s (updateEditStatus id s l) = updateEditStatus id s l.
Proof.
  unfold updateEditStatus. rewrite List.map_map. apply List.map_ext.
  intros e. destruct (String.eqb (edit_id e) id) eqn:E; simpl; now rewrite E.
Qed.

Lemma updateEditStatus_ids (id : string) (s : EditStatus) (l : list PendingEdit) :
  List.map edit_id (updateEditStatus id s l) = List.map edit_id l.
Proof.
  unfold updateEditStatus. rewrite List.map_map. apply List.map_ext.
  intros e. now destruct (String.eqb (edit_id e) id).
Qed.

Lemma applyEdit_failure (d : Disk) (path content : string) :
  fst (Main.applyEdit d path content) = false ->
  Main.applyEdit d path content = (false, d).
Proof.
  unfold Main.applyEdit, Main.writeFile.
  destruct (writeFails (resolve path)); [reflexivity | discriminate].
Qed.

Lemma offered_pending (w : World) (e : ProposedEdit) (pe : PendingEdit) :
  getPendingEdit (pe_id e) (pendingEdits w) = Some pe ->
  edit_status pe = Pending ->
  offered w e = [Accept; Reject].
Proof.
  intros Hget Hst. unfold offered. rewrite Hget. simpl. now rewrite Hst.
Qed.

Lemma offered_terminal (w : World) (e : ProposedEdit) (pe : PendingEdit) :
  getPendingEdit (pe_id e) (pendingEdits w) = Some pe ->
  terminal (edit_status pe) = true ->
  offered w e = [].
Proof.
  intros Hget Hst. unfold offered. rewrite Hget. simpl.
  destruct (edit_status pe); [discriminate | reflexivity | reflexivity].
Qed.

Lemma handleAcceptEdit_spec (w : World) (editId path newContent : string) :
  handleAcceptEdit w editId path newContent =
  if writeFails (resolve path) then w
  else mkWorld (<[resolve path := fileOf newContent]> (disk w))
         (updateEditStatus editId Applied (pendingEdits w)).
Proof.
  unfold handleAcceptEdit, Main.applyEdit, Main.writeFile.
  destruct (writeFails (resolve path)); [now destruct w | reflexivity].
Qed.

(** Calling a handler a second time with the same action leaves the
    ledger and the disk as the first call left them (accepting writes the
    same content again). *)
Lemma invoke_idem (w : World) (e : ProposedEdit) (a : Action) :
  invoke (invoke w e a) e a = invoke w e a.
Proof.
  destruct a; unfold invoke.
  - rewrite !handleAcceptEdit_spec.
    destruct (writeFails (resolve (pe_path e))); [reflexivity |]. simpl.
    now rewrite insert_insert_eq, updateEditStatus_idem.
  - unfold handleRejectEdit. simpl. now rewrite updateEditStatus_idem.
Qed.

(** C4. When the commit fails ([ai:applyEdit] answers [false]), accepting
    leaves the ledger and the disk as they were: the entry keeps its
    status, and a pending entry still offers its buttons. *)
Theorem failed_commit_keeps_pending :
  forall (w : World) (e : ProposedEdit),
    fst (Main.applyEdit (disk w) (pe_path e) (pe_newContent e)) = false ->
    handleAcceptEdit w (pe_id e) (pe_path e) (pe_newContent e) = w
    /\ (forall pe, getPendingEdit (pe_id e) (pendingEdits w) = Some pe ->
                   edit_status pe = Pending ->
                   let w' := click w e Accept in
                   getPendingEdit (pe_id e) (pendingEdits w') = Some pe
                   /\ offered w' e = [Accept; Reject]).
Proof.
  intros w e Hfail.
  assert (Hacc : handleAcceptEdit w (pe_id e) (pe_path e) (pe_newContent e) = w).
  { unfold handleAcceptEdit. rewrite (applyEdit_failure _ _ _ Hfail).
    now destruct w. }
  split; [exact Hacc |].
  intros pe Hget Hst w'.
  assert (Hw' : w' = w).
  { subst w'. unfold click. rewrite (offered_pending w e pe Hget Hst). simpl. exact Hacc. }
  rewrite Hw'. split; [exact Hget | now apply (offered_pending w e pe)].
Qed.

End Ledger.

Definition appliedEdit : ChatStore.PendingEdit :=
  ChatStore.mkPendingEdit "edit-1" KEdit "/home/u/proj/app.js" "let x" "let y" Applied.

Definition rejectedEdit : ChatStore.PendingEdit :=
  ChatStore.mkPendingEdit "edit-1" KEdit "/home/u/proj/app.js" "let x" "let y" Rejected.

Definition pendingEdit1 : ChatStore.PendingEdit :=
  ChatStore.mkPendingEdit "edit-1" KEdit "/ro/app.js" "let x" "let y" Pending.

Definition proposal1 (path : string) : ProposedEdit :=
  mkProposedEdit true "edit-1" KEdit path "app.js" "let x" "let y".

Definition laterDisk : Disk :=
  {[ "/home/u/proj/app.js" := fileOf "let y; // changed after the commit" ]}.

(** The handlers carry no test of the status: rejecting an applied edit
    makes it rejected, accepting a rejected edit writes the file and makes
    it applied, and accepting an applied edit again overwrites what the
    file has become since. *)
Lemma terminal_handlers_not_noop :
  MessageList.pendingEdits
    (invoke (P := demo) (MessageList.mkWorld ∅ [appliedEdit])
       (proposal1 "/home/u/proj/app.js") MessageList.Reject)
  = [rejectedEdit]
  /\ (let w := invoke (P := demo) (MessageList.mkWorld ∅ [rejectedEdit])
                 (proposal1 "/home/u/proj/app.js") MessageList.Accept in
      MessageList.pendingEdits w = [appliedEdit]
      /\ MessageList.disk w !! "/home/u/proj/app.js" = Some (fileOf "let y"))
  /\ MessageList.disk
       (invoke (P := demo) (MessageList.mkWorld laterDisk [appliedEdit])
          (proposal1 "/home/u/proj/app.js") MessageList.Accept)
       !! "/home/u/proj/app.js" = Some (fileOf "let y")
  /\ ~ (forall (w : MessageList.World) (e : ProposedEdit) (pe : ChatStore.PendingEdit)
               (a : MessageList.Action),
          ChatStore.getPendingEdit (pe_id e) (MessageList.pendingEdits w) = Some pe ->
          terminal (ChatStore.edit_status pe) = true ->
          invoke (P := demo) w e a = w).
Proof.
  split; [reflexivity |]. split; [|split].
  - split; [reflexivity |]. vm_compute. reflexivity.
  - vm_compute. reflexivity.
  - intros H.
    specialize (H (MessageList.mkWorld ∅ [appliedEdit]) (proposal1 "/home/u/proj/app.js")
                  appliedEdit MessageList.Reject eq_refl eq_refl).
    discriminate H.
Qed.

Lemma failed_commit_keeps_pending_witness :
  MessageList.handleAcceptEdit (P := demo) (MessageList.mkWorld ∅ [pendingEdit1])
    "edit-1" "/ro/app.js" "let y"
  = MessageList.mkWorld ∅ [pendingEdit1].
Proof.
  exact (proj1 (failed_commit_keeps_pending (P := demo)
                  (MessageList.mkWorld ∅ [pendingEdit1]) (proposal1 "/ro/app.js") eq_refl)).
Defined.

(** ** Reading files and listing directories *)

Section Sorting.
Context {A : Type} (cmp : A -> A -> Z).

Definition cmpLe (a b : A) : Prop := (cmp a b <= 0)%Z.

Hypothesis cmp_total : forall a b, cmpLe a b \/ cmpLe b a.
Hypothesis cmp_trans : forall a b c, cmpLe a b -> cmpLe b c -> cmpLe a c.

Lemma insertBy_perm (x : A) (l : list A) : Permutation (Main.insertBy cmp x l) (x :: l).
Proof using Type.
  induction l as [|y l IH]; simpl; [reflexivity |].
  destruct (cmp x y <=? 0)%Z; [reflexivity |].
  rewrite IH. apply perm_swap.
Qed.

Lemma sortBy_perm (l : list A) : Permutation (Main.sortBy cmp l) l.
Proof using Type.
  induction l as [|x l IH]; simpl; [reflexivity |].
  rewrite insertBy_perm. now constructor.
Qed.

Lemma insertBy_sorted (x : A) (l : list A) :
  StronglySorted cmpLe l -> StronglySorted cmpLe (Main.insertBy cmp x l).
Proof using cmp_total cmp_trans.
  induction 1 as [|y l Hs IH Hall]; simpl.
  - constructor; constructor.
  - destruct (Z.leb_spec (cmp x y) 0) as [Hle|Hgt].
    + constructor; [now constructor |].
      constructor; [exact Hle |].
      eapply List.Forall_impl; [|exact Hall]. intros z Hz. now apply (cmp_trans x y z).
    + constructor; [exact IH |].
      apply List.Forall_forall. intros z Hz.
      apply (Permutation_in _ (insertBy_perm x l)) in Hz. destruct Hz as [<-|Hz].
      * destruct (cmp_total x y) as [H|H]; [unfold cmpLe in H; lia | exact H].
      * rewrite List.Forall_forall in Hall. now apply Hall.
Qed.

Lemma sortBy_sorted (l : list A) : StronglySorted cmpLe (Main.sortBy cmp l).
Proof using cmp_total cmp_trans.
  induction l as [|x l IH]; simpl; [constructor | now apply insertBy_sorted].
Qed.

End Sorting.

Section Listings.
Context {P : Platform}.

Definition nameLe (a b : string) : Prop := (localeCompare a b <= 0)%Z.

(** The order of a listing: folders before files, names ascending within
    each group. *)
Definition nodeLe (a b : FileNode) : Prop := (Main.compareNodes a b <= 0)%Z.

Definition hidden (name : string) : bool := JSString.startsWith name ".".

Lemma compareNodes_total :
  (forall a b, nameLe a b \/ nameLe b a) ->
  forall a b, nodeLe a b \/ nodeLe b a.
Proof.
  intros Htot a b. unfold nodeLe, Main.compareNodes.
  destruct (node_isFolder a), (node_isFolder b); simpl.
  - apply Htot.
  - left; lia.
  - right; lia.
  - apply Htot.
Qed.

Lemma compareNodes_trans :
  (forall a b c, nameLe a b -> nameLe b c -> nameLe a c) ->
  forall a b c, nodeLe a b -> nodeLe b c -> nodeLe a c.
Proof.
  intros Htr a b c. unfold nodeLe, Main.compareNodes.
  destruct (node_isFolder a), (node_isFolder b), (node_isFolder c); simpl;
    try lia; apply Htr.
Qed.

Lemma nodeLe_folders_first (a b : FileNode) :
  nodeLe a b -> node_isFolder b = true -> node_isFolder a = true.
Proof.
  unfold nodeLe, Main.compareNodes.
  destruct (node_isFolder a), (node_isFolder b); simpl; intros;
    try reflexivity; try lia; try discriminate.
Qed.


(** The listing behind [fs:readDir]: refused outside the workspace,
    otherwise that of [readDirSafe]. *)
Lemma fs_readDir_listing (ws : option string) (dirPath : string) :
  Main.fs_readDir ws dirPath =
  if Main.isWithinWorkspace ws dirPath then Ok (Main.readDirSafe dirPath)
  else Throw Main.ACCESS_DENIED.
Proof. unfold Main.fs_readDir. now destruct (Main.isWithinWorkspace ws dirPath). Qed.

Definition SIZE_LIMIT : Z := (10 * 1024 * 1024)%Z.

(** C9, as the code has it.  For a file inside the workspace, a size above
    10 MB throws the "too large" error and a size up to the limit returns
    the whole content; a file outside the workspace is refused with the
    "access denied" error whatever its size. *)
Theorem fs_readFile_size_limit :
  forall (ws : option string) (d : Disk) (filePath : string) (f : File),
    d !! resolve filePath = Some f ->
    (Main.isWithinWorkspace ws filePath = true -> (f_size f > SIZE_LIMIT)%Z ->
       Main.fs_readFile ws d filePath = Throw Main.FILE_TOO_LARGE)
    /\ (Main.isWithinWorkspace ws filePath = true -> (f_size f <= SIZE_LIMIT)%Z ->
          Main.fs_readFile ws d filePath = Ok (f_content f))
    /\ (Main.isWithinWorkspace ws filePath = false ->
          Main.fs_readFile ws d filePath = Throw Main.ACCESS_DENIED).
Proof.
  intros ws d filePath f Hf. unfold Main.fs_readFile, Main.statSize, Main.readFile, SIZE_LIMIT.
  rewrite Hf. repeat split; intros Hin; rewrite Hin; simpl; [| |reflexivity]; intros Hsz.
  - destruct (Z.gtb_spec (f_size f) (10 * 1024 * 1024)); [reflexivity | lia].
  - destruct (Z.gtb_spec (f_size f) (10 * 1024 * 1024)); [lia | reflexivity].
Qed.

End Listings.

Lemma demo_nameLe_leb (a b : string) : nameLe (P := demo) a b <-> String.leb a b = true.
Proof.
  unfold nameLe, String.leb. simpl.
  destruct (String.compare a b); split; intros H; try reflexivity; try lia; discriminate.
Qed.

Lemma demo_total (a b : string) : nameLe (P := demo) a b \/ nameLe (P := demo) b a.
Proof. rewrite !demo_nameLe_leb. apply String.leb_total. Qed.

Lemma demo_trans (a b c : string) :
  nameLe (P := demo) a b -> nameLe (P := demo) b c -> nameLe (P := demo) a c.
Proof.
  rewrite !demo_nameLe_leb. intros H1 H2.
  apply Is_true_true. apply Is_true_true in H1, H2.
  exact (transitivity (R := String.le) H1 H2).
Qed.


Definition bigFile : File := mkFile 10485761 "(more than ten megabytes)".

Lemma fs_readFile_size_limit_witness :
  Main.fs_readFile (P := demo) (Some "/home/u/proj") {["/home/u/proj/big.bin" := bigFile]}
    "/home/u/proj/big.bin" = Throw Main.FILE_TOO_LARGE.
Proof.
  apply (fs_readFile_size_limit (P := demo) (Some "/home/u/proj")
           {["/home/u/proj/big.bin" := bigFile]} "/home/u/proj/big.bin" bigFile).
  - vm_compute. reflexivity.
  - vm_compute. reflexivity.
  - vm_compute. reflexivity.
Defined.

(** C9, as stated, fails for a file outside the workspace: whatever its
    size, the error is the "access denied" one. *)
Lemma large_file_outside_workspace :
  Main.fs_readFile (P := demo) (Some "/home/u/proj") {["/var/big.bin" := bigFile]}
    "/var/big.bin" = Throw Main.ACCESS_DENIED
  /\ ~ (forall (ws : option string) (d : Disk) (filePath : string) (f : File),
          d !! resolve (Platform := demo) filePath = Some f ->
          (f_size f > SIZE_LIMIT)%Z ->
          Main.fs_readFile (P := demo) ws d filePath = Throw Main.FILE_TOO_LARGE).
Proof.
  split; [reflexivity |].
  intros H.
  specialize (H (Some "/home/u/proj") {["/var/big.bin" := bigFile]} "/var/big.bin" bigFile).
  assert (Hd : Main.fs_readFile (P := demo) (Some "/home/u/proj")
                 {["/var/big.bin" := bigFile]} "/var/big.bin" = Throw Main.ACCESS_DENIED)
    by reflexivity.
  rewrite Hd in H.
  assert (Hne : Throw (A := string) Main.ACCESS_DENIED <> Throw Main.FILE_TOO_LARGE)
    by (vm_compute; discriminate).
  apply Hne, H; vm_compute; reflexivity.
Qed.

(** ** Path guard coverage *)

Definition demoDisk : Disk :=
  {[ "/home/u/proj/app.js" := fileOf "let x = 1;";
     "/home/u/secret.txt" := fileOf "top secret" ]}.

Definition demoRoot : option string := Some "/home/u/proj".

(** The guarded sibling of [ai:applyEdit]: outside the workspace
    [fs:writeFile] throws and leaves the disk alone. *)
Lemma fs_writeFile_guarded {P : Platform} (ws : option string) (d : Disk)
    (filePath content : string) :
  Main.isWithinWorkspace ws filePath = false ->
  Main.fs_writeFile ws d filePath content = (Throw Main.ACCESS_DENIED, d).
Proof. intros H. unfold Main.fs_writeFile. now rewrite H. Qed.

(** [ai:applyEdit] succeeds wherever the write does; the workspace root
    plays no part in it. *)
Lemma applyEdit_unguarded {P : Platform} (d : Disk) (path content : string) :
  writeFails (resolve path) = false ->
  Main.applyEdit d path content = (true, <[resolve path := fileOf content]> d).
Proof. intros H. unfold Main.applyEdit, Main.writeFile. now rewrite H. Qed.

(** The reply text after the agent asks to write [../secret.txt]. *)
Definition escapingWrite : Main.LoopState :=
  Main.processBlock (P := demo) demoRoot demoDisk 1700000000000
    (Main.mkLoopState EmptyString [] [] [])
    (Main.BToolUse (Main.mkToolUse "toolu_1" "write_file"
                      (Main.mkToolInput "../secret.txt" "overwritten" []))).

(** C1 at a failing input.  With the workspace [/home/u/proj] open, the
    path [/home/u/secret.txt] fails the guard and [fs:writeFile] refuses
    it; yet [ai:applyEdit] writes it and answers [true], and the agent's
    [read_file] returns its content for the relative path
    [../secret.txt].  End to end: the agent's [write_file] on that
    relative path yields a proposal for [/home/u/secret.txt], and
    accepting it overwrites the file and marks the edit applied. *)
Lemma applyEdit_ignores_path_guard :
  Main.isWithinWorkspace (P := demo) demoRoot "/home/u/secret.txt" = false
  /\ Main.fs_writeFile (P := demo) demoRoot demoDisk "/home/u/secret.txt" "overwritten"
     = (Throw Main.ACCESS_DENIED, demoDisk)
  /\ Main.applyEdit (P := demo) demoDisk "/home/u/secret.txt" "overwritten"
     = (true, <["/home/u/secret.txt" := fileOf "overwritten"]> demoDisk)
  /\ Main.isWithinWorkspace (P := demo) demoRoot
       (join (Platform := demo) "/home/u/proj" "../secret.txt") = false
  /\ Main.executeAITool (P := demo) demoRoot demoDisk 1700000000000 "read_file"
       (Main.mkToolInput "../secret.txt" EmptyString [])
     = "File: ../secret.txt" +:+ nl +:+ nl +:+ "   1 | top secret"
  /\ (let proposals :=
        MessageList.edits
          (MessageList.parseMessageContent (P := demo) (Main.fullText escapingWrite)) in
      let ledger := MessageList.registerEdits proposals [] in
      List.map pe_path proposals = ["/home/u/secret.txt"]
      /\ forall e, List.In e proposals ->
           let w := MessageList.click (P := demo) (MessageList.mkWorld demoDisk ledger) e
                      MessageList.Accept in
           MessageList.disk w !! "/home/u/secret.txt" = Some (fileOf "overwritten")
           /\ List.map ChatStore.edit_status (MessageList.pendingEdits w) = [Applied]).
Proof.
  repeat split; try reflexivity;
    match goal with
    | Hin : List.In _ _ |- _ => destruct Hin as [<-|[]]; vm_compute; reflexivity
    end.
Qed.

(** ** Provider-facing messages *)

(** A text holds a marker when a complete delimited payload of either
    kind occurs in it. *)
Definition hasMarker (s : string) : bool :=
  match MessageList.bodies STATUS_OPEN STATUS_CLOSE s,
        MessageList.bodies DIFF_OPEN DIFF_CLOSE s with
  | [], [] => false
  | _, _ => true
  end.

Definition blockTexts (b : Main.ApiBlock) : list string :=
  match b with
  | Main.BText t => [t]
  | Main.BToolResult _ c => [c]
  | Main.BImage _ _ => []
  | Main.BToolUse _ => []
  end.

Definition messageTexts (m : Main.ApiMessage) : list string :=
  match Main.am_content m with
  | Main.CString s => [s]
  | Main.CBlocks bs => List.flat_map blockTexts bs
  end.

Definition markerFree (m : Main.ApiMessage) : bool :=
  forallb (fun t => negb (hasMarker t)) (messageTexts m).

(** The tool-result turn of an edit proposal carries the acknowledgement,
    not the marker. *)
Lemma proposal_result_is_ack {P : Platform} (cwp : option string) (d : Disk) (now : N)
    (st : Main.LoopState) (t : Main.ToolUse) :
  JSString.includes (Main.executeAITool cwp d now (Main.tu_name t) (Main.tu_input t))
    DIFF_OPEN = true ->
  Main.toolResults (Main.processBlock cwp d now st (Main.BToolUse t))
  = Main.toolResults st ++ [Main.BToolResult (Main.tu_id t) Main.EDIT_PROPOSED_ACK].
Proof. intros H. unfold Main.processBlock. now rewrite H. Qed.

Lemma ack_marker_free : hasMarker Main.EDIT_PROPOSED_ACK = false.
Proof. reflexivity. Qed.

(** A first exchange: the user asks for a rename, the provider requests
    [edit_file] and then finishes. *)
Definition firstExchange : list (list Main.ApiMessage) * option string :=
  Main.toolLoop (P := demo) demoRoot demoDisk (fun _ => 1700000000000%N)
    [Main.mkResponse Main.ToolUseStop
       [Main.BText "Renaming.";
        Main.BToolUse (Main.mkToolUse "toolu_1" "edit_file"
                         (Main.mkToolInput "app.js" EmptyString [("let x", "let y")]))];
     Main.mkResponse Main.EndTurn [Main.BText "Done."]]
    (Main.initialApiMessages "rename x to y in app.js" [] []) EmptyString.

Definition firstReply : string :=
  match snd firstExchange with Some t => t | None => EmptyString end.

(** The session when the user sends a second message: the reply of the
    first exchange is stored as the text of the model turn, and the new
    user turn and the empty model turn have been added. *)
Definition secondTurnSession : ChatStore.ChatSession :=
  ChatStore.mkSession "s1"
    [ChatStore.mkMessage "welcome" ChatStore.Model
       "Hi there. I'm ready to help you with your code.";
     ChatStore.mkMessage "1" ChatStore.User "rename x to y in app.js";
     ChatStore.mkMessage "2" ChatStore.Model firstReply;
     ChatStore.mkMessage "3" ChatStore.User "now rename y to z";
     ChatStore.mkMessage "4" ChatStore.Model EmptyString].

(** C7 at a failing input.  Within the first exchange every array sent to
    the provider is free of markers; the array of the second exchange
    replays the stored model turn with its status and proposal markers. *)
Lemma history_replays_markers :
  let history := ChatStore.getConversationHistory [secondTurnSession] (Some "s1") in
  let sent := Main.initialApiMessages "now rename y to z" [] history in
  forallb (forallb markerFree) (fst firstExchange) = true
  /\ hasMarker firstReply = true
  /\ List.In (Main.mkApiMessage Main.RAssistant (Main.CString firstReply)) sent
  /\ forallb markerFree sent = false.
Proof.
  repeat split; try (vm_compute; reflexivity).
  vm_compute. right. left. reflexivity.
Qed.

(** ** Buttons that stay on screen *)

Section StaleButtons.
Context {P : Platform}.

Import ChatStore MessageList.

Lemma getPendingEdit_updateEditStatus (id : string) (s : EditStatus) (l : list PendingEdit)
    (pe : PendingEdit) :
  getPendingEdit id l = Some pe ->
  getPendingEdit id (updateEditStatus id s l) = Some (withStatus pe s).
Proof.
  unfold getPendingEdit, updateEditStatus.
  induction l as [|x l IH]; [discriminate |]. simpl.
  destruct (String.eqb (edit_id x) id) eqn:E; simpl.
  - intros [= ->]. now rewrite E.
  - rewrite E. exact IH.
Qed.

(** A click right after a render is a click on the screen of that render. *)
Lemma click_after_render (w : World) (e : ProposedEdit) (a : Action) :
  click w e a = world (press (mkScreen w (pendingEdits w)) e a).
Proof.
  unfold click, press, shown, offered. simpl.
  now destruct (existsb _ _).
Qed.

(** Accept, then Reject on the block that is still on screen: the entry
    that the first click made applied is made rejected by the second,
    while the file keeps the content that the first click wrote. *)
Lemma press_accept_then_reject (s : Screen) (e : ProposedEdit) (pe : PendingEdit) :
  getPendingEdit (pe_id e) (pendingEdits (world s)) = Some pe ->
  shown s e = [Accept; Reject] ->
  writeFails (resolve (pe_path e)) = false ->
  let s1 := press s e Accept in
  let s2 := press s1 e Reject in
  getPendingEdit (pe_id e) (pendingEdits (world s1)) = Some (withStatus pe Applied)
  /\ shown s1 e = [Accept; Reject]
  /\ getPendingEdit (pe_id e) (pendingEdits (world s2)) = Some (withStatus pe Rejected)
  /\ disk (world s2) !! resolve (pe_path e) = Some (fileOf (pe_newContent e)).
Proof.
  intros Hget Hshown Hw s1 s2.
  assert (E1 : s1 = mkScreen (mkWorld (<[resolve (pe_path e) := fileOf (pe_newContent e)]>
                                         (disk (world s)))
                                (updateEditStatus (pe_id e) Applied (pendingEdits (world s))))
                             (rendered s)).
  { subst s1. unfold press. rewrite Hshown. simpl.
    unfold handleAcceptEdit, Main.applyEdit, Main.writeFile. now rewrite Hw. }
  assert (Hs1 : shown s1 e = [Accept; Reject]) by (rewrite E1; exact Hshown).
  assert (E2 : s2 = mkScreen (handleRejectEdit (world s1) (pe_id e)) (rendered s1)).
  { subst s2. unfold press. rewrite Hs1. reflexivity. }
  split; [|split; [exact Hs1 | split]].
  - rewrite E1. simpl. now apply getPendingEdit_updateEditStatus.
  - rewrite E2, E1. simpl.
    rewrite (getPendingEdit_updateEditStatus _ Rejected _ (withStatus pe Applied)
               (getPendingEdit_updateEditStatus _ Applied _ pe Hget)).
    reflexivity.
  - rewrite E2, E1. simpl. apply lookup_insert_eq.
Qed.

End StaleButtons.

(** The proposal of the first reply. *)
Definition proposalOfFirstReply : ProposedEdit :=
  mkProposedEdit true "edit-1700000000000" KEdit "/home/u/proj/app.js" "app.js"
    "let x = 1;" "let y = 1;".

(** The screen once the first reply has been streamed: its item was
    rendered when the reply arrived and again with its last chunk, and the
    proposal is registered as pending. *)
Definition reviewScreen : MessageList.Screen :=
  MessageList.renderItem (P := demo) firstReply
    (MessageList.world
       (MessageList.renderItem (P := demo) firstReply (MessageList.mkWorld demoDisk []))).

(** C3 at a failing input.  The user accepts the proposal: the file is
    written and the entry is applied.  Only the ledger has changed, so the
    item is not rendered again and the block still shows both buttons (a
    new render would show none).  The user then clicks Reject: the applied
    entry becomes rejected, and the file keeps the accepted content. *)
Theorem stale_buttons_reject_applied_edit :
  let e := proposalOfFirstReply in
  let s1 := MessageList.press (P := demo) reviewScreen e MessageList.Accept in
  let s2 := MessageList.press (P := demo) s1 e MessageList.Reject in
  MessageList.edits (MessageList.parseMessageContent (P := demo) firstReply) = [e]
  /\ List.map ChatStore.edit_status (MessageList.pendingEdits (MessageList.world reviewScreen))
     = [Pending]
  /\ List.map ChatStore.edit_status (MessageList.pendingEdits (MessageList.world s1))
     = [Applied]
  /\ MessageList.disk (MessageList.world s1) !! "/home/u/proj/app.js"
     = Some (fileOf "let y = 1;")
  /\ MessageList.shown s1 e = [MessageList.Accept; MessageList.Reject]
  /\ MessageList.shown
       (MessageList.renderItem (P := demo) firstReply (MessageList.world s1)) e = []
  /\ List.map ChatStore.edit_status (MessageList.pendingEdits (MessageList.world s2))
     = [Rejected]
  /\ MessageList.disk (MessageList.world s2) !! "/home/u/proj/app.js"
     = Some (fileOf "let y = 1;").
Proof. cbv zeta. repeat split; vm_compute; reflexivity. Qed.

(** ** Tree store *)

Section FsChange.

Import WorkspaceStore.

Lemma handleFsChange_blocked (st : State) (event changedPath : string) :
  truthyOpt (editingNodeId st) || hasTempNodes (tree st) = true ->
  handleFsChange st event changedPath = st.
Proof. intros H. unfold handleFsChange. now rewrite H. Qed.

(** Right after a creation starts, notifications are blocked: the id of
    the temporary node is the node being edited. *)
Lemma startCreate_blocks (isFolder : bool) (st : State) (parentPath : string) (now : N)
    (event changedPath : string) :
  truthyOpt (rootPath st) = true -> isCreating st = false ->
  let st' := startCreate isFolder st parentPath now in
  editingNodeId st' = Some (node_id (tempNode isFolder now))
  /\ handleFsChange st' event changedPath = st'.
Proof.
  intros Hroot Hcr. unfold startCreate.
  destruct (rootPath st) as [root|]; [|discriminate]. simpl in Hroot.
  rewrite Hroot, Hcr. simpl. split; [reflexivity |].
  apply handleFsChange_blocked. simpl. now destruct isFolder.
Qed.

Definition fileNode (path name : string) : FileNode :=
  mkNode path name path false None false false.

Definition folderNode (path name : string) (children : list FileNode) : FileNode :=
  mkNode path name path true (Some children) false false.

(** The project with [src] and [src/components] expanded. *)
Definition openTree : State :=
  mkState (Some "/home/u/proj")
    [folderNode "/home/u/proj/src" "src"
       [folderNode "/home/u/proj/src/components" "components"
          [fileNode "/home/u/proj/src/components/Button.tsx" "Button.tsx"]];
     fileNode "/home/u/proj/a.txt" "a.txt";
     fileNode "/home/u/proj/b.txt" "b.txt"]
    {["/home/u/proj/src"; "/home/u/proj/src/components"]}
    None None false None.

(** A creation started in [src/components], then [stopEditing]. *)
Definition deepCreation : State :=
  stopEditing (startCreateFile openTree "/home/u/proj/src/components" 1700000000000).

(** C8 at a failing input.  The temporary node sits two folders down, no
    node id is being edited, and the test of [handleFsChange] does not
    see it: the notification schedules a refresh, and when the timer
    fires the listing of [src/components] replaces the children that
    held the temporary node. *)
Lemma deep_temp_node_not_blocked :
  let changed := "/home/u/proj/src/components/Card.tsx" in
  let st := handleFsChange deepCreation "add" changed in
  treeHasNew (tree deepCreation) = true
  /\ isCreating deepCreation = true
  /\ hasTempNodes (tree deepCreation) = false
  /\ refreshTimeout st = Some changed
  /\ st <> deepCreation
  /\ treeHasNew (tree (fireTimer (P := demo) demoRoot st)) = false.
Proof.
  repeat split; try (vm_compute; reflexivity).
  vm_compute. discriminate.
Qed.

End FsChange.

(** ** Marker decoding *)

Section Scanning.

Variables opening closing : string.
Hypothesis opening_nonempty : 0 < String.length opening.

(** Scanning an extended text reproduces the bodies of the text, in
    order, before any new one; the fuel plays no role once it covers the
    text. *)
Lemma matchAll_extend (n : nat) :
  forall (m : nat) (text suffix : string),
    String.length text <= n ->
    String.length (text +:+ suffix) <= m ->
    exists more,
      MessageList.matchAll m opening closing (text +:+ suffix)
      = MessageList.matchAll n opening closing text ++ more.
Proof using opening_nonempty.
  induction n as [|n IH]; intros m text suffix Hn Hm.
  - eexists. simpl. reflexivity.
  - simpl.
    destruct (JSString.splitFirst text opening) as [[before afterOpen]|] eqn:Eo;
      [|eexists; reflexivity].
    destruct (JSString.splitFirst afterOpen closing) as [[body rest]|] eqn:Ec;
      [|eexists; reflexivity].
    pose proof (splitFirst_length _ _ _ _ Eo) as Lo.
    pose proof (splitFirst_length _ _ _ _ Ec) as Lc.
    rewrite length_append in Hm.
    destruct m as [|m]; [lia |]. simpl.
    rewrite (splitFirst_extend _ _ suffix _ _ Eo), (splitFirst_extend _ _ suffix _ _ Ec).
    destruct (IH m rest suffix) as [more Hmore]; [lia | rewrite length_append; lia |].
    exists more. now rewrite Hmore.
Qed.

(** Any fuel that covers the text gives the same bodies. *)
Lemma matchAll_fuel (n m : nat) (text : string) :
  String.length text <= n -> String.length text <= m ->
  MessageList.matchAll n opening closing text = MessageList.matchAll m opening closing text.
Proof using opening_nonempty.
  intros Hn Hm.
  destruct (matchAll_extend n m text EmptyString Hn) as [a Ha];
    [now rewrite append_nil_r |].
  destruct (matchAll_extend m n text EmptyString Hm) as [b Hb];
    [now rewrite append_nil_r |].
  rewrite append_nil_r in Ha, Hb.
  assert (Hlen : List.length a = 0).
  { apply (f_equal (@List.length string)) in Ha, Hb.
    rewrite List.length_app in Ha, Hb. lia. }
  destruct a; [|discriminate]. now rewrite List.app_nil_r in Ha.
Qed.

Lemma bodies_extend (text suffix : string) :
  exists more,
    MessageList.bodies opening closing (text +:+ suffix)
    = MessageList.bodies opening closing text ++ more.
Proof using opening_nonempty.
  unfold MessageList.bodies. now apply matchAll_extend.
Qed.

End Scanning.

Section Decoding.
Context {P : Platform}.

Import ChatStore MessageList.

Lemma extractEdits_snd (bs : list string) (clean : string) (acc : list ProposedEdit) :
  snd (extractEdits bs clean acc) = acc ++ omap decodeEdit bs.
Proof.
  revert clean acc; induction bs as [|b bs IH]; intros clean acc; simpl.
  - now rewrite List.app_nil_r.
  - destruct (decodeEdit b) as [e|]; simpl; [|apply IH].
    rewrite IH. now rewrite <- List.app_assoc.
Qed.

Lemma extractStatuses_snd (bs : list string) (clean : string) (m : list ToolStatus) :
  snd (extractStatuses bs clean m)
  = List.fold_left (fun acc t => mapSet t acc) (omap decodeStatus bs) m.
Proof.
  revert clean m; induction bs as [|b bs IH]; intros clean m; simpl; [reflexivity |].
  destruct (decodeStatus b) as [t|]; simpl; apply IH.
Qed.

(** The statuses and the proposals of a text, in the order of their markers. *)
Definition statusesInOrder (text : string) : list ToolStatus :=
  omap decodeStatus (bodies STATUS_OPEN STATUS_CLOSE text).

Definition statusMap (text : string) : list ToolStatus :=
  List.fold_left (fun acc t => mapSet t acc) (statusesInOrder text) [].

Lemma parse_edits (text : string) :
  edits (parseMessageContent text) = omap decodeEdit (bodies DIFF_OPEN DIFF_CLOSE text).
Proof.
  unfold parseMessageContent.
  pose proof (extractEdits_snd (bodies DIFF_OPEN DIFF_CLOSE text) text []) as He.
  destruct (extractEdits _ text []) as [clean1 es]. simpl in He.
  destruct (extractStatuses _ clean1 []) as [clean2 m]. simpl. exact He.
Qed.

Lemma parse_toolStatuses (text : string) :
  toolStatuses (parseMessageContent text)
  = Main.sortBy (fun a b => localeCompare (ts_id a) (ts_id b)) (statusMap text).
Proof.
  unfold parseMessageContent.
  destruct (extractEdits _ text []) as [clean1 es].
  pose proof (extractStatuses_snd (bodies STATUS_OPEN STATUS_CLOSE text) clean1 []) as Hs.
  destruct (extractStatuses _ clean1 []) as [clean2 m]. simpl in *. now rewrite Hs.
Qed.

End Decoding.

(** *** The status map *)

Section StatusMap.

Import MessageList.

Definition keys (m : list ToolStatus) : list string := List.map ts_id m.

(** The value a [Map] holds for a key. *)
Definition statusOf (id : string) (m : list ToolStatus) : option ToolStatus :=
  List.find (fun u => String.eqb (ts_id u) id) m.

(** The last status with a given id among the statuses in marker order. *)
Definition latest (id : string) (sts : list ToolStatus) : option ToolStatus :=
  statusOf id (List.rev sts).

Lemma mapSet_keys_inv (t : ToolStatus) (m : list ToolStatus) (k : string) :
  List.In k (keys (mapSet t m)) -> k = ts_id t \/ List.In k (keys m).
Proof.
  induction m as [|u m IH]; simpl.
  - intros [<-|[]]. now left.
  - destruct (String.eqb_spec (ts_id u) (ts_id t)) as [E|E]; simpl.
    + intros [<-|H]; [now left | right; now right].
    + intros [<-|H]; [right; now left |].
      destruct (IH H) as [->|H']; [now left | right; now right].
Qed.

Lemma mapSet_keys_incl (t : ToolStatus) (m : list ToolStatus) (k : string) :
  List.In k (keys m) -> List.In k (keys (mapSet t m)).
Proof.
  induction m as [|u m IH]; simpl; [intros [] |].
  destruct (String.eqb_spec (ts_id u) (ts_id t)) as [E|E]; simpl.
  - intros [<-|H]; [left; now symmetry | now right].
  - intros [<-|H]; [now left | right; now apply IH].
Qed.

Lemma mapSet_keys_new (t : ToolStatus) (m : list ToolStatus) :
  List.In (ts_id t) (keys (mapSet t m)).
Proof.
  induction m as [|u m IH]; simpl; [now left |].
  destruct (String.eqb (ts_id u) (ts_id t)); simpl; [now left | now right].
Qed.

Lemma mapSet_NoDup (t : ToolStatus) (m : list ToolStatus) :
  List.NoDup (keys m) -> List.NoDup (keys (mapSet t m)).
Proof.
  induction m as [|u m IH]; simpl; intros Hnd.
  - constructor; [intros [] | constructor].
  - inversion Hnd as [|? ? Hnotin Hnd']; subst.
    destruct (String.eqb_spec (ts_id u) (ts_id t)) as [E|E]; simpl.
    + constructor; [now rewrite <- E | exact Hnd'].
    + constructor; [|now apply IH].
      intros [Hk|Hk]%mapSet_keys_inv; [now apply E | now apply Hnotin].
Qed.

Lemma statusOf_mapSet (id : string) (t : ToolStatus) (m : list ToolStatus) :
  statusOf id (mapSet t m) = if String.eqb (ts_id t) id then Some t else statusOf id m.
Proof.
  unfold statusOf. induction m as [|u m IH]; simpl; [reflexivity |].
  destruct (String.eqb_spec (ts_id u) (ts_id t)) as [E|E]; simpl.
  - rewrite E. now destruct (String.eqb (ts_id t) id).
  - destruct (String.eqb_spec (ts_id u) id) as [E'|E']; [|exact IH].
    destruct (String.eqb_spec (ts_id t) id) as [E''|E'']; [congruence | reflexivity].
Qed.

Lemma statusOf_app (id : string) (l1 l2 : list ToolStatus) :
  statusOf id (l1 ++ l2)
  = match statusOf id l1 with Some t => Some t | None => statusOf id l2 end.
Proof.
  unfold statusOf. induction l1 as [|u l1 IH]; simpl; [reflexivity |].
  now destruct (String.eqb (ts_id u) id).
Qed.

Lemma statusOf_NoDup (t : ToolStatus) (m : list ToolStatus) :
  List.NoDup (keys m) -> List.In t m -> statusOf (ts_id t) m = Some t.
Proof.
  unfold statusOf. induction m as [|u m IH]; simpl; intros Hnd [];
    inversion Hnd as [|? ? Hnotin Hnd']; subst.
  - now rewrite String.eqb_refl.
  - destruct (String.eqb_spec (ts_id u) (ts_id t)) as [E|E]; [|now apply IH].
    exfalso. apply Hnotin. rewrite E. now apply List.in_map.
Qed.

Definition setAll (sts m : list ToolStatus) : list ToolStatus :=
  List.fold_left (fun acc t => mapSet t acc) sts m.

Lemma setAll_app (a b m : list ToolStatus) : setAll (a ++ b) m = setAll b (setAll a m).
Proof. apply List.fold_left_app. Qed.

Lemma setAll_NoDup (sts m : list ToolStatus) :
  List.NoDup (keys m) -> List.NoDup (keys (setAll sts m)).
Proof.
  revert m; induction sts as [|t sts IH]; intros m H; simpl; [exact H |].
  now apply IH, mapSet_NoDup.
Qed.

Lemma setAll_keys_incl (sts m : list ToolStatus) (k : string) :
  List.In k (keys m) -> List.In k (keys (setAll sts m)).
Proof.
  revert m; induction sts as [|t sts IH]; intros m H; simpl; [exact H |].
  now apply IH, mapSet_keys_incl.
Qed.

Lemma setAll_keys_all (sts m : list ToolStatus) (u : ToolStatus) :
  List.In u sts -> List.In (ts_id u) (keys (setAll sts m)).
Proof.
  revert m; induction sts as [|t sts IH]; intros m; simpl; intros [].
  - subst. apply setAll_keys_incl, mapSet_keys_new.
  - now apply IH.
Qed.

Lemma statusOf_setAll (id : string) (sts m : list ToolStatus) :
  statusOf id (setAll sts m)
  = match latest id sts with Some t => Some t | None => statusOf id m end.
Proof.
  unfold latest. revert m; induction sts as [|t sts IH]; intros m; simpl; [reflexivity |].
  rewrite IH, statusOf_app, statusOf_mapSet. simpl.
  destruct (statusOf id (List.rev sts)); [reflexivity |].
  unfold statusOf at 2. simpl. now destruct (String.eqb (ts_id t) id).
Qed.

(** Every entry of the map built from the empty map is the latest status
    of its id. *)
Lemma setAll_latest (sts : list ToolStatus) (t : ToolStatus) :
  List.In t (setAll sts []) -> latest (ts_id t) sts = Some t.
Proof.
  intros Hin.
  pose proof (statusOf_NoDup t (setAll sts []) (setAll_NoDup sts [] (List.NoDup_nil _)) Hin)
    as Hs.
  rewrite statusOf_setAll in Hs.
  destruct (latest (ts_id t) sts); [exact Hs | discriminate].
Qed.

End StatusMap.

(** *** Registration *)

Section Registration.

Import ChatStore MessageList.

Definition ids (l : list PendingEdit) : list string := List.map edit_id l.

Lemma known_iff (id : string) (l : list PendingEdit) :
  known (getPendingEdit id l) = true <-> List.In id (ids l).
Proof.
  unfold getPendingEdit. induction l as [|e l IH]; simpl.
  - split; [discriminate | intros []].
  - destruct (String.eqb_spec (edit_id e) id) as [E|E]; simpl.
    + split; [now left | reflexivity].
    + rewrite IH. split; [now right | intros [H|H]; [contradiction | exact H]].
Qed.

Definition registerOne (e : ProposedEdit) (l : list PendingEdit) : list PendingEdit :=
  if pe_flag e && negb (known (getPendingEdit (pe_id e) l))
  then addPendingEdit (pendingOf e) l else l.

Lemma registerEdits_cons (e : ProposedEdit) (es : list ProposedEdit) (l : list PendingEdit) :
  registerEdits (e :: es) l = registerEdits es (registerOne e l).
Proof. reflexivity. Qed.

Lemma registerEdits_app (a b : list ProposedEdit) (l : list PendingEdit) :
  registerEdits (a ++ b) l = registerEdits b (registerEdits a l).
Proof.
  revert l; induction a as [|e a IH]; intros l; [reflexivity |].
  simpl List.app. rewrite !registerEdits_cons. apply IH.
Qed.

Lemma registerOne_known (e : ProposedEdit) (l : list PendingEdit) :
  List.In (pe_id e) (ids l) -> registerOne e l = l.
Proof.
  intros H%known_iff. unfold registerOne. rewrite H. now rewrite andb_false_r.
Qed.

Lemma registerOne_extends (e : ProposedEdit) (l : list PendingEdit) :
  exists more, registerOne e l = l ++ more.
Proof.
  unfold registerOne, addPendingEdit.
  destruct (pe_flag e && negb (known (getPendingEdit (pe_id e) l))).
  - now eexists.
  - exists []. now rewrite List.app_nil_r.
Qed.

Lemma registerOne_NoDup (e : ProposedEdit) (l : list PendingEdit) :
  List.NoDup (ids l) -> List.NoDup (ids (registerOne e l)).
Proof.
  intros Hnd. unfold registerOne, addPendingEdit.
  destruct (pe_flag e) eqn:Ef; simpl; [|exact Hnd].
  destruct (known (getPendingEdit (pe_id e) l)) eqn:Ek; simpl; [exact Hnd |].
  unfold ids. rewrite List.map_app. simpl.
  apply List.NoDup_app; repeat split.
  - exact Hnd.
  - constructor; [intros [] | constructor].
  - intros x Hx [<-|[]].
    apply known_iff in Hx. congruence.
Qed.

Lemma registerOne_registered (e : ProposedEdit) (l : list PendingEdit) :
  pe_flag e = true -> List.In (pe_id e) (ids (registerOne e l)).
Proof.
  intros Ef. unfold registerOne, addPendingEdit. rewrite Ef. simpl.
  destruct (known (getPendingEdit (pe_id e) l)) eqn:Ek; simpl.
  - now apply known_iff.
  - unfold ids. rewrite List.map_app. apply List.in_or_app. right. now left.
Qed.

Lemma registerEdits_extends (es : list ProposedEdit) (l : list PendingEdit) :
  exists more, registerEdits es l = l ++ more.
Proof.
  revert l; induction es as [|e es IH]; intros l.
  - exists []. simpl. now rewrite List.app_nil_r.
  - rewrite registerEdits_cons.
    destruct (registerOne_extends e l) as [m1 ->].
    destruct (IH (l ++ m1)) as [m2 ->].
    exists (m1 ++ m2). now rewrite <- List.app_assoc.
Qed.

Lemma registerEdits_NoDup (es : list ProposedEdit) (l : list PendingEdit) :
  List.NoDup (ids l) -> List.NoDup (ids (registerEdits es l)).
Proof.
  revert l; induction es as [|e es IH]; intros l H; [exact H |].
  rewrite registerEdits_cons. now apply IH, registerOne_NoDup.
Qed.

Lemma registerEdits_ids_incl (es : list ProposedEdit) (l : list PendingEdit) (id : string) :
  List.In id (ids l) -> List.In id (ids (registerEdits es l)).
Proof.
  intros H. destruct (registerEdits_extends es l) as [more ->].
  unfold ids. rewrite List.map_app. apply List.in_or_app. now left.
Qed.

Lemma registerEdits_registered (es : list ProposedEdit) (l : list PendingEdit)
    (e : ProposedEdit) :
  List.In e es -> pe_flag e = true -> List.In (pe_id e) (ids (registerEdits es l)).
Proof.
  revert l; induction es as [|x es IH]; intros l []; intros Ef;
    rewrite registerEdits_cons.
  - subst. now apply registerEdits_ids_incl, registerOne_registered.
  - now apply IH.
Qed.

(** Registering proposals whose flagged ids are all known changes nothing. *)
Lemma registerEdits_noop (es : list ProposedEdit) (l : list PendingEdit) :
  (forall e, List.In e es -> pe_flag e = true -> List.In (pe_id e) (ids l)) ->
  registerEdits es l = l.
Proof.
  induction es as [|x es IH]; intros H; [reflexivity |].
  rewrite registerEdits_cons.
  assert (Hx : registerOne x l = l).
  { destruct (pe_flag x) eqn:Ef.
    - apply registerOne_known, H; [now left | exact Ef].
    - unfold registerOne. now rewrite Ef. }
  rewrite Hx. apply IH. intros e He. apply H. now right.
Qed.

End Registration.

(** *** Decoding a stream that grows *)

Section Idempotence.
Context {P : Platform}.

Import ChatStore MessageList.

Lemma statusesInOrder_extend (text suffix : string) :
  exists more, statusesInOrder (text +:+ suffix) = statusesInOrder text ++ more.
Proof.
  unfold statusesInOrder.
  destruct (bodies_extend STATUS_OPEN STATUS_CLOSE ltac:(simpl; lia) text suffix)
    as [more ->].
  rewrite omap_app. now eexists.
Qed.

Lemma edits_extend (text suffix : string) :
  exists more,
    edits (parseMessageContent (text +:+ suffix)) = edits (parseMessageContent text) ++ more.
Proof.
  rewrite !parse_edits.
  destruct (bodies_extend DIFF_OPEN DIFF_CLOSE ltac:(simpl; lia) text suffix) as [more ->].
  rewrite omap_app. now eexists.
Qed.

Lemma toolStatuses_perm (text : string) :
  Permutation (toolStatuses (parseMessageContent text)) (statusMap text).
Proof. rewrite parse_toolStatuses. apply sortBy_perm. Qed.

Lemma toolStatuses_NoDup (text : string) :
  List.NoDup (keys (toolStatuses (parseMessageContent text))).
Proof.
  eapply Permutation_NoDup.
  - apply Permutation_map, Permutation_sym, toolStatuses_perm.
  - apply setAll_NoDup. constructor.
Qed.

Lemma toolStatuses_latest (text : string) (t : ToolStatus) :
  List.In t (toolStatuses (parseMessageContent text)) ->
  latest (ts_id t) (statusesInOrder text) = Some t.
Proof.
  intros H. apply setAll_latest.
  exact (Permutation_in _ (toolStatuses_perm text) H).
Qed.

Lemma toolStatuses_complete (text : string) (u : ToolStatus) :
  List.In u (statusesInOrder text) ->
  List.In (ts_id u) (keys (toolStatuses (parseMessageContent text))).
Proof.
  intros H.
  apply (Permutation_in _ (Permutation_map ts_id (Permutation_sym (toolStatuses_perm text)))).
  now apply setAll_keys_all.
Qed.

Lemma toolStatuses_superset (text suffix id : string) :
  List.In id (keys (toolStatuses (parseMessageContent text))) ->
  List.In id (keys (toolStatuses (parseMessageContent (text +:+ suffix)))).
Proof.
  intros H.
  apply (Permutation_in _ (Permutation_map ts_id (toolStatuses_perm text))) in H.
  apply (Permutation_in _
           (Permutation_map ts_id (Permutation_sym (toolStatuses_perm (text +:+ suffix))))).
  unfold statusMap in *.
  destruct (statusesInOrder_extend text suffix) as [more ->].
  fold (setAll (statusesInOrder text ++ more) []). rewrite setAll_app.
  now apply setAll_keys_incl.
Qed.

(** Decoding a stream that grows, on the typed reading: decode a text,
    register its proposals, then decode the text extended by a suffix and
    register again.  Status payloads: each decode has no duplicate id and
    holds, for every id, the latest status of that id in the text; every
    id of the first decode is in the second.  Proposal payloads: the
    second decode repeats the proposals of the first before any new one;
    registering again is a no-op for the ids already registered, so the
    ledger keeps its entries, gains only new ids, never holds an id twice
    and holds every flagged proposal. *)
Lemma decoding_is_idempotent :
  forall (text suffix : string) (ledger : list PendingEdit),
    List.NoDup (ids ledger) ->
    let first := parseMessageContent text in
    let second := parseMessageContent (text +:+ suffix) in
    let ledger1 := registerEdits (edits first) ledger in
    let ledger2 := registerEdits (edits second) ledger1 in
    (List.NoDup (keys (toolStatuses first)) /\ List.NoDup (keys (toolStatuses second)))
    /\ (forall id, List.In id (keys (toolStatuses first)) ->
                   List.In id (keys (toolStatuses second)))
    /\ (forall t, List.In t (toolStatuses first) ->
                  latest (ts_id t) (statusesInOrder text) = Some t)
    /\ (forall t, List.In t (toolStatuses second) ->
                  latest (ts_id t) (statusesInOrder (text +:+ suffix)) = Some t)
    /\ (forall u, List.In u (statusesInOrder text) ->
                  List.In (ts_id u) (keys (toolStatuses first)))
    /\ (exists more, edits second = edits first ++ more)
    /\ (List.NoDup (ids ledger1) /\ List.NoDup (ids ledger2))
    /\ (exists more, ledger2 = ledger1 ++ more)
    /\ (forall e, List.In e (edits first) -> pe_flag e = true ->
                  List.In (pe_id e) (ids ledger1))
    /\ (forall e, List.In e (edits second) -> pe_flag e = true ->
                  List.In (pe_id e) (ids ledger2))
    /\ registerEdits (edits first) ledger1 = ledger1.
Proof.
  intros text suffix ledger Hnd first second ledger1 ledger2.
  assert (Hnd1 : List.NoDup (ids ledger1)) by now apply registerEdits_NoDup.
  assert (Hreg1 : forall e, List.In e (edits first) -> pe_flag e = true ->
                            List.In (pe_id e) (ids ledger1))
    by (intros e; apply registerEdits_registered).
  split; [split; apply toolStatuses_NoDup |].
  split; [intros id; apply toolStatuses_superset |].
  split; [intros t; apply toolStatuses_latest |].
  split; [intros t; apply toolStatuses_latest |].
  split; [intros u; apply toolStatuses_complete |].
  split; [apply edits_extend |].
  split; [split; [exact Hnd1 | now apply registerEdits_NoDup] |].
  split; [apply registerEdits_extends |].
  split; [exact Hreg1 |].
  split; [intros e; apply registerEdits_registered |].
  now apply registerEdits_noop.
Qed.

End Idempotence.

(** A response with two [write_file] requests that run within the same
    millisecond. *)
Definition twoWrites : Main.LoopState :=
  Main.processBlocks (P := demo) demoRoot demoDisk (fun _ => 1700000000000%N) 0
    (Main.mkLoopState EmptyString [] [] [])
    [Main.BToolUse (Main.mkToolUse "toolu_1" "write_file"
                      (Main.mkToolInput "a.txt" "alpha" []));
     Main.BToolUse (Main.mkToolUse "toolu_2" "write_file"
                      (Main.mkToolInput "b.txt" "beta" []))].

(** The ids of proposals come from the clock: the two markers carry the
    same id, both are decoded, and only the first is registered. *)
Lemma decoded_proposals_repeat_an_id :
  let parsed := MessageList.parseMessageContent (P := demo) (Main.fullText twoWrites) in
  List.map pe_id (MessageList.edits parsed) = ["edit-1700000000000"; "edit-1700000000000"]
  /\ List.map pe_relativePath (MessageList.edits parsed) = ["a.txt"; "b.txt"]
  /\ ~ List.NoDup (List.map pe_id (MessageList.edits parsed))
  /\ List.map ChatStore.edit_path (MessageList.observe (P := demo) (Main.fullText twoWrites) [])
     = ["/home/u/proj/a.txt"].
Proof.
  assert (E : List.map pe_id (MessageList.edits
                (MessageList.parseMessageContent (P := demo) (Main.fullText twoWrites)))
              = ["edit-1700000000000"; "edit-1700000000000"]) by (vm_compute; reflexivity).
  cbv zeta. split; [exact E |]. split; [vm_compute; reflexivity |]. split.
  - rewrite E. intros Hnd. inversion Hnd as [|? ? Hnotin _]; subst.
    apply Hnotin. now left.
  - vm_compute. reflexivity.
Qed.

(** *** Untyped payloads *)

Section Untyped.
Context {P : Platform}.

Import ChatStore MessageList.

Definition hasStringId (v : Json.value) : bool :=
  match Json.get "id" v with Some (Json.JStr _) => true | _ => false end.

(** Without a string as [id] the comparator throws, whatever the value is
    compared with. *)
Lemma compareIds_throws (a b : Json.value) :
  hasStringId a = false -> is_ok (compareIds a b) = false.
Proof.
  unfold hasStringId, compareIds.
  destruct (Json.get "id" a) as [[| | | | |]|]; try reflexivity. discriminate.
Qed.

Lemma insertByM_length {A} (cmp : A -> A -> result Z) (x : A) (l r : list A) :
  insertByM cmp x l = Ok r -> List.length r = S (List.length l).
Proof.
  revert r; induction l as [|y l IH]; intros r; simpl.
  - now intros [= <-].
  - destruct (cmp x y) as [c|]; [|discriminate].
    destruct (c <=? 0)%Z; [now intros [= <-] |].
    destruct (insertByM cmp x l) as [r'|]; [|discriminate].
    intros [= <-]. simpl. f_equal. now apply IH.
Qed.

Lemma sortByM_length {A} (cmp : A -> A -> result Z) (l r : list A) :
  sortByM cmp l = Ok r -> List.length r = List.length l.
Proof.
  revert r; induction l as [|x l IH]; intros r; simpl.
  - now intros [= <-].
  - destruct (sortByM cmp l) as [r'|]; [|discriminate].
    intros H%insertByM_length. rewrite H. f_equal. now apply IH.
Qed.

(** Two or more values, none of which has a string as [id]: whichever
    pair the sort compares first, the comparison throws. *)
Lemma sortByM_throws (x y : Json.value) (l : list Json.value) :
  hasStringId x = false ->
  is_ok (sortByM compareIds (x :: y :: l)) = false.
Proof.
  intros Hx. change (sortByM compareIds (x :: y :: l))
    with (match sortByM compareIds (y :: l) with
          | Ok r => insertByM compareIds x r
          | Throw msg => Throw msg
          end).
  destruct (sortByM compareIds (y :: l)) as [r|] eqn:E; [|reflexivity].
  apply sortByM_length in E. destruct r as [|z r]; [discriminate |]. simpl.
  pose proof (compareIds_throws x z Hx) as Hc.
  destruct (compareIds x z); [discriminate | reflexivity].
Qed.

(** **** The typed reading *)

Definition readsAsEdit (v : Json.value) (e : ProposedEdit) : Prop := asProposedEdit v = Some e.
Definition readsAsStatus (v : Json.value) (t : ToolStatus) : Prop := asToolStatus v = Some t.

(** Every payload of the text that parses has the shape of the payloads
    that the program emits ([null] as a status is skipped either way). *)
Definition shaped (text : string) : Prop :=
  (forall b v, List.In b (bodies DIFF_OPEN DIFF_CLOSE text) -> Json.parse b = Some v ->
               exists e, readsAsEdit v e)
  /\ (forall b v, List.In b (bodies STATUS_OPEN STATUS_CLOSE text) -> Json.parse b = Some v ->
                  v = Json.JNull \/ exists t, readsAsStatus v t).

Lemma getString_get (k : string) (v : Json.value) (s : string) :
  Json.getString k v = Some s -> Json.get k v = Some (Json.JStr s).
Proof.
  unfold Json.getString. destruct (Json.get k v) as [[| | | | |]|]; try discriminate.
  now intros [= ->].
Qed.

Lemma readsAsStatus_id (v : Json.value) (t : ToolStatus) :
  readsAsStatus v t -> Json.get "id" v = Some (Json.JStr (ts_id t)).
Proof.
  unfold readsAsStatus, asToolStatus.
  destruct (Json.getString "id" v) as [id|] eqn:Eid; [|discriminate].
  destruct (Json.getString "toolName" v); [|discriminate].
  destruct (Json.getString "path" v); [|discriminate].
  destruct (Json.getString "status" v) as [st|]; [|discriminate].
  destruct (Json.getString "message" v); [|discriminate].
  destruct (runStatusOfName st); [|discriminate].
  intros [= <-]. simpl. now apply getString_get.
Qed.

Lemma readsAsStatus_idOf (v : Json.value) (t : ToolStatus) :
  readsAsStatus v t -> idOf v = Ok (Some (Json.JStr (ts_id t))).
Proof.
  intros H. pose proof (readsAsStatus_id v t H) as Hid.
  destruct v; try discriminate. unfold idOf. now rewrite Hid.
Qed.

Lemma extractEdits_agree (bs : list string) :
  forall (clean : string) (accAny : list Json.value) (acc : list ProposedEdit),
    (forall b v, List.In b bs -> Json.parse b = Some v -> exists e, readsAsEdit v e) ->
    List.Forall2 readsAsEdit accAny acc ->
    fst (extractEditsAny bs clean accAny) = fst (extractEdits bs clean acc)
    /\ List.Forall2 readsAsEdit (snd (extractEditsAny bs clean accAny))
         (snd (extractEdits bs clean acc)).
Proof.
  induction bs as [|b bs IH]; intros clean accAny acc Hsh Hacc; simpl.
  - split; [reflexivity | exact Hacc].
  - unfold decodeEdit. destruct (Json.parse b) as [v|] eqn:Ep.
    + destruct (Hsh b v (or_introl eq_refl) Ep) as [e He].
      unfold readsAsEdit in He. rewrite He.
      apply IH; [intros b' v' Hin; apply Hsh; now right |].
      apply List.Forall2_app; [exact Hacc | constructor; [exact He | constructor]].
    + apply IH; [intros b' v' Hin; apply Hsh; now right | exact Hacc].
Qed.

(** The [Map] of the program against the map of the typed reading. *)
Definition mapReads (m : list (option Json.value * Json.value)) (mt : list ToolStatus) : Prop :=
  List.Forall2 (fun kv t => fst kv = Some (Json.JStr (ts_id t)) /\ readsAsStatus (snd kv) t)
    m mt.

Lemma mapSet_agree (v : Json.value) (t : ToolStatus)
    (m : list (option Json.value * Json.value)) (mt : list ToolStatus) :
  readsAsStatus v t -> mapReads m mt ->
  mapReads (mapSetAny (Some (Json.JStr (ts_id t))) v m) (mapSet t mt).
Proof.
  intros Hv Hm. induction Hm as [|[k u] tu m mt [Hk Hu] Hm IH]; simpl.
  - constructor; [split; [reflexivity | exact Hv] | constructor].
  - simpl in Hk. subst k. simpl.
    destruct (String.eqb_spec (ts_id tu) (ts_id t)) as [E|E].
    + constructor; [split; [simpl; now rewrite E | exact Hv] | exact Hm].
    + constructor; [split; [reflexivity | exact Hu] | exact IH].
Qed.

Lemma extractStatuses_agree (bs : list string) :
  forall (clean : string) (m : list (option Json.value * Json.value)) (mt : list ToolStatus),
    (forall b v, List.In b bs -> Json.parse b = Some v ->
                 v = Json.JNull \/ exists t, readsAsStatus v t) ->
    mapReads m mt ->
    fst (extractStatusesAny bs clean m) = fst (extractStatuses bs clean mt)
    /\ mapReads (snd (extractStatusesAny bs clean m)) (snd (extractStatuses bs clean mt)).
Proof.
  induction bs as [|b bs IH]; intros clean m mt Hsh Hm; simpl.
  - split; [reflexivity | exact Hm].
  - unfold decodeStatus. destruct (Json.parse b) as [v|] eqn:Ep.
    + destruct (Hsh b v (or_introl eq_refl) Ep) as [->|[t Ht]].
      * simpl. apply IH; [intros b' v' Hin; apply Hsh; now right | exact Hm].
      * rewrite (readsAsStatus_idOf v t Ht). unfold readsAsStatus in Ht. rewrite Ht.
        apply IH; [intros b' v' Hin; apply Hsh; now right |].
        now apply mapSet_agree.
    + apply IH; [intros b' v' Hin; apply Hsh; now right | exact Hm].
Qed.

Definition compareTyped (a b : ToolStatus) : Z := localeCompare (ts_id a) (ts_id b).

Lemma compareIds_typed (a b : Json.value) (ta tb : ToolStatus) :
  readsAsStatus a ta -> readsAsStatus b tb ->
  compareIds a b = Ok (compareTyped ta tb).
Proof.
  intros Ha Hb. unfold compareIds.
  now rewrite (readsAsStatus_id a ta Ha), (readsAsStatus_id b tb Hb).
Qed.

Lemma insertByM_agree (x : Json.value) (tx : ToolStatus) (l : list Json.value)
    (lt : list ToolStatus) :
  readsAsStatus x tx -> List.Forall2 readsAsStatus l lt ->
  exists r, insertByM compareIds x l = Ok r
            /\ List.Forall2 readsAsStatus r (Main.insertBy compareTyped tx lt).
Proof.
  intros Hx Hl. induction Hl as [|y ty l lt Hy Hl IH]; simpl.
  - eexists. split; [reflexivity |]. constructor; [exact Hx | constructor].
  - rewrite (compareIds_typed x y tx ty Hx Hy).
    destruct (compareTyped tx ty <=? 0)%Z.
    + eexists. split; [reflexivity |].
      constructor; [exact Hx |]. constructor; [exact Hy | exact Hl].
    + destruct IH as (r & -> & Hr). eexists. split; [reflexivity |].
      constructor; [exact Hy | exact Hr].
Qed.

Lemma sortByM_agree (l : list Json.value) (lt : list ToolStatus) :
  List.Forall2 readsAsStatus l lt ->
  exists r, sortByM compareIds l = Ok r
            /\ List.Forall2 readsAsStatus r (Main.sortBy compareTyped lt).
Proof.
  induction 1 as [|x tx l lt Hx Hl IH]; simpl.
  - eexists. split; [reflexivity | constructor].
  - destruct IH as (r & -> & Hr). now apply insertByM_agree.
Qed.

Lemma mapReads_values (m : list (option Json.value * Json.value)) (mt : list ToolStatus) :
  mapReads m mt -> List.Forall2 readsAsStatus (List.map snd m) mt.
Proof.
  induction 1 as [|kv t m mt [_ H] Hm IH]; simpl; constructor; assumption.
Qed.

(** On a text whose payloads have the shape of the program's own, the
    program returns, and the typed reading holds what it returns: the same
    clean text, its proposals and its statuses, each read at its type, in
    the same order. *)
Lemma typed_reading_agrees (text : string) :
  shaped text ->
  exists r,
    parseMessageContentAny text = Ok r
    /\ cleanTextAny r = cleanText (parseMessageContent text)
    /\ List.Forall2 readsAsEdit (editsAny r) (edits (parseMessageContent text))
    /\ List.Forall2 readsAsStatus (toolStatusesAny r) (toolStatuses (parseMessageContent text)).
Proof.
  intros [He Hs]. unfold parseMessageContentAny, parseMessageContent.
  destruct (extractEdits_agree (bodies DIFF_OPEN DIFF_CLOSE text) text [] [] He
              (List.Forall2_nil _)) as [Hc1 He1].
  destruct (extractEditsAny _ text []) as [cleanA esA].
  destruct (extractEdits _ text []) as [clean1 es]. simpl in Hc1, He1. subst cleanA.
  destruct (extractStatuses_agree (bodies STATUS_OPEN STATUS_CLOSE text) clean1 [] [] Hs
              (List.Forall2_nil _)) as [Hc2 Hm].
  destruct (extractStatusesAny _ clean1 []) as [cleanA mA].
  destruct (extractStatuses _ clean1 []) as [clean2 mt]. simpl in Hc2, Hm. subst cleanA.
  destruct (sortByM_agree _ _ (mapReads_values _ _ Hm)) as (sorted & -> & Hsorted).
  eexists. split; [reflexivity |]. simpl.
  split; [reflexivity |]. split; [exact He1 | exact Hsorted].
Qed.

End Untyped.

(** A status payload whose [id] is a number. *)
Definition numberedStatus (n : string) : Json.value :=
  Json.JObj [ ("id", Json.JNum n);
              ("toolName", Json.JStr "read_file");
              ("path", Json.JStr "app.js");
              ("status", Json.JStr "success");
              ("message", Json.JStr "File read") ].

Definition numberedMarker (n : string) : string :=
  STATUS_OPEN +:+ Json.stringify (numberedStatus n) +:+ STATUS_CLOSE.

(** C5 at a failing input.  A text holds a status marker whose [id] is
    the number 1: decoding it returns that status.  The text goes on with
    a marker whose [id] is the number 2: both payloads parse and are
    stored, the sort compares them, a number has no [localeCompare], and
    the decode throws instead of returning the payloads of the first
    decode and the new one.  The comparison throws for every pair of the
    two, so the order in which a sort compares them plays no part. *)
Theorem untyped_status_ids_stop_decoding {P : Platform} :
  let text := "Reading the file." +:+ numberedMarker "1" in
  let suffix := numberedMarker "2" in
  MessageList.parseMessageContentAny text
  = Ok (MessageList.mkParsedAny "Reading the file." [] [numberedStatus "1"])
  /\ (forall a b, List.In a [numberedStatus "1"; numberedStatus "2"] ->
                  MessageList.compareIds a b = Throw MessageList.NOT_A_FUNCTION)
  /\ MessageList.parseMessageContentAny (text +:+ suffix)
     = Throw MessageList.NOT_A_FUNCTION.
Proof.
  cbv zeta. split; [vm_compute; reflexivity |]. split.
  - intros a b [<-|[<-|[]]]; reflexivity.
  - vm_compute. reflexivity.
Qed.

(** ** Patch proposals *)

Section Patch.
Context {P : Platform}.

(** With no matching replacement the content is unchanged. *)
Lemma applyEdits_none (content : string) (edits : list (string * string)) :
  snd (Main.applyEdits content edits) = 0 -> fst (Main.applyEdits content edits) = content.
Proof.
  revert content; induction edits as [|[old new] edits IH]; intros content; simpl;
    [reflexivity |].
  destruct (JSString.includes content old); [|apply IH].
  destruct (Main.applyEdits (JSString.replace content old new) edits). discriminate.
Qed.

(** A replacement whose [old_text] does not occur is skipped. *)
Lemma applyEdits_skip (content old new : string) (edits : list (string * string)) :
  JSString.includes content old = false ->
  Main.applyEdits content ((old, new) :: edits) = Main.applyEdits content edits.
Proof. intros H. simpl. now rewrite H. Qed.

(** A replacement whose [old_text] occurs rewrites its first occurrence
    and counts. *)
Lemma applyEdits_hit (content old new : string) (edits : list (string * string)) :
  JSString.includes content old = true ->
  Main.applyEdits content ((old, new) :: edits)
  = (fst (Main.applyEdits (JSString.replace content old new) edits),
     S (snd (Main.applyEdits (JSString.replace content old new) edits))).
Proof.
  intros H. simpl. rewrite H.
  now destruct (Main.applyEdits (JSString.replace content old new) edits).
Qed.

(** What [edit_file] returns for a readable file: the notice when nothing
    matched, otherwise one proposal holding the content after the matched
    replacements. *)
Lemma edit_file_result (cwp : option string) (d : Disk) (now : N) (input : Main.ToolInput)
    (original : string) :
  Main.readFile d (Main.scoped cwp (Main.ti_path input) (Main.ti_path input)) = Ok original ->
  Main.executeAITool cwp d now "edit_file" input =
  let '(newContent, editCount) := Main.applyEdits original (Main.ti_edits input) in
  if (editCount =? 0)%nat then
    "⚠️ No matches found in " +:+ Main.ti_path input +:+ ". The old_text must match exactly."
  else
    Main.diffBlock
      (mkProposedEdit true (Main.editIdAt now) KEdit
         (Main.scoped cwp (Main.ti_path input) (Main.ti_path input)) (Main.ti_path input)
         original newContent)
    +:+ "I've prepared " +:+ JSString.ofNat editCount +:+ " edit(s) for **"
    +:+ Main.ti_path input +:+ "**. Please review and accept or reject the changes above.".
Proof.
  intros H. unfold Main.executeAITool. simpl. rewrite H. reflexivity.
Qed.

(** When the scan isolates the payload of a proposal, the proposal is
    decoded as it was encoded and, its id being new, exactly one pending
    edit is registered for it. *)
Lemma isolated_proposal_registers (text : string) (e : ProposedEdit)
    (ledger : list ChatStore.PendingEdit) :
  MessageList.bodies DIFF_OPEN DIFF_CLOSE text = [Json.stringify (proposedEditJson e)] ->
  pe_flag e = true ->
  ~ List.In (pe_id e) (ids ledger) ->
  MessageList.edits (MessageList.parseMessageContent text) = [e]
  /\ MessageList.observe text ledger = ledger ++ [MessageList.pendingOf e].
Proof.
  intros Hb Hflag Hnew.
  assert (He : MessageList.edits (MessageList.parseMessageContent text) = [e]).
  { rewrite parse_edits, Hb.
    change (omap MessageList.decodeEdit [Json.stringify (proposedEditJson e)])
      with (match MessageList.decodeEdit (Json.stringify (proposedEditJson e)) with
            | Some y => [y]
            | None => []
            end).
    now rewrite decodeEdit_stringify. }
  split; [exact He |].
  unfold MessageList.observe. rewrite He. simpl. rewrite Hflag.
  destruct (ChatStore.known (ChatStore.getPendingEdit (pe_id e) ledger)) eqn:Ek;
    [|reflexivity].
  apply known_iff in Ek. contradiction.
Qed.

End Patch.

Definition notesDisk : Disk :=
  {[ "/home/u/proj/notes.md" := fileOf "The tag [/DIFF_BLOCK] ends a proposal." ]}.

(** The reply text after the agent patches [notes.md], whose content holds
    the closing delimiter. *)
Definition notesPatch : Main.LoopState :=
  Main.processBlock (P := demo) demoRoot notesDisk 1700000000000
    (Main.mkLoopState EmptyString [] [] [])
    (Main.BToolUse (Main.mkToolUse "toolu_1" "edit_file"
                      (Main.mkToolInput "notes.md" EmptyString [("The tag", "A tag")]))).

(** C6 at a failing input.  One replacement matches and the executor
    returns a proposal; the decoder cuts the payload at the closing
    delimiter inside the file content, the cut payload does not parse,
    and no pending edit is registered.  (For [app.js], whose content holds
    no delimiter, the same steps register exactly one.) *)
Lemma proposal_lost_on_delimiter_in_content :
  Main.applyEdits "The tag [/DIFF_BLOCK] ends a proposal." [("The tag", "A tag")]
  = ("A tag [/DIFF_BLOCK] ends a proposal.", 1)
  /\ Main.toolResults notesPatch = [Main.BToolResult "toolu_1" Main.EDIT_PROPOSED_ACK]
  /\ MessageList.edits (MessageList.parseMessageContent (P := demo) (Main.fullText notesPatch))
     = []
  /\ MessageList.observe (P := demo) (Main.fullText notesPatch) [] = []
  /\ List.map ChatStore.edit_newContent (MessageList.observe (P := demo) firstReply [])
     = ["let y = 1;"].
Proof. repeat split; vm_compute; reflexivity. Qed.


(** * Further properties

    What the code shows beyond the specification: the tool executor and
    the tool loop, the prompt and image hand-over between renderer and main
    process, the chat store, the diff view, the tree store and the editor
    tabs. *)

(** ** More on strings *)

Section MoreStrings.

Fixpoint occurs (c : ascii) (s : string) : bool :=
  match s with
  | EmptyString => false
  | String d r => Ascii.eqb d c || occurs c r
  end.

Lemma drop_all (s t : string) : JSString.drop (String.length s) (s +:+ t) = t.
Proof. induction s as [|c s IH]; [reflexivity | rewrite append_cons; exact IH]. Qed.

(** A text that runs into the pattern is a prefix of it. *)
Lemma startsWith_short (pre rest p : string) :
  JSString.startsWith (pre +:+ rest) p = true -> String.length pre <= String.length p ->
  JSString.startsWith p pre = true.
Proof.
  revert pre; induction p as [|a p IH]; intros pre H Hlen.
  - destruct pre; [reflexivity | simpl in Hlen; lia].
  - destruct pre as [|b pre]; [reflexivity |].
    rewrite append_cons in H. simpl in H, Hlen |- *.
    destruct (Ascii.eqb_spec a b) as [->|]; [|discriminate].
    rewrite Ascii.eqb_refl. apply IH; [exact H | lia].
Qed.

Lemma prefix_last_occurs (p s : string) (c : ascii) :
  JSString.startsWith p (s +:+ String c EmptyString) = true -> occurs c p = true.
Proof.
  revert p; induction s as [|b s IH]; intros p H.
  - destruct p as [|a p]; [discriminate |]. simpl in H |- *.
    destruct (Ascii.eqb_spec c a) as [->|]; [|discriminate].
    now rewrite Ascii.eqb_refl.
  - destruct p as [|a p]; [discriminate |]. rewrite append_cons in H. simpl in H |- *.
    destruct (Ascii.eqb b a); [|discriminate].
    rewrite (IH _ H). apply orb_true_r.
Qed.

Lemma includes_cons (c : ascii) (s pat : string) :
  JSString.includes (String c s) pat = false ->
  JSString.startsWith (String c s) pat = false /\ JSString.includes s pat = false.
Proof.
  unfold JSString.includes. rewrite (splitFirst_eq (String c s)).
  destruct (JSString.startsWith (String c s) pat); [discriminate |].
  destruct (JSString.splitFirst s pat) as [[a b]|]; [discriminate | auto].
Qed.

Lemma includes_nil (pat : string) :
  JSString.includes EmptyString pat = false -> exists h t, pat = String h t.
Proof. destruct pat as [|h t]; [discriminate | eauto]. Qed.

(** A text that does not start the pattern, followed by a character
    foreign to the pattern, does not start it either. *)
Lemma startsWith_sep (a b pat : string) (c : ascii) :
  occurs c pat = false -> JSString.startsWith a pat = false ->
  JSString.startsWith (a +:+ String c b) pat = false.
Proof.
  intros Hc Ha.
  destruct (le_lt_dec (String.length pat) (String.length a)) as [Hlong|Hshort].
  - now rewrite startsWith_long.
  - destruct (JSString.startsWith (a +:+ String c b) pat) eqn:E; [|reflexivity].
    change (String c b) with (String c EmptyString +:+ b) in E.
    rewrite <- append_assoc in E. apply startsWith_short in E.
    + apply prefix_last_occurs in E. congruence.
    + rewrite length_append. simpl. lia.
Qed.

(** Two texts without the pattern, joined by a character foreign to it. *)
Lemma includes_sep (a b pat : string) (c : ascii) :
  occurs c pat = false ->
  JSString.includes a pat = false -> JSString.includes b pat = false ->
  JSString.includes (a +:+ String c b) pat = false.
Proof.
  intros Hc Ha Hb.
  induction a as [|x a IH].
  - rewrite append_nil_l. unfold JSString.includes in *.
    rewrite (splitFirst_eq (String c b)).
    assert (H0 : JSString.startsWith (String c b) pat = false).
    { apply (startsWith_sep EmptyString b pat c Hc).
      destruct (includes_nil _ Ha) as (h & t & ->). reflexivity. }
    rewrite H0.
    destruct (JSString.splitFirst b pat) as [[u v]|]; [discriminate | reflexivity].
  - apply includes_cons in Ha as [Hs Hi]. specialize (IH Hi).
    rewrite append_cons. unfold JSString.includes in *.
    rewrite (splitFirst_eq (String x (a +:+ String c b))).
    rewrite <- append_cons, (startsWith_sep _ b pat c Hc Hs).
    destruct (JSString.splitFirst (a +:+ String c b) pat) as [[u v]|];
      [discriminate | reflexivity].
Qed.

(** A pattern whose first character does not come back in it cannot
    overlap itself; its first occurrence after a text without it is where
    that text ends. *)
Lemma splitFirst_at (pre rest : string) (h : ascii) (t : string) :
  occurs h t = false ->
  JSString.includes pre (String h t) = false ->
  JSString.splitFirst (pre +:+ String h t +:+ rest) (String h t) = Some (pre, rest).
Proof.
  intros Hh Hpre. induction pre as [|c pre IH].
  - rewrite append_nil_l, splitFirst_eq, startsWith_append.
    now rewrite drop_all.
  - apply includes_cons in Hpre as [Hs Hi]. specialize (IH Hi).
    rewrite append_cons, splitFirst_eq, IH.
    destruct (JSString.startsWith (String c (pre +:+ String h t +:+ rest)) (String h t)) eqn:E;
      [|reflexivity].
    exfalso.
    destruct (le_lt_dec (String.length (String h t)) (String.length (String c pre)))
      as [Hlong|Hshort].
    + rewrite <- append_cons, startsWith_long in E by exact Hlong. congruence.
    + simpl in E. destruct (Ascii.eqb h c); [|discriminate].
      rewrite append_cons in E.
      change (String h (t +:+ rest)) with (String h EmptyString +:+ (t +:+ rest)) in E.
      rewrite <- append_assoc in E. apply startsWith_short in E.
      * apply prefix_last_occurs in E. congruence.
      * rewrite length_append. simpl in *. lia.
Qed.

(** [splitFirst] finds the first occurrence. *)
Lemma splitFirst_first (s pat b a : string) :
  JSString.splitFirst s pat = Some (b, a) ->
  forall b' a', s = b' +:+ pat +:+ a' -> String.length b <= String.length b'.
Proof.
  revert b; induction s as [|c s IH]; intros b H b' a' Hs; rewrite splitFirst_eq in H.
  - destruct (JSString.startsWith EmptyString pat); [|discriminate].
    injection H as <- _. simpl. lia.
  - destruct (JSString.startsWith (String c s) pat) eqn:E.
    + injection H as <- _. simpl. lia.
    + destruct (JSString.splitFirst s pat) as [[b0 a0]|] eqn:E0; [|discriminate].
      injection H as <- <-.
      destruct b' as [|c' b'].
      * rewrite append_nil_l in Hs. rewrite Hs, startsWith_append in E. discriminate.
      * rewrite append_cons in Hs. injection Hs as -> Hs.
        simpl. apply le_n_S. eapply IH; [reflexivity | exact Hs].
Qed.

Lemma mapChars_append (f : ascii -> ascii) (a b : string) :
  JSString.mapChars f (a +:+ b) = JSString.mapChars f a +:+ JSString.mapChars f b.
Proof.
  induction a as [|c a IH]; [reflexivity |].
  rewrite append_cons. simpl. now rewrite IH.
Qed.

Lemma mapChars_empty (f : ascii -> ascii) (s : string) :
  JSString.mapChars f s = EmptyString -> s = EmptyString.
Proof. destruct s; [reflexivity | discriminate]. Qed.

Lemma splitOn_nonempty (sep : ascii) (s : string) : JSString.splitOn sep s <> [].
Proof.
  destruct s as [|c s]; simpl; [discriminate |].
  destruct (Ascii.eqb c sep); [discriminate |].
  destruct (JSString.splitOn sep s); discriminate.
Qed.

Lemma joinWith_cons (sep x y : string) (l : list string) :
  JSString.joinWith sep (x :: y :: l) = x +:+ sep +:+ JSString.joinWith sep (y :: l).
Proof. reflexivity. Qed.

Lemma joinWith_head (sep : string) (c : ascii) (x : string) (rest : list string) :
  JSString.joinWith sep (String c x :: rest) = String c (JSString.joinWith sep (x :: rest)).
Proof. destruct rest; reflexivity. Qed.

(** Joining what [split] gave restores the text. *)
Lemma join_split (sep : ascii) (s : string) :
  JSString.joinWith (String sep EmptyString) (JSString.splitOn sep s) = s.
Proof.
  induction s as [|c s IH]; [reflexivity |].
  simpl. destruct (Ascii.eqb_spec c sep) as [->|Hne].
  - destruct (JSString.splitOn sep s) as [|x rest] eqn:E;
      [now apply splitOn_nonempty in E |].
    change (JSString.joinWith (String sep EmptyString) (EmptyString :: x :: rest))
      with (String sep (JSString.joinWith (String sep EmptyString) (x :: rest))).
    now rewrite IH.
  - destruct (JSString.splitOn sep s) as [|x rest] eqn:E;
      [now apply splitOn_nonempty in E |].
    rewrite joinWith_head. now rewrite IH.
Qed.

Lemma splitOn_plain (sep : ascii) (s : string) :
  occurs sep s = false -> JSString.splitOn sep s = [s].
Proof.
  induction s as [|c s IH]; intros H; [reflexivity |].
  simpl in H |- *. apply orb_false_iff in H as [Hc Hs].
  rewrite Hc, (IH Hs). reflexivity.
Qed.

Lemma splitOn_app (sep : ascii) (a b : string) :
  JSString.splitOn sep (a +:+ String sep b) = JSString.splitOn sep a ++ JSString.splitOn sep b.
Proof.
  induction a as [|c a IH].
  - simpl. now rewrite Ascii.eqb_refl.
  - rewrite append_cons. simpl. rewrite IH.
    destruct (Ascii.eqb c sep); [reflexivity |].
    destruct (JSString.splitOn sep a) as [|x rest] eqn:E;
      [now apply splitOn_nonempty in E | reflexivity].
Qed.

Lemma trimEnd_idem (s : string) : JSString.trimEnd (JSString.trimEnd s) = JSString.trimEnd s.
Proof.
  induction s as [|c s IH]; [reflexivity |].
  simpl. destruct (JSString.trimEnd s) as [|d t] eqn:E.
  - destruct (JSString.isSpace c) eqn:Ec; [reflexivity |]. simpl. now rewrite Ec.
  - change (JSString.trimEnd (String c (String d t))) with
      (match JSString.trimEnd (String d t) with
       | EmptyString => if JSString.isSpace c then EmptyString else String c EmptyString
       | u => String c u
       end).
    rewrite IH. reflexivity.
Qed.

Lemma trimEnd_head (c : ascii) (s : string) :
  JSString.isSpace c = false -> exists t, JSString.trimEnd (String c s) = String c t.
Proof.
  intros Hc. simpl. destruct (JSString.trimEnd s); rewrite ?Hc; eauto.
Qed.

Lemma trimStart_head (s : string) :
  JSString.trimStart s = EmptyString
  \/ exists c r, JSString.trimStart s = String c r /\ JSString.isSpace c = false.
Proof.
  induction s as [|c s IH]; [now left |].
  simpl. destruct (JSString.isSpace c) eqn:E; [exact IH |]. right. eauto.
Qed.

(** Trimming twice is trimming once. *)
Lemma trim_idem (s : string) : JSString.trim (JSString.trim s) = JSString.trim s.
Proof.
  unfold JSString.trim.
  destruct (trimStart_head s) as [->|(c & r & -> & Hc)]; [reflexivity |].
  destruct (trimEnd_head c r Hc) as [t Ht]. rewrite Ht.
  simpl JSString.trimStart. rewrite Hc. rewrite <- Ht. apply trimEnd_idem.
Qed.

End MoreStrings.

(** ** The tool executor and the file handlers *)

Section ToolExecutor.
Context {P : Platform}.

(** X1. The result of a tool call starts with "Error" (and the status
    marker of the call says [error]) exactly when [read_file] or
    [edit_file] finds no file at the scoped path, or [list_directory]
    cannot list it.  A patch without a match, an unknown tool name and
    every [write_file] count as success. *)
Theorem tool_error_iff (cwp : option string) (d : Disk) (now : N) (toolName : string)
    (input : Main.ToolInput) :
  JSString.startsWith (Main.executeAITool cwp d now toolName input) "Error" = true <->
  ((toolName = "read_file" \/ toolName = "edit_file")
   /\ d !! resolve (Main.scoped cwp (Main.ti_path input) (Main.ti_path input)) = None)
  \/ (toolName = "list_directory"
      /\ readdir (Main.scoped cwp (Main.ti_path input)
                    (if JSString.truthy (Main.ti_path input) then Main.ti_path input else "."))
         = None).
Proof.
  unfold Main.executeAITool, Main.readFile, Main.errorExecuting, Main.diffBlock.
  destruct (String.eqb_spec toolName "read_file") as [->|Hr].
  { destruct (d !! _) eqn:E; rewrite !append_cons; simpl.
    - split; [discriminate |]. intros [[_ H]|[H _]]; discriminate.
    - split; [intros _; left; split; [now left | reflexivity] | reflexivity]. }
  destruct (String.eqb_spec toolName "list_directory") as [->|Hl].
  { destruct (readdir _) eqn:E; rewrite !append_cons; simpl.
    - split; [discriminate |]. intros [[[H|H] _]|[_ H]]; discriminate.
    - split; [intros _; right; split; reflexivity | reflexivity]. }
  destruct (String.eqb_spec toolName "write_file") as [->|Hw].
  { unfold nl. rewrite !append_cons. simpl.
    split; [discriminate |]. intros [[[H|H] _]|[H _]]; discriminate. }
  destruct (String.eqb_spec toolName "edit_file") as [->|He].
  { destruct (d !! _) eqn:E.
    - destruct (Main.applyEdits _ _) as [c n]. destruct (n =? 0)%nat;
        unfold nl; rewrite !append_cons; simpl;
        (split; [discriminate |]; intros [[_ H]|[H _]]; discriminate).
    - rewrite !append_cons; simpl.
      split; [intros _; left; split; [now right | reflexivity] | reflexivity]. }
  rewrite !append_cons; simpl.
  split; [discriminate |]. intros [[[H|H] _]|[H _]]; congruence.
Qed.

(** The guard reads a path through [path.resolve] only. *)
Lemma isWithinWorkspace_resolve (ws : option string) (p q : string) :
  resolve p = resolve q -> Main.isWithinWorkspace ws p = Main.isWithinWorkspace ws q.
Proof.
  intros H. unfold Main.isWithinWorkspace, Main.normalizePath. now rewrite H.
Qed.

(** X2. A write through [fs:writeFile] that is inside the workspace and
    does not fail answers [true], and reading the file back through
    [fs:readFile], by the same path or by any other spelling that
    resolves to it, gives the written content, as long as it stays within
    the size limit. *)
Theorem write_then_read (ws : option string) (d : Disk) (filePath content : string) :
  Main.isWithinWorkspace ws filePath = true ->
  writeFails (resolve filePath) = false ->
  (Z.of_nat (String.length content) <= 10 * 1024 * 1024)%Z ->
  fst (Main.fs_writeFile ws d filePath content) = Ok true
  /\ forall spelling : string,
       resolve spelling = resolve filePath ->
       Main.fs_readFile ws (snd (Main.fs_writeFile ws d filePath content)) spelling
       = Ok content.
Proof.
  intros Hin Hw Hsize.
  unfold Main.fs_writeFile, Main.writeFile. rewrite Hin, Hw. simpl.
  split; [reflexivity |].
  intros spelling Hsp.
  unfold Main.fs_readFile, Main.statSize, Main.readFile.
  rewrite (isWithinWorkspace_resolve ws spelling filePath Hsp), Hin, Hsp. simpl.
  rewrite lookup_insert_eq. simpl.
  destruct (Z.gtb_spec (Z.of_nat (String.length content)) (10 * 1024 * 1024)); [lia |].
  reflexivity.
Qed.

(** The loop of [edit_file] counts no replacement exactly when no
    [old_text] occurs in the content. *)
Lemma no_match_iff (content : string) (edits : list (string * string)) :
  snd (Main.applyEdits content edits) = 0
  <-> forall old new, In (old, new) edits -> JSString.includes content old = false.
Proof.
  induction edits as [|[old new] edits IH]; simpl.
  - split; [intros _ ? ? [] | reflexivity].
  - destruct (JSString.includes content old) eqn:E.
    + clear IH. destruct (Main.applyEdits _ edits). simpl. split; [discriminate |].
      intros H. specialize (H old new (or_introl eq_refl)). congruence.
    + rewrite IH. split.
      * intros H o n [Heq|Hin]; [injection Heq as <- <-; exact E | eauto].
      * intros H o n Hin. eauto.
Qed.


Lemma getSubstitution_literal (matched before after repl : string) :
  occurs "$" repl = false -> JSString.getSubstitution matched before after repl = repl.
Proof.
  induction repl as [|c r IH]; intros H; [reflexivity |].
  simpl in H. apply orb_false_iff in H as [Hc Hr].
  simpl. rewrite Hc. f_equal. now apply IH.
Qed.

Lemma getSubstitution_app (matched before after pre rest : string) :
  occurs "$" pre = false ->
  JSString.getSubstitution matched before after (pre +:+ rest)
  = pre +:+ JSString.getSubstitution matched before after rest.
Proof.
  induction pre as [|c r IH]; intros H; [reflexivity |].
  simpl in H. apply orb_false_iff in H as [Hc Hr].
  rewrite !append_cons. simpl. rewrite Hc. f_equal. now apply IH.
Qed.

(** X4. A replacement whose [new_text] holds no dollar sign rewrites the
    first occurrence of [old_text] and nothing else: the content is the
    text before that occurrence, [new_text], and the text after it. *)
Theorem edit_replaces_first_occurrence
    (content old_text new_text before after : string) :
  JSString.splitFirst content old_text = Some (before, after) ->
  occurs "$" new_text = false ->
  Main.applyEdits content [(old_text, new_text)] = (before +:+ new_text +:+ after, 1)
  /\ content = before +:+ old_text +:+ after
  /\ forall b a, content = b +:+ old_text +:+ a -> String.length before <= String.length b.
Proof.
  intros Hs Hn. split; [|split].
  - simpl. unfold JSString.includes, JSString.replace. rewrite Hs.
    now rewrite getSubstitution_literal.
  - now apply splitFirst_sound.
  - now apply (splitFirst_first _ _ _ _ Hs).
Qed.

(** X5. [new_text] is not inserted as it is: it is the replacement
    argument of [String.prototype.replace], so [$&] in it becomes the
    matched [old_text] and [$$] a single dollar sign. *)
Theorem edit_expands_dollar_patterns (content old_text before after pre post : string) :
  JSString.splitFirst content old_text = Some (before, after) ->
  occurs "$" pre = false -> occurs "$" post = false ->
  Main.applyEdits content [(old_text, pre +:+ "$&" +:+ post)]
  = (before +:+ pre +:+ old_text +:+ post +:+ after, 1)
  /\ Main.applyEdits content [(old_text, pre +:+ "$$" +:+ post)]
     = (before +:+ pre +:+ "$" +:+ post +:+ after, 1).
Proof.
  intros Hs Hpre Hpost. simpl. unfold JSString.includes, JSString.replace. rewrite Hs.
  rewrite (getSubstitution_app _ _ _ pre ("$&" +:+ post)) by exact Hpre.
  rewrite (getSubstitution_app _ _ _ pre ("$$" +:+ post)) by exact Hpre.
  change (JSString.getSubstitution old_text before after ("$&" +:+ post))
    with (old_text +:+ JSString.getSubstitution old_text before after post).
  change (JSString.getSubstitution old_text before after ("$$" +:+ post))
    with (String "$" (JSString.getSubstitution old_text before after post)).
  rewrite !getSubstitution_literal by exact Hpost.
  rewrite !append_assoc. split; reflexivity.
Qed.

End ToolExecutor.

Lemma write_then_read_witness :
  Main.fs_readFile (P := demo) demoRoot
    (snd (Main.fs_writeFile (P := demo) demoRoot demoDisk "/home/u/proj/app.js" "let y = 2;"))
    "proj/src/../app.js"
  = Ok "let y = 2;".
Proof.
  refine (proj2 (write_then_read (P := demo) demoRoot demoDisk "/home/u/proj/app.js"
                   "let y = 2;" _ _ _) "proj/src/../app.js" _).
  - vm_compute. reflexivity.
  - vm_compute. reflexivity.
  - vm_compute. discriminate.
  - vm_compute. reflexivity.
Defined.


Lemma edit_replaces_first_occurrence_witness :
  Main.applyEdits "x = x + 1" [("x", "total")] = ("total = x + 1", 1).
Proof.
  refine (proj1 (edit_replaces_first_occurrence "x = x + 1" "x" "total" EmptyString
                   " = x + 1" _ _)).
  - vm_compute. reflexivity.
  - vm_compute. reflexivity.
Defined.

Lemma edit_expands_dollar_patterns_witness :
  Main.applyEdits "cost: 5" [("5", "US$&")] = ("cost: US5", 1)
  /\ Main.applyEdits "cost: 5" [("5", "US$$")] = ("cost: US$", 1).
Proof.
  refine (edit_expands_dollar_patterns "cost: 5" "5" "cost: " EmptyString "US" EmptyString
            _ _ _).
  - vm_compute. reflexivity.
  - vm_compute. reflexivity.
  - vm_compute. reflexivity.
Defined.

(** ** The tool loop *)

Section ToolLoop.
Context {P : Platform}.

Definition resultId (b : Main.ApiBlock) : option string :=
  match b with Main.BToolResult i _ => Some i | _ => None end.

(** [results] answers the [tool_use] blocks of [asst]: one [tool_result]
    per block, with the id of the block, in the same order, and nothing
    else. *)
Definition answers (asst results : list Main.ApiBlock) : Prop :=
  List.map resultId results = List.map Some (Main.toolUseIds asst).

Definition sentByAssistant (b : Main.ApiBlock) : bool :=
  match b with Main.BText _ | Main.BToolUse _ => true | _ => false end.

(** One more exchange after the reply [r]: the assistant turn of [r], which
    holds its text and [tool_use] blocks in their order, and a user turn
    that answers its [tool_use] blocks. *)
Definition toolExchange (r : Main.Response) (a b : list Main.ApiMessage) : Prop :=
  exists results,
    b = a ++ [Main.mkApiMessage Main.RAssistant
                (Main.CBlocks (List.filter sentByAssistant (Main.resp_content r)));
              Main.mkApiMessage Main.RUser (Main.CBlocks results)]
    /\ answers (Main.resp_content r) results.

Lemma toolUseIds_app (a b : list Main.ApiBlock) :
  Main.toolUseIds (a ++ b) = Main.toolUseIds a ++ Main.toolUseIds b.
Proof.
  induction a as [|x a IH]; [reflexivity |].
  destruct x; simpl; rewrite ?IH; reflexivity.
Qed.

Lemma toolUseIds_filter (blocks : list Main.ApiBlock) :
  Main.toolUseIds (List.filter sentByAssistant blocks) = Main.toolUseIds blocks.
Proof.
  induction blocks as [|b blocks IH]; [reflexivity |].
  destruct b; simpl; rewrite ?IH; reflexivity.
Qed.

Lemma processBlock_turn (cwp : option string) (d : Disk) (now : N) (st : Main.LoopState)
    (b : Main.ApiBlock) :
  Main.assistantContent (Main.processBlock cwp d now st b)
  = Main.assistantContent st ++ List.filter sentByAssistant [b]
  /\ List.map resultId (Main.toolResults (Main.processBlock cwp d now st b))
     = List.map resultId (Main.toolResults st) ++ List.map Some (Main.toolUseIds [b]).
Proof.
  destruct b as [text|mt data|t|i c]; simpl; rewrite ?app_nil_r; try (split; reflexivity).
  destruct (JSString.includes _ DIFF_OPEN); simpl; rewrite List.map_app; split; reflexivity.
Qed.

(** The blocks of a response are copied to the assistant turn, and every
    [tool_use] block among them gets one result. *)
Lemma processBlocks_turn (cwp : option string) (d : Disk) (clock : nat -> N) (i : nat)
    (st : Main.LoopState) (blocks : list Main.ApiBlock) :
  Main.assistantContent (Main.processBlocks cwp d clock i st blocks)
  = Main.assistantContent st ++ List.filter sentByAssistant blocks
  /\ List.map resultId (Main.toolResults (Main.processBlocks cwp d clock i st blocks))
     = List.map resultId (Main.toolResults st) ++ List.map Some (Main.toolUseIds blocks).
Proof.
  revert i st; induction blocks as [|b blocks IH]; intros i st.
  - simpl. rewrite !app_nil_r. split; reflexivity.
  - change (Main.processBlocks cwp d clock i st (b :: blocks))
      with (Main.processBlocks cwp d clock (S i) (Main.processBlock cwp d (clock i) st b) blocks).
    destruct (IH (S i) (Main.processBlock cwp d (clock i) st b)) as [Ha Hr].
    destruct (processBlock_turn cwp d (clock i) st b) as [Ha1 Hr1].
    rewrite Ha, Hr, Ha1, Hr1. rewrite <- !app_assoc.
    change (b :: blocks) with ([b] ++ blocks).
    rewrite List.filter_app, toolUseIds_app, List.map_app. split; reflexivity.
Qed.

(** X6. The [messages] arrays sent to the provider during one
    [ai:sendMessage] form a chain: the first is the initial array, there
    is at most one more call than replies, and a further array is sent
    only after a reply that stopped for tool use; it is the array before
    it followed by the assistant turn of that reply (its text and
    [tool_use] blocks, in their order) and a user turn that holds exactly
    one [tool_result] for each [tool_use] block of the reply, with its id
    and in its order. *)
Theorem toolLoop_protocol (cwp : option string) (d : Disk) (replies : list Main.Response) :
  forall (clock : nat -> N) (apiMessages : list Main.ApiMessage) (text : string),
    let sent := fst (Main.toolLoop cwp d clock replies apiMessages text) in
    sent !! 0 = Some apiMessages
    /\ List.length sent <= S (List.length replies)
    /\ forall (k : nat) (a b : list Main.ApiMessage),
         sent !! k = Some a -> sent !! (S k) = Some b ->
         exists r, replies !! k = Some r
                   /\ Main.stop_reason r = Main.ToolUseStop
                   /\ toolExchange r a b.
Proof.
  induction replies as [|r replies IH]; intros clock apiMessages text; simpl.
  - split; [reflexivity |]. split; [lia |]. intros k a b _ Hb. destruct k; discriminate.
  - destruct (Main.stop_reason r) eqn:Hstop; simpl.
    + split; [reflexivity |]. split; [lia |]. intros k a b _ Hb. destruct k; discriminate.
    + set (st := Main.processBlocks cwp d clock 0 (Main.mkLoopState text [] [] [])
                   (Main.resp_content r)).
      specialize (IH (fun i => clock (i + List.length (Main.resp_content r)))
                    (apiMessages ++ Main.toolTurn st) (Main.fullText st)).
      destruct (Main.toolLoop cwp d _ replies (apiMessages ++ Main.toolTurn st)
                  (Main.fullText st)) as [sent out].
      simpl in IH. destruct IH as (H0 & Hlen & Hstep). simpl.
      split; [reflexivity |]. split; [lia |].
      intros [|k] a b Ha Hb; simpl in Ha, Hb.
      * injection Ha as <-. rewrite H0 in Hb. injection Hb as <-.
        exists r. split; [reflexivity |]. split; [exact Hstop |].
        destruct (processBlocks_turn cwp d clock 0 (Main.mkLoopState text [] [] [])
                    (Main.resp_content r)) as [Hasst Hres].
        fold st in Hasst, Hres. simpl in Hasst, Hres.
        exists (Main.toolResults st). split.
        -- unfold Main.toolTurn. now rewrite Hasst.
        -- exact Hres.
      * destruct (Hstep k a b Ha Hb) as (r' & Hr' & Hs' & Hex).
        exists r'. split; [exact Hr' |]. split; [exact Hs' | exact Hex].
    + split; [reflexivity |]. split; [lia |]. intros k a b _ Hb. destruct k; discriminate.
Qed.

(** [later] is [earlier] with more text after it. *)
Definition extendsText (later earlier : string) : Prop := exists t, later = earlier +:+ t.

Lemma extendsText_refl (s : string) : extendsText s s.
Proof. exists EmptyString. symmetry. apply append_nil_r. Qed.

Lemma extendsText_trans (a b c : string) :
  extendsText a b -> extendsText b c -> extendsText a c.
Proof. intros [t ->] [u ->]. exists (u +:+ t). apply append_assoc. Qed.

Lemma extendsText_app (s t : string) : extendsText (s +:+ t) s.
Proof. now exists t. Qed.

(** The texts sent on [ai:chunk] so far, latest first: each one extends
    the one sent before it, and all of them lie between [base] and the
    text so far. *)
Definition growing (base : string) (st : Main.LoopState) : Prop :=
  extendsText (Main.fullText st) base
  /\ StronglySorted extendsText (Main.chunks st)
  /\ Forall (fun c => extendsText (Main.fullText st) c /\ extendsText c base) (Main.chunks st).

Lemma processBlock_growing (cwp : option string) (d : Disk) (now : N) (base : string)
    (st : Main.LoopState) (b : Main.ApiBlock) :
  growing base st -> growing base (Main.processBlock cwp d now st b).
Proof.
  intros (Hb & Hs & Hall).
  destruct b as [text|mt data|t|i c]; simpl.
  - split; [|split]; simpl.
    + eapply extendsText_trans; [apply extendsText_app | exact Hb].
    + exact Hs.
    + eapply Forall_impl; [exact Hall |]. intros c [H1 H2]. split; [|exact H2].
      eapply extendsText_trans; [apply extendsText_app | exact H1].
  - repeat split; assumption.
  - set (t1 := Main.fullText st +:+ nl +:+ nl +:+ Main.statusMarker _ +:+ nl +:+ nl).
    set (res := Main.executeAITool cwp d now (Main.tu_name t) (Main.tu_input t)).
    set (t2 := t1 +:+ Main.statusMarker _).
    assert (E1 : extendsText t1 (Main.fullText st)) by apply extendsText_app.
    assert (E2 : extendsText t2 t1) by apply extendsText_app.
    assert (E3 : extendsText (t2 +:+ res) t2) by apply extendsText_app.
    assert (Hold : forall x, extendsText x (Main.fullText st) ->
                     Forall (extendsText x) (Main.chunks st)).
    { intros x Hx. eapply Forall_impl; [exact Hall |]. intros c [H1 _].
      eapply extendsText_trans; eassumption. }
    assert (Hold2 : forall x, extendsText x (Main.fullText st) ->
                      Forall (fun c => extendsText x c /\ extendsText c base)
                        (Main.chunks st)).
    { intros x Hx. eapply Forall_impl; [exact Hall |]. intros c [H1 H2]. split; [|exact H2].
      eapply extendsText_trans; eassumption. }
    pose proof (extendsText_trans _ _ _ E2 E1) as F2.
    pose proof (extendsText_trans _ _ _ E3 F2) as F3.
    pose proof (extendsText_trans _ _ _ E1 Hb) as B1.
    pose proof (extendsText_trans _ _ _ E2 B1) as B2.
    pose proof (extendsText_trans _ _ _ E3 B2) as B3.
    pose proof (extendsText_trans _ _ _ E3 E2) as E32.
    destruct (JSString.includes res DIFF_OPEN); simpl.
    + split; [|split]; simpl.
      * exact B3.
      * repeat constructor; auto.
      * repeat constructor; auto using extendsText_refl.
    + split; [|split]; simpl.
      * exact B2.
      * repeat constructor; auto.
      * repeat constructor; auto using extendsText_refl.
  - repeat split; assumption.
Qed.

(** X7. While the blocks of a response are processed the streamed text
    only grows: the text at the end extends the text at the start, every
    text sent on [ai:chunk] extends the one sent before it, and the text at
    the end extends them all, so a marker that was sent never disappears
    from a later text. *)
Theorem streamed_text_grows (cwp : option string) (d : Disk) (clock : nat -> N)
    (text : string) (blocks : list Main.ApiBlock) :
  growing text (Main.processBlocks cwp d clock 0 (Main.mkLoopState text [] [] []) blocks).
Proof.
  assert (G : forall i st, growing text st ->
                growing text (Main.processBlocks cwp d clock i st blocks)).
  { induction blocks as [|b blocks IH]; intros i st Hst; [exact Hst |].
    simpl. apply IH. now apply processBlock_growing. }
  apply G. split; [apply extendsText_refl |]. split; constructor.
Qed.

End ToolLoop.

(** ** Images and the workspace path, from the renderer to the main process *)

Section Images.
Context {P : Platform}.

Fixpoint allWord (s : string) : bool :=
  match s with
  | EmptyString => true
  | String c r => Main.isWordChar c && allWord r
  end.

Lemma spanWord_stop (w rest : string) :
  allWord w = true -> Main.spanWord (w +:+ String ";" rest) = (w, String ";" rest).
Proof.
  induction w as [|c w IH]; intros H; [reflexivity |].
  simpl in H. apply andb_true_iff in H as [Hc Hw].
  rewrite append_cons. simpl. rewrite Hc, (IH Hw). reflexivity.
Qed.

Lemma matchDataUri_word (w data : string) :
  allWord w = true -> JSString.truthy w = true ->
  JSString.truthy data = true -> Main.noLineBreak data = true ->
  Main.matchDataUri ("data:image/" +:+ w +:+ ";base64," +:+ data) = Some ("image/" +:+ w, data).
Proof.
  intros Hw Hne Hd Hl. unfold Main.matchDataUri.
  rewrite startsWith_append.
  rewrite drop_append by (simpl; lia).
  change (JSString.drop 11 "data:image/") with EmptyString. rewrite append_nil_l.
  change (";base64," +:+ data) with (String ";" ("base64," +:+ data)).
  rewrite (spanWord_stop _ _ Hw). rewrite Hne.
  change (String ";" ("base64," +:+ data)) with (";base64," +:+ data).
  rewrite startsWith_append. simpl andb. cbv iota.
  rewrite drop_append by (simpl; lia).
  change (JSString.drop 8 ";base64,") with EmptyString. rewrite append_nil_l.
  now rewrite Hd, Hl.
Qed.

Lemma spanWord_allWord (s : string) : allWord (fst (Main.spanWord s)) = true.
Proof.
  induction s as [|c s IH]; [reflexivity |]. simpl.
  destruct (Main.isWordChar c) eqn:E; [|reflexivity].
  destruct (Main.spanWord s) as [w rest]. simpl in *. now rewrite E, IH.
Qed.

(** What the pattern takes as the media type is made of word characters,
    and what it takes as the data is not empty and holds no line break. *)
Lemma matchDataUri_inv (uri mediaType data : string) :
  Main.matchDataUri uri = Some (mediaType, data) ->
  (exists w, mediaType = "image/" +:+ w /\ allWord w = true)
  /\ JSString.truthy data = true /\ Main.noLineBreak data = true.
Proof.
  unfold Main.matchDataUri.
  destruct (JSString.startsWith uri "data:image/"); [|discriminate].
  pose proof (spanWord_allWord (JSString.drop 11 uri)) as Hw.
  destruct (Main.spanWord (JSString.drop 11 uri)) as [w rest]. simpl in Hw.
  destruct (JSString.truthy w && JSString.startsWith rest ";base64,"); [|discriminate].
  destruct (JSString.truthy (JSString.drop 8 rest)) eqn:Hd; [|discriminate].
  destruct (Main.noLineBreak (JSString.drop 8 rest)) eqn:Hl; [|discriminate].
  simpl. intros [= <- <-]. split; [now exists w |]. split; assumption.
Qed.

(** X8. The data URI that [dialog:selectImage] returns for a file is read
    back by [ai:sendMessage] as one image block with the media type and
    the data of the selection exactly when the extension of the file
    consists of word characters and the base64 text is not empty and
    holds no line break.  In every other case the image is dropped, or
    sent with another media type or other data. *)
Theorem selected_image_is_sent (filePath base64Image : string) :
  Main.imageBlocks [Main.selectedImageUri filePath base64Image]
  = [Main.BImage (Main.imageMime (Main.imageExt filePath)) base64Image]
  <-> allWord (Main.imageExt filePath) = true
      /\ JSString.truthy base64Image = true
      /\ Main.noLineBreak base64Image = true.
Proof.
  split.
  - simpl Main.imageBlocks.
    destruct (Main.matchDataUri (Main.selectedImageUri filePath base64Image))
      as [[mediaType data]|] eqn:E; [|discriminate].
    intros [= -> ->].
    destruct (matchDataUri_inv _ _ _ E) as ((w & Hm & Hw) & Hd & Hl).
    split; [|split; assumption].
    unfold Main.imageMime in Hm.
    destruct (String.eqb_spec (Main.imageExt filePath) "jpg") as [->|Hne]; [reflexivity |].
    change ("image/" +:+ Main.imageExt filePath)
      with (String "i" (String "m" (String "a" (String "g" (String "e" (String "/"
              (Main.imageExt filePath))))))) in Hm.
    change ("image/" +:+ w)
      with (String "i" (String "m" (String "a" (String "g" (String "e" (String "/" w))))))
      in Hm.
    injection Hm as ->. exact Hw.
  - intros (Hw & Hd & Hl).
    assert (Hne : JSString.truthy (Main.imageExt filePath) = true).
    { unfold Main.imageExt.
      destruct (JSString.truthy (toLowerCase _)) eqn:E; [exact E | reflexivity]. }
    unfold Main.selectedImageUri, Main.imageMime. simpl Main.imageBlocks.
    destruct (String.eqb_spec (Main.imageExt filePath) "jpg") as [E|E].
    + change ("data:" +:+ "image/jpeg" +:+ ";base64," +:+ base64Image)
        with ("data:image/" +:+ "jpeg" +:+ ";base64," +:+ base64Image).
      rewrite matchDataUri_word by (reflexivity || assumption). reflexivity.
    + replace ("data:" +:+ ("image/" +:+ Main.imageExt filePath) +:+ ";base64," +:+ base64Image)
        with ("data:image/" +:+ Main.imageExt filePath +:+ ";base64," +:+ base64Image)
        by reflexivity.
      rewrite matchDataUri_word by assumption. reflexivity.
Qed.

(** A line without the label, with its line break, is passed over. *)
Lemma matchPathLine_skip_line (line rest : string) :
  JSString.includes line Main.PATH_LABEL = false ->
  Main.matchPathLine (line +:+ nl +:+ rest) = Main.matchPathLine rest.
Proof.
  induction line as [|c line IH]; intros H; [reflexivity |].
  apply includes_cons in H as [Hs Hi].
  rewrite append_cons.
  change (Main.matchPathLine (String c (line +:+ nl +:+ rest)))
    with (if JSString.startsWith (String c (line +:+ nl +:+ rest)) Main.PATH_LABEL
          then match Main.takeLine (JSString.drop 10 (String c (line +:+ nl +:+ rest))) with
               | EmptyString => Main.matchPathLine (line +:+ nl +:+ rest)
               | String d l => Some (String d l)
               end
          else Main.matchPathLine (line +:+ nl +:+ rest)).
  rewrite <- append_cons.
  change (nl +:+ rest) with (String "010" rest) at 1.
  rewrite (startsWith_sep (String c line) rest Main.PATH_LABEL "010" eq_refl Hs).
  now apply IH.
Qed.

Lemma takeLine_line (line rest : string) :
  Main.noLineBreak line = true -> Main.takeLine (line +:+ nl +:+ rest) = line.
Proof.
  induction line as [|c line IH]; intros H; [reflexivity |].
  simpl in H. apply andb_true_iff in H as [Hc Hl]. rewrite append_cons. simpl.
  unfold Main.isLineBreak. apply negb_true_iff in Hc. rewrite Hc. f_equal. now apply IH.
Qed.

(** X9. The workspace root that the tools use is the project path of the
    prompt: when the context has a project path without line break, and
    the project name does not hold the text of the path label, the pattern
    of [ai:sendMessage] finds the project line of [buildSystemPrompt] and
    [currentWorkspacePath] becomes the trimmed project path, whatever file
    tree, open file and tabs the prompt lists after it. *)
Theorem prompt_carries_project_path (context : ContextService.WorkspaceContext)
    (previous : option string) :
  JSString.truthy (ContextService.projectPath context) = true ->
  Main.noLineBreak (ContextService.projectPath context) = true ->
  JSString.includes (ContextService.projectName context) Main.PATH_LABEL = false ->
  Main.scopeFromPrompt previous (ContextService.buildSystemPrompt context)
  = Some (JSString.trim (ContextService.projectPath context)).
Proof.
  intros Hne Hline Hname.
  unfold Main.scopeFromPrompt, ContextService.buildSystemPrompt. rewrite Hne.
  cbn [List.app]. rewrite !joinWith_cons.
  rewrite !append_assoc.
  match goal with
  | |- context [Main.matchPathLine (?a +:+ nl +:+ ?b +:+ nl +:+ EmptyString +:+ nl +:+ ?c
                                    +:+ nl +:+ "- **Name**: " +:+ ?z)] =>
      change (Main.matchPathLine (a +:+ nl +:+ b +:+ nl +:+ EmptyString +:+ nl +:+ c
                                  +:+ nl +:+ "- **Name**: " +:+ z))
        with (Main.matchPathLine z)
  end.
  rewrite matchPathLine_skip_line by exact Hname.
  match goal with
  | |- context [Main.matchPathLine ("- **Path**: " +:+ ?p +:+ nl +:+ ?r)] =>
      change (Main.matchPathLine ("- **Path**: " +:+ p +:+ nl +:+ r))
        with (match Main.takeLine (p +:+ nl +:+ r) with
              | EmptyString => Main.matchPathLine ("*Path**: " +:+ p +:+ nl +:+ r)
              | String d l => Some (String d l)
              end)
  end.
  rewrite takeLine_line by exact Hline.
  destruct (ContextService.projectPath context); [discriminate | reflexivity].
Qed.

End Images.

Lemma selected_image_is_sent_witness :
  Main.imageBlocks
    [Main.selectedImageUri (P := demo) "/home/u/Pictures/Shot.JPG" "/9j/4AAQSkZJRg=="]
  = [Main.BImage "image/jpeg" "/9j/4AAQSkZJRg=="].
Proof.
  refine (proj2 (selected_image_is_sent (P := demo) "/home/u/Pictures/Shot.JPG"
                   "/9j/4AAQSkZJRg==") _).
  repeat split; vm_compute; reflexivity.
Defined.

(** An extension that is not made of word characters: the image of
    [shot.a;base64,b] is sent with the media type [image/a] and with the
    rest of the extension in front of its data, and the image of
    [shot.my-pic] is dropped. *)
Example selected_image_odd_extension :
  Main.imageBlocks [Main.selectedImageUri (P := demo) "/home/u/shot.a;base64,b" "QUJD"]
  = [Main.BImage "image/a" "b;base64,QUJD"]
  /\ Main.imageBlocks [Main.selectedImageUri (P := demo) "/home/u/shot.my-pic" "QUJD"] = [].
Proof. split; vm_compute; reflexivity. Qed.

Definition demoContext : ContextService.WorkspaceContext :=
  ContextService.mkContext "proj" "/home/u/proj" "📁 src/"
    (Some (ContextService.mkActiveFile "/home/u/proj/app.js" "let x = 1;" "javascript" 1 1))
    ["/home/u/proj/app.js"; "/home/u/proj/src/components/Button.tsx"].

Lemma prompt_carries_project_path_witness :
  Main.scopeFromPrompt None (ContextService.buildSystemPrompt demoContext) = demoRoot.
Proof.
  refine (prompt_carries_project_path demoContext None _ _ _).
  - vm_compute. reflexivity.
  - vm_compute. reflexivity.
  - vm_compute. reflexivity.
Defined.

(** ** The chat store *)

Section Sessions.

Import ChatStore.

(** The active id names a session of the store. *)
Definition activeExists (st : Store) : Prop :=
  exists a, activeSessionId st = Some a /\ In a (List.map ss_id (sessions st)).

Lemma map_ids_cond (f : StoredSession -> StoredSession) (c : StoredSession -> bool)
    (l : list StoredSession) :
  (forall s, ss_id (f s) = ss_id s) ->
  List.map ss_id (List.map (fun s => if c s then f s else s) l) = List.map ss_id l.
Proof.
  intros Hf. rewrite List.map_map. apply List.map_ext. intros s.
  destruct (c s); [apply Hf | reflexivity].
Qed.

Lemma addMessage_ids (st : Store) (m : Message) (now : N) :
  List.map ss_id (sessions (addMessage st m now)) = List.map ss_id (sessions st).
Proof. unfold addMessage. simpl. now apply map_ids_cond. Qed.

Lemma updateStoredMessage_ids (st : Store) (id text : string) (now : N) :
  List.map ss_id (sessions (updateStoredMessage st id text now)) = List.map ss_id (sessions st).
Proof. unfold updateStoredMessage. simpl. now apply map_ids_cond. Qed.

Lemma clearMessages_ids (st : Store) (now : N) :
  List.map ss_id (sessions (clearMessages st now)) = List.map ss_id (sessions st).
Proof. unfold clearMessages. simpl. now apply map_ids_cond. Qed.

Lemma updateSessionTitle_ids (st : Store) (id title : string) (now : N) :
  List.map ss_id (sessions (updateSessionTitle st id title now)) = List.map ss_id (sessions st).
Proof.
  unfold updateSessionTitle. simpl.
  apply (map_ids_cond (fun s => mkStored (ss_session s) title (ss_createdAt s) now)).
  reflexivity.
Qed.

Lemma lastId_in (l : list StoredSession) (a : string) :
  lastId l = Some a -> In a (List.map ss_id l).
Proof.
  unfold lastId. destruct (List.rev l) as [|s r] eqn:E; [discriminate |].
  intros [= <-]. apply List.in_map. apply List.in_rev. rewrite E. now left.
Qed.

(** X10. Once the active id names a session of the store it does so after
    every store action: creating a session, deleting any session (the
    last remaining session becomes active, or a fresh one when none is
    left), retitling, adding or updating a message, clearing the
    messages, and switching to a session of the store. *)
Theorem active_session_survives (st : Store) :
  activeExists st ->
  (forall id now, activeExists (createSession st id now))
  /\ (forall id freshId now, activeExists (deleteSession st id freshId now))
  /\ (forall id title now, activeExists (updateSessionTitle st id title now))
  /\ (forall m now, activeExists (addMessage st m now))
  /\ (forall id text now, activeExists (updateStoredMessage st id text now))
  /\ (forall now, activeExists (clearMessages st now))
  /\ (forall id, In id (List.map ss_id (sessions st)) -> activeExists (switchSession st id)).
Proof.
  intros (a & Ha & Hin). repeat split.
  - intros id now. exists id. split; [reflexivity |].
    simpl. rewrite List.map_app. apply List.in_or_app. right. now left.
  - intros id freshId now. unfold deleteSession. rewrite Ha.
    destruct (String.eqb_spec a id) as [->|Hne].
    + destruct (lastId _) as [l|] eqn:E.
      * exists l. split; [reflexivity |]. now apply lastId_in.
      * exists freshId. split; [reflexivity |]. simpl. rewrite List.map_app.
        apply List.in_or_app. right. now left.
    + exists a. split; [reflexivity |]. simpl.
      apply List.in_map_iff in Hin as (s & Hs & Hin).
      apply List.in_map_iff. exists s. split; [exact Hs |].
      apply List.filter_In. split; [exact Hin |].
      rewrite Hs. apply negb_true_iff. now apply String.eqb_neq.
  - intros id title now. exists a. split; [exact Ha |]. now rewrite updateSessionTitle_ids.
  - intros m now. exists a. split; [exact Ha |]. now rewrite addMessage_ids.
  - intros id text now. exists a. split; [exact Ha |]. now rewrite updateStoredMessage_ids.
  - intros now. exists a. split; [exact Ha |]. now rewrite clearMessages_ids.
  - intros id Hid. exists id. split; [reflexivity | exact Hid].
Qed.

(** What a message contributes to the history sent to the provider. *)
Definition historyEntry (m : Message) : list (Main.Role * string) :=
  if negb (String.eqb (msg_id m) "welcome") && JSString.truthy (JSString.trim (msg_text m))
  then [(match msg_role m with Model => Main.RAssistant | User => Main.RUser end, msg_text m)]
  else [].

Lemma find_map_cond (a : string) (f : StoredSession -> StoredSession)
    (l : list StoredSession) :
  (forall s, ss_id (f s) = ss_id s) ->
  List.find (fun s => String.eqb (session_id s) a)
    (List.map ss_session
       (List.map (fun s => if String.eqb (ss_id s) a then f s else s) l))
  = option_map (fun s => ss_session (f s))
      (List.find (fun s => String.eqb (ss_id s) a) l).
Proof.
  intros Hf. induction l as [|s l IH]; [reflexivity |]. simpl.
  destruct (String.eqb (ss_id s) a) eqn:E.
  - fold (ss_id (f s)). rewrite Hf, E. reflexivity.
  - fold (ss_id s). rewrite E. exact IH.
Qed.

Lemma find_sessions (a : string) (l : list StoredSession) :
  List.find (fun s => String.eqb (session_id s) a) (List.map ss_session l)
  = option_map ss_session (List.find (fun s => String.eqb (ss_id s) a) l).
Proof.
  induction l as [|s l IH]; [reflexivity |]. simpl. fold (ss_id s).
  destruct (String.eqb (ss_id s) a); [reflexivity | exact IH].
Qed.

Lemma storeHistory_addMessage (st : Store) (m : Message) (now : N) :
  activeExists st ->
  storeHistory (addMessage st m now) = storeHistory st ++ historyEntry m.
Proof.
  intros (a & Ha & Hin).
  unfold storeHistory, addMessage, getConversationHistory, getActiveSession, isActive.
  simpl. rewrite Ha.
  rewrite (find_map_cond a
             (fun s => mkStored
                         (mkSession (ss_id s) (session_messages (ss_session s) ++ [m]))
                         (if String.eqb (ss_title s) NEW_CHAT && isUser (msg_role m)
                          then autoTitle (msg_text m) else ss_title s)
                         (ss_createdAt s) now)) by reflexivity.
  rewrite find_sessions.
  destruct (List.find (fun s => String.eqb (ss_id s) a) (sessions st)) as [s|] eqn:E.
  - simpl. rewrite List.filter_app, List.map_app. f_equal.
    unfold historyEntry. simpl.
    destruct (negb (String.eqb (msg_id m) "welcome")
              && JSString.truthy (JSString.trim (msg_text m))); reflexivity.
  - exfalso. apply List.in_map_iff in Hin as (s & Hs & Hin).
    apply (List.find_none _ _ E) in Hin. rewrite Hs, String.eqb_refl in Hin. discriminate.
Qed.

(** X11. Adding a message to a store whose active session exists extends
    the history sent to the provider by that message alone (by nothing
    when its id is [welcome] or its text is blank), keeps the session ids,
    and leaves every session that is not the active one as it was. *)
Theorem history_after_addMessage (st : Store) (m : Message) (now : N) :
  activeExists st ->
  storeHistory (addMessage st m now) = storeHistory st ++ historyEntry m
  /\ List.map ss_id (sessions (addMessage st m now)) = List.map ss_id (sessions st)
  /\ List.filter (fun s => negb (isActive st s)) (sessions (addMessage st m now))
     = List.filter (fun s => negb (isActive st s)) (sessions st).
Proof.
  intros H. split; [now apply storeHistory_addMessage |]. split; [apply addMessage_ids |].
  unfold addMessage. simpl. induction (sessions st) as [|s l IH]; [reflexivity |].
  simpl. destruct (isActive st s) eqn:E.
  - unfold isActive in *. simpl. fold (ss_id s). destruct (activeSessionId st); [|discriminate].
    unfold ss_id at 1. simpl. fold (ss_id s). rewrite E. simpl. exact IH.
  - rewrite E. simpl. now rewrite IH.
Qed.

(** X12. After [clearMessages] the history sent to the provider is empty,
    whatever the store held. *)
Theorem history_after_clearMessages (st : Store) (now : N) :
  storeHistory (clearMessages st now) = [].
Proof.
  unfold storeHistory, clearMessages, getConversationHistory, getActiveSession, isActive.
  simpl. destruct (activeSessionId st) as [a|]; [|reflexivity].
  rewrite (find_map_cond a
             (fun s => mkStored (mkSession (ss_id s) [welcome]) NEW_CHAT (ss_createdAt s) now))
    by reflexivity.
  destruct (List.find _ (sessions st)); reflexivity.
Qed.

Lemma removeAt_past (index i : nat) (l : list string) :
  index < i -> removeAt index i l = l.
Proof.
  revert i; induction l as [|x l IH]; intros i Hi; [reflexivity |].
  simpl. destruct (Nat.eqb_spec i index); [lia |]. f_equal. apply IH. lia.
Qed.

Lemma removeAt_from (index i : nat) (l : list string) :
  i <= index ->
  removeAt index i l = List.firstn (index - i) l ++ List.skipn (S (index - i)) l.
Proof.
  revert i; induction l as [|x l IH]; intros i Hi.
  - simpl. now rewrite List.firstn_nil.
  - simpl. destruct (Nat.eqb_spec i index) as [->|Hne].
    + rewrite Nat.sub_diag. simpl. apply removeAt_past. lia.
    + rewrite IH by lia. replace (index - i) with (S (index - S i)) by lia. reflexivity.
Qed.

(** X13. [removePendingImage(index)] takes out the image at that index
    and keeps the others in their order; an index past the end changes
    nothing. *)
Theorem removePendingImage_splice (st : Store) (index : nat) :
  pendingImages (removePendingImage st index)
  = List.firstn index (pendingImages st) ++ List.skipn (S index) (pendingImages st).
Proof.
  unfold removePendingImage. simpl. rewrite removeAt_from by lia.
  now rewrite Nat.sub_0_r.
Qed.

Lemma ofN_not_welcome (n : N) : String.eqb (JSString.ofN n) "welcome" = false.
Proof.
  unfold JSString.ofN. destruct (N.to_uint n); reflexivity.
Qed.

Lemma handleSendMessage_sent (st : Store) (inputValue : string) (clock : nat -> N) :
  activeExists st ->
  JSString.truthy (JSString.trim inputValue) = true ->
  snd (ChatPanel.handleSendMessage st inputValue false clock)
  = Some (ChatPanel.mkSent (JSString.trim inputValue) (pendingImages st)
            (storeHistory st ++ [(Main.RUser, JSString.trim inputValue)])).
Proof.
  intros Hact Hne. unfold ChatPanel.handleSendMessage. rewrite Hne. simpl.
  do 2 f_equal.
  assert (H1 : activeExists (clearPendingImages st)) by exact Hact.
  rewrite storeHistory_addMessage.
  2:{ destruct H1 as (a & Ha & Hin). exists a. split; [exact Ha |].
      now rewrite addMessage_ids. }
  rewrite storeHistory_addMessage by exact H1.
  unfold historyEntry. simpl. rewrite ofN_not_welcome, ofN_not_welcome.
  rewrite trim_idem, Hne. simpl. rewrite app_nil_r. reflexivity.
Qed.

(** X14. A typed message reaches the provider twice.  [handleSendMessage]
    adds the user message to the store before it reads the history, so
    the history it sends ends with that message, and [ai:sendMessage]
    appends the current message to the history it was given: the array of
    the first provider call is the earlier history followed by two user
    turns for the same input (the second one also carries the images). *)
Theorem typed_message_is_sent_twice (st : ChatStore.Store) (inputValue : string)
    (clock : nat -> N) :
  activeExists st ->
  JSString.truthy (JSString.trim inputValue) = true ->
  exists sent current,
    snd (ChatPanel.handleSendMessage st inputValue false clock) = Some sent
    /\ Main.initialApiMessages (ChatPanel.sent_message sent) (ChatPanel.sent_images sent)
         (ChatPanel.sent_history sent)
       = List.map (fun m => Main.mkApiMessage (fst m) (Main.CString (snd m))) (storeHistory st)
         ++ [Main.mkApiMessage Main.RUser (Main.CString (JSString.trim inputValue));
             Main.mkApiMessage Main.RUser current]
    /\ (pendingImages st = [] -> current = Main.CString (JSString.trim inputValue)).
Proof.
  intros Hact Hne. eexists. eexists. split; [now apply handleSendMessage_sent |].
  unfold Main.initialApiMessages. simpl. rewrite Hne.
  rewrite List.map_app, <- List.app_assoc. simpl. split; [reflexivity |].
  intros ->. reflexivity.
Qed.

End Sessions.

Definition demoStore : ChatStore.Store :=
  ChatStore.mkStore
    [ChatStore.mkStored
       (ChatStore.mkSession "s1"
          [ChatStore.welcome;
           ChatStore.mkMessage "1" ChatStore.User "rename x to y in app.js";
           ChatStore.mkMessage "2" ChatStore.Model "Done."])
       "rename x to y in app.js" 1700000000000 1700000000500;
     ChatStore.createNewSession "s2" 1700000001000]
    (Some "s1") [].

Lemma demoStore_active : activeExists demoStore.
Proof. exists "s1". split; [reflexivity | now left]. Defined.

Lemma active_session_survives_witness :
  ChatStore.activeSessionId (ChatStore.deleteSession demoStore "s1" "s3" 1700000002000)
  = Some "s2"
  /\ activeExists (ChatStore.deleteSession demoStore "s1" "s3" 1700000002000)
  /\ activeExists
       (ChatStore.deleteSession (ChatStore.deleteSession demoStore "s1" "s3" 1700000002000)
          "s2" "s3" 1700000003000).
Proof.
  split; [reflexivity |]. split.
  - exact (proj1 (proj2 (active_session_survives demoStore demoStore_active))
             "s1" "s3" 1700000002000%N).
  - exact (proj1 (proj2 (active_session_survives _
                           (proj1 (proj2 (active_session_survives demoStore demoStore_active))
                              "s1" "s3" 1700000002000%N)))
             "s2" "s3" 1700000003000%N).
Defined.

Lemma history_after_addMessage_witness :
  ChatStore.storeHistory
    (ChatStore.addMessage demoStore (ChatStore.mkMessage "3" ChatStore.User "now rename y to z")
       1700000004000)
  = [(Main.RUser, "rename x to y in app.js"); (Main.RAssistant, "Done.");
     (Main.RUser, "now rename y to z")].
Proof.
  exact (proj1 (history_after_addMessage demoStore
                  (ChatStore.mkMessage "3" ChatStore.User "now rename y to z")
                  1700000004000 demoStore_active)).
Defined.

Lemma typed_message_is_sent_twice_witness :
  exists sent current,
    snd (ChatPanel.handleSendMessage demoStore "  now rename y to z " false
           (fun i => 1700000004000 + N.of_nat i)%N) = Some sent
    /\ Main.initialApiMessages (ChatPanel.sent_message sent) (ChatPanel.sent_images sent)
         (ChatPanel.sent_history sent)
       = [Main.mkApiMessage Main.RUser (Main.CString "rename x to y in app.js");
          Main.mkApiMessage Main.RAssistant (Main.CString "Done.");
          Main.mkApiMessage Main.RUser (Main.CString "now rename y to z");
          Main.mkApiMessage Main.RUser current]
    /\ (ChatStore.pendingImages demoStore = [] -> current = Main.CString "now rename y to z").
Proof.
  refine (typed_message_is_sent_twice demoStore "  now rename y to z "
            (fun i => 1700000004000 + N.of_nat i)%N demoStore_active _).
  vm_compute. reflexivity.
Defined.

(** ** Message rendering *)

Section Markers.
Context {P : Platform}.

Import ChatStore MessageList.

Lemma matchAll_none (fuel : nat) (opening closing text : string) :
  JSString.includes text opening = false -> matchAll fuel opening closing text = [].
Proof.
  unfold JSString.includes. intros H. destruct fuel; [reflexivity |]. simpl.
  destruct (JSString.splitFirst text opening); [discriminate | reflexivity].
Qed.

(** X15. A text that holds neither opening delimiter is rendered as it
    is: the clean text is the trimmed text, and no proposal and no tool
    status is decoded from it. *)
Theorem plain_text_is_untouched (text : string) :
  JSString.includes text DIFF_OPEN = false ->
  JSString.includes text STATUS_OPEN = false ->
  parseMessageContent text = mkParsed (JSString.trim text) [] [].
Proof.
  intros Hd Hs. unfold parseMessageContent, bodies.
  rewrite (matchAll_none _ _ _ _ Hd), (matchAll_none _ _ _ _ Hs). reflexivity.
Qed.

(** A single marker whose body does not hold the closing delimiter is
    what the scan isolates. *)
Lemma bodies_single (before body after : string) :
  JSString.includes before DIFF_OPEN = false ->
  JSString.includes body DIFF_CLOSE = false ->
  JSString.includes after DIFF_OPEN = false ->
  bodies DIFF_OPEN DIFF_CLOSE (before +:+ DIFF_OPEN +:+ body +:+ DIFF_CLOSE +:+ after) = [body].
Proof.
  intros Hb Hbody Ha. unfold bodies.
  destruct (String.length _) as [|n] eqn:En.
  { rewrite !length_append in En. simpl in En. lia. }
  assert (E1 : JSString.splitFirst
                 (before +:+ DIFF_OPEN +:+ body +:+ DIFF_CLOSE +:+ after) DIFF_OPEN
               = Some (before, body +:+ DIFF_CLOSE +:+ after))
    by (apply (splitFirst_at before _ "[" "DIFF_BLOCK]"); [reflexivity | exact Hb]).
  assert (E2 : JSString.splitFirst (body +:+ DIFF_CLOSE +:+ after) DIFF_CLOSE
               = Some (body, after))
    by (apply (splitFirst_at body _ "[" "/DIFF_BLOCK]"); [reflexivity | exact Hbody]).
  change (matchAll (S n) DIFF_OPEN DIFF_CLOSE
            (before +:+ DIFF_OPEN +:+ body +:+ DIFF_CLOSE +:+ after))
    with (match JSString.splitFirst
                  (before +:+ DIFF_OPEN +:+ body +:+ DIFF_CLOSE +:+ after) DIFF_OPEN with
          | None => []
          | Some (_, afterOpen) =>
              match JSString.splitFirst afterOpen DIFF_CLOSE with
              | None => []
              | Some (b, rest) => b :: matchAll n DIFF_OPEN DIFF_CLOSE rest
              end
          end).
  rewrite E1, E2. now rewrite matchAll_none.
Qed.

Lemma edits_single (before after : string) (e : ProposedEdit) :
  JSString.includes before DIFF_OPEN = false ->
  JSString.includes (Json.stringify (proposedEditJson e)) DIFF_CLOSE = false ->
  JSString.includes after DIFF_OPEN = false ->
  edits (parseMessageContent
           (before +:+ DIFF_OPEN +:+ Json.stringify (proposedEditJson e)
            +:+ DIFF_CLOSE +:+ after))
  = [e].
Proof.
  intros Hb Hp Ha. rewrite parse_edits, (bodies_single _ _ _ Hb Hp Ha).
  change (omap decodeEdit [Json.stringify (proposedEditJson e)])
    with (match decodeEdit (Json.stringify (proposedEditJson e)) with
          | Some x => [x]
          | None => []
          end).
  now rewrite decodeEdit_stringify.
Qed.



End Markers.

Lemma plain_text_is_untouched_witness :
  MessageList.parseMessageContent (P := demo) "  Use a[0] and [x] here.  "
  = MessageList.mkParsed "Use a[0] and [x] here." [] [].
Proof.
  refine (plain_text_is_untouched (P := demo) "  Use a[0] and [x] here.  " _ _).
  - vm_compute. reflexivity.
  - vm_compute. reflexivity.
Defined.



(** ** The diff view *)

Section Diff.

Import DiffBlock.

Lemma sameLine_true (a b : option string) :
  sameLine a b = true -> exists x, a = Some x /\ b = Some x.
Proof.
  destruct a as [x|], b as [y|]; simpl; try discriminate.
  intros ->%String.eqb_eq. eauto.
Qed.

Lemma sameLine_refl (l : list string) (i : nat) :
  i < List.length l -> sameLine (nth_error l i) (nth_error l i) = true.
Proof.
  intros H. destruct (nth_error l i) eqn:E.
  - simpl. apply String.eqb_refl.
  - apply List.nth_error_None in E. lia.
Qed.

Lemma firstn_S_nth (l : list string) (k : nat) (x : string) :
  nth_error l k = Some x -> List.firstn (S k) l = List.firstn k l ++ [x].
Proof.
  revert k; induction l as [|y l IH]; intros [|k] H; simpl in *; try discriminate.
  - now injection H as ->.
  - f_equal. now apply IH.
Qed.

Lemma skipn_nth (l : list string) (k : nat) (x : string) :
  nth_error l k = Some x -> List.skipn k l = x :: List.skipn (S k) l.
Proof.
  revert k; induction l as [|y l IH]; intros [|k] H; simpl in *; try discriminate.
  - now injection H as ->.
  - now apply IH.
Qed.

(** The conditions of the two [while] loops. *)
Definition prefixCond (oldLines newLines : list string) (k : nat) : bool :=
  (k <? List.length oldLines)%nat && (k <? List.length newLines)%nat
  && sameLine (nth_error oldLines k) (nth_error newLines k).

Definition suffixCond (oldLines newLines : list string) (p k : nat) : bool :=
  (k <? List.length oldLines - p)%nat && (k <? List.length newLines - p)%nat
  && sameLine (nth_error oldLines (List.length oldLines - 1 - k))
              (nth_error newLines (List.length newLines - 1 - k)).

Lemma prefixLoop_inv (oldLines newLines : list string) (fuel k : nat) :
  k <= List.length oldLines -> k <= List.length newLines ->
  List.firstn k oldLines = List.firstn k newLines ->
  let r := prefixLoop fuel k oldLines newLines in
  r <= List.length oldLines /\ r <= List.length newLines
  /\ List.firstn r oldLines = List.firstn r newLines.
Proof.
  revert k; induction fuel as [|f IH]; intros k Ho Hn He; simpl; [auto |].
  fold (prefixCond oldLines newLines k).
  destruct (prefixCond oldLines newLines k) eqn:E; [|auto].
  unfold prefixCond in E. apply andb_true_iff in E as [E Hs].
  apply andb_true_iff in E as [E1 E2].
  apply Nat.ltb_lt in E1, E2. apply sameLine_true in Hs as (x & Hx & Hy).
  apply IH; [lia | lia |].
  rewrite (firstn_S_nth _ _ _ Hx), (firstn_S_nth _ _ _ Hy). now rewrite He.
Qed.

(** The fuel covers the loop: it ends because its condition fails. *)
Lemma prefixLoop_stop (oldLines newLines : list string) (fuel k : nat) :
  List.length oldLines <= fuel + k ->
  prefixCond oldLines newLines (prefixLoop fuel k oldLines newLines) = false.
Proof.
  revert k; induction fuel as [|f IH]; intros k H; simpl.
  - unfold prefixCond. destruct (Nat.ltb_spec k (List.length oldLines)); [lia | reflexivity].
  - fold (prefixCond oldLines newLines k).
    destruct (prefixCond oldLines newLines k) eqn:E; [apply IH; lia | exact E].
Qed.

Lemma suffixLoop_inv (oldLines newLines : list string) (p fuel k : nat) :
  k <= List.length oldLines - p -> k <= List.length newLines - p ->
  List.skipn (List.length oldLines - k) oldLines = List.skipn (List.length newLines - k) newLines ->
  let r := suffixLoop fuel p k oldLines newLines in
  r <= List.length oldLines - p /\ r <= List.length newLines - p
  /\ List.skipn (List.length oldLines - r) oldLines
     = List.skipn (List.length newLines - r) newLines.
Proof.
  revert k; induction fuel as [|f IH]; intros k Ho Hn He; simpl; [auto |].
  fold (suffixCond oldLines newLines p k).
  destruct (suffixCond oldLines newLines p k) eqn:E; [|auto].
  unfold suffixCond in E. apply andb_true_iff in E as [E Hs].
  apply andb_true_iff in E as [E1 E2].
  apply Nat.ltb_lt in E1, E2. apply sameLine_true in Hs as (x & Hx & Hy).
  apply IH; [lia | lia |].
  replace (List.length oldLines - S k) with (List.length oldLines - 1 - k) by lia.
  replace (List.length newLines - S k) with (List.length newLines - 1 - k) by lia.
  rewrite (skipn_nth _ _ _ Hx), (skipn_nth _ _ _ Hy).
  replace (S (List.length oldLines - 1 - k)) with (List.length oldLines - k) by lia.
  replace (S (List.length newLines - 1 - k)) with (List.length newLines - k) by lia.
  now rewrite He.
Qed.

Lemma suffixLoop_stop (oldLines newLines : list string) (p fuel k : nat) :
  List.length oldLines - p <= fuel + k ->
  suffixCond oldLines newLines p (suffixLoop fuel p k oldLines newLines) = false.
Proof.
  revert k; induction fuel as [|f IH]; intros k H; simpl.
  - unfold suffixCond.
    destruct (Nat.ltb_spec k (List.length oldLines - p)); [lia | reflexivity].
  - fold (suffixCond oldLines newLines p k).
    destruct (suffixCond oldLines newLines p k) eqn:E; [apply IH; lia | exact E].
Qed.

(** What the two loops establish: a common prefix and, after it, a common
    suffix. *)
Lemma common_parts (oldLines newLines : list string) :
  let p := prefixLenOf oldLines newLines in
  let s := suffixLenOf oldLines newLines in
  p + s <= List.length oldLines /\ p + s <= List.length newLines
  /\ List.firstn p oldLines = List.firstn p newLines
  /\ List.skipn (List.length oldLines - s) oldLines
     = List.skipn (List.length newLines - s) newLines.
Proof.
  intros p s.
  destruct (prefixLoop_inv oldLines newLines (List.length oldLines) 0)
    as (Hpo & Hpn & Hpe); [lia | lia | reflexivity |].
  fold (prefixLenOf oldLines newLines) in Hpo, Hpn, Hpe. fold p in Hpo, Hpn, Hpe.
  destruct (suffixLoop_inv oldLines newLines p (List.length oldLines) 0)
    as (Hso & Hsn & Hse); [lia | lia | |].
  { rewrite !Nat.sub_0_r, !List.skipn_all. reflexivity. }
  subst s. unfold suffixLenOf. fold p.
  set (s := suffixLoop (List.length oldLines) p 0 oldLines newLines) in *.
  repeat split; [lia | lia | exact Hpe | exact Hse].
Qed.

(** Equal lists are one common prefix. *)
Lemma prefixLenOf_same (l : list string) : prefixLenOf l l = List.length l.
Proof.
  pose proof (prefixLoop_stop l l (List.length l) 0) as H.
  fold (prefixLenOf l l) in H.
  destruct (prefixLoop_inv l l (List.length l) 0) as (Hle & _ & _);
    [lia | lia | reflexivity |].
  fold (prefixLenOf l l) in Hle.
  specialize (H ltac:(lia)). unfold prefixCond in H.
  destruct (Nat.ltb_spec (prefixLenOf l l) (List.length l)); [|lia].
  simpl in H. rewrite sameLine_refl in H by assumption. discriminate.
Qed.

Lemma three_parts (l : list string) (p q : nat) :
  p <= q -> q <= List.length l ->
  l = List.firstn p l ++ slice p q l ++ List.skipn q l.
Proof.
  intros Hpq Hq. unfold slice.
  rewrite <- (List.firstn_skipn p l) at 1. f_equal.
  rewrite <- (List.firstn_skipn (q - p) (List.skipn p l)) at 1. f_equal.
  rewrite List.skipn_skipn. f_equal. lia.
Qed.

Definition isType (t : LineType) (l : DiffLine) : bool :=
  match dl_type l, t with
  | LineAdd, LineAdd | LineRemove, LineRemove | LineContext, LineContext => true
  | _, _ => false
  end.

Lemma linesOfType_app (t : LineType) (a b : list DiffLine) :
  linesOfType t (a ++ b) = linesOfType t a ++ linesOfType t b.
Proof. unfold linesOfType. now rewrite List.filter_app, List.map_app. Qed.

Lemma linesOfType_map (t u : LineType) (l : list string) :
  linesOfType t (List.map (mkLine u) l) = if isType t (mkLine u EmptyString) then l else [].
Proof.
  unfold linesOfType.
  induction l as [|x l IH]; [now destruct (isType t _) |].
  simpl. destruct u, t; simpl in *; congruence.
Qed.

(** The result is always the four parts collected before the last branch. *)
Lemma generateDiff_parts (oldLines newLines : list string) :
  let p := prefixLenOf oldLines newLines in
  let s := suffixLenOf oldLines newLines in
  generateDiff oldLines newLines
  = List.map (mkLine LineContext) (slice (p - 3) p oldLines)
    ++ List.map (mkLine LineRemove) (slice p (List.length oldLines - s) oldLines)
    ++ List.map (mkLine LineAdd) (slice p (List.length newLines - s) newLines)
    ++ List.map (mkLine LineContext)
         (slice (List.length oldLines - s) (List.length oldLines - s + Nat.min s 3) oldLines).
Proof.
  intros p s. unfold generateDiff. fold p s.
  destruct (common_parts oldLines newLines) as (Ho & Hn & _ & _). fold p s in Ho, Hn.
  clearbody p s.
  match goal with |- match ?r with [] => _ | _ :: _ => _ end = _ => destruct r eqn:E end;
    [|reflexivity].
  apply (f_equal (@List.length DiffLine)) in E.
  rewrite !List.length_app, !List.length_map in E. unfold slice in E.
  rewrite !List.length_firstn, !List.length_skipn in E. simpl in E.
  apply Nat.eq_add_0 in E as [E1 E]. apply Nat.eq_add_0 in E as [E2 E].
  apply Nat.eq_add_0 in E as [E3 E4].
  assert (Hp0 : p = 0) by (clear - Ho E1; lia).
  assert (Hs0 : s = 0) by (clear - Ho E4; lia).
  assert (Hz : List.length newLines = 0) by (clear - Hn E3 Hp0 Hs0; lia).
  apply List.length_zero_iff_nil in Hz. subst. reflexivity.
Qed.

(** X18. The diff of two line lists can be applied: between the common
    prefix and the common suffix that the two loops find, the lines marked
    [remove] are what the old list holds and the lines marked [add] what
    the new list holds, so replacing the former by the latter turns the old
    list into the new one.  The diff has no removed and no added line
    exactly when the two lists are equal. *)
Theorem generateDiff_applies (oldLines newLines : list string) :
  let d := generateDiff oldLines newLines in
  let p := prefixLenOf oldLines newLines in
  let s := suffixLenOf oldLines newLines in
  List.firstn p oldLines ++ linesOfType LineRemove d
    ++ List.skipn (List.length oldLines - s) oldLines = oldLines
  /\ List.firstn p oldLines ++ linesOfType LineAdd d
       ++ List.skipn (List.length oldLines - s) oldLines = newLines
  /\ (linesOfType LineRemove d = [] /\ linesOfType LineAdd d = [] <-> oldLines = newLines).
Proof.
  intros d p s.
  assert (Hd : linesOfType LineRemove d = slice p (List.length oldLines - s) oldLines
               /\ linesOfType LineAdd d = slice p (List.length newLines - s) newLines).
  { unfold d. rewrite generateDiff_parts. fold p s.
    rewrite !linesOfType_app, !linesOfType_map. simpl. rewrite !app_nil_r. auto. }
  destruct Hd as [Hr Ha].
  destruct (common_parts oldLines newLines) as (Ho & Hn & Hp & Hs). fold p s in Ho, Hn, Hp, Hs.
  assert (Eo : List.firstn p oldLines ++ linesOfType LineRemove d
                 ++ List.skipn (List.length oldLines - s) oldLines = oldLines)
    by (rewrite Hr; symmetry; apply three_parts; lia).
  assert (En : List.firstn p oldLines ++ linesOfType LineAdd d
                 ++ List.skipn (List.length oldLines - s) oldLines = newLines)
    by (rewrite Ha, Hp, Hs; symmetry; apply three_parts; lia).
  split; [exact Eo |]. split; [exact En |]. split.
  - intros [Er Ea]. rewrite Er in Eo. rewrite Ea in En. congruence.
  - intros E. rewrite Hr, Ha.
    assert (Hpl : p = List.length oldLines)
      by (unfold p; rewrite <- E; apply prefixLenOf_same).
    assert (Hlen : List.length newLines = List.length oldLines) by now rewrite E.
    unfold slice.
    replace (List.length oldLines - s - p) with 0 by lia.
    replace (List.length newLines - s - p) with 0 by lia.
    split; reflexivity.
Qed.


End Diff.

(** ** The tree store *)

(** Induction over a node and, through its children, over the nodes below. *)
Section NodeInduction.

Variable Q : FileNode -> Prop.
Hypothesis Hleaf : forall i nm p f isNew isEd, Q (mkNode i nm p f None isNew isEd).
Hypothesis Hnode : forall i nm p f cs isNew isEd,
  List.Forall Q cs -> Q (mkNode i nm p f (Some cs) isNew isEd).

Fixpoint FileNode_nested_ind (n : FileNode) : Q n :=
  match n with
  | mkNode i nm p f None isNew isEd => Hleaf i nm p f isNew isEd
  | mkNode i nm p f (Some cs) isNew isEd =>
      Hnode i nm p f cs isNew isEd
        ((fix go (l : list FileNode) : List.Forall Q l :=
            match l with
            | [] => @List.Forall_nil _ Q
            | c :: r => @List.Forall_cons _ Q c r (FileNode_nested_ind c) (go r)
            end) cs)
  end.

End NodeInduction.

Section TreeLaws.

Import WorkspaceStore.

Lemma map_ext_Forall {A B} (f g : A -> B) (l : list A) :
  List.Forall (fun x => f x = g x) l -> List.map f l = List.map g l.
Proof. induction 1; simpl; congruence. Qed.

Lemma updateNodeChildren_twice (p : string) (a b : option (list FileNode)) (n : FileNode) :
  updateNodeChildren p b (updateNodeChildren p a n) = updateNodeChildren p b n.
Proof.
  induction n as [i nm q f isNew isEd|i nm q f cs isNew isEd IH] using FileNode_nested_ind;
    simpl; destruct (String.eqb q p) eqn:E; simpl; rewrite E; try reflexivity.
  f_equal. f_equal. rewrite List.map_map. now apply map_ext_Forall.
Qed.

(** Setting the children of a folder overwrites what an earlier call set. *)
Lemma updateTreeChildren_twice (tree : list FileNode) (p : string)
    (a b : option (list FileNode)) :
  updateTreeChildren (updateTreeChildren tree p a) p b = updateTreeChildren tree p b.
Proof.
  unfold updateTreeChildren. rewrite List.map_map. apply List.map_ext.
  intros n. apply updateNodeChildren_twice.
Qed.

(** The ids of a node and of the nodes below it. *)
Fixpoint nodeIds (n : FileNode) : list string :=
  match n with
  | mkNode i _ _ _ ch _ _ =>
      i :: match ch with Some cs => List.flat_map nodeIds cs | None => [] end
  end.

Definition treeIds (tree : list FileNode) : list string := List.flat_map nodeIds tree.

Lemma removeFromNode_eq (nodeId : string) i nm p f cs isNew isEd :
  removeFromNode nodeId (mkNode i nm p f (Some cs) isNew isEd)
  = mkNode i nm p f (Some (removeNodeFromTree cs nodeId)) isNew isEd.
Proof.
  simpl. do 2 f_equal. unfold removeNodeFromTree.
  induction cs as [|c cs IH]; [reflexivity |].
  simpl. destruct (String.eqb (node_id c) nodeId); simpl; [exact IH | now rewrite IH].
Qed.

Lemma removeNodeFromTree_cons (nodeId : string) (n : FileNode) (tree : list FileNode) :
  removeNodeFromTree (n :: tree) nodeId
  = if String.eqb (node_id n) nodeId then removeNodeFromTree tree nodeId
    else removeFromNode nodeId n :: removeNodeFromTree tree nodeId.
Proof.
  unfold removeNodeFromTree. simpl. now destruct (String.eqb (node_id n) nodeId).
Qed.

Lemma removeFromNode_gone (nodeId : string) (n : FileNode) :
  node_id n <> nodeId ->
  ~ In nodeId (nodeIds (removeFromNode nodeId n))
  /\ incl (nodeIds (removeFromNode nodeId n)) (nodeIds n).
Proof.
  induction n as [i nm q f isNew isEd|i nm q f cs isNew isEd IH] using FileNode_nested_ind;
    intros Hne; simpl in Hne.
  - simpl. split; [intros [H|[]]; congruence | apply incl_refl].
  - rewrite removeFromNode_eq. simpl.
    assert (H : ~ In nodeId (List.flat_map nodeIds (removeNodeFromTree cs nodeId))
                /\ incl (List.flat_map nodeIds (removeNodeFromTree cs nodeId))
                     (List.flat_map nodeIds cs)).
    { induction IH as [|c cs Hc _ IHcs]; [split; [intros [] | apply incl_refl] |].
      rewrite removeNodeFromTree_cons. destruct IHcs as [Hg Hi].
      destruct (String.eqb_spec (node_id c) nodeId) as [E|E].
      - split; [exact Hg |]. simpl. now apply incl_appr.
      - destruct (Hc E) as [Hg1 Hi1]. simpl. split.
        + intros [H|H]%List.in_app_or; tauto.
        + apply incl_app; [now apply incl_appl | now apply incl_appr]. }
    destruct H as [Hg Hi]. split.
    + intros [H|H]; [congruence | tauto].
    + intros x [<-|Hx]; [now left | right; now apply Hi].
Qed.

(** X20. [removeNodeFromTree] removes the id at every depth: no node of
    the result, however deep, has that id, and the result holds no id
    that the tree did not hold. *)
Theorem removeNodeFromTree_removes (tree : list FileNode) (nodeId : string) :
  ~ In nodeId (treeIds (removeNodeFromTree tree nodeId))
  /\ incl (treeIds (removeNodeFromTree tree nodeId)) (treeIds tree).
Proof.
  unfold treeIds. induction tree as [|n tree [Hg Hi]]; [split; [intros [] | apply incl_refl] |].
  rewrite removeNodeFromTree_cons.
  destruct (String.eqb_spec (node_id n) nodeId) as [E|E].
  - split; [exact Hg |]. simpl. now apply incl_appr.
  - destruct (removeFromNode_gone nodeId n E) as [Hg1 Hi1]. simpl. split.
    + intros [H|H]%List.in_app_or; tauto.
    + apply incl_app; [now apply incl_appl | now apply incl_appr].
Qed.

Lemma removeFromNode_absent (nodeId : string) (n : FileNode) :
  ~ In nodeId (nodeIds n) -> removeFromNode nodeId n = n.
Proof.
  induction n as [i nm q f isNew isEd|i nm q f cs isNew isEd IH] using FileNode_nested_ind;
    intros Hni; [reflexivity |].
  rewrite removeFromNode_eq. do 2 f_equal.
  simpl in Hni. assert (Hcs : ~ In nodeId (List.flat_map nodeIds cs)) by tauto. clear Hni.
  induction IH as [|c cs Hc _ IHcs]; [reflexivity |].
  rewrite removeNodeFromTree_cons. simpl in Hcs.
  assert (Hc1 : ~ In nodeId (nodeIds c)) by (intros H; apply Hcs, List.in_or_app; tauto).
  assert (Hc2 : ~ In nodeId (List.flat_map nodeIds cs))
    by (intros H; apply Hcs, List.in_or_app; tauto).
  destruct (String.eqb_spec (node_id c) nodeId) as [E|E].
  - exfalso. apply Hc1. destruct c; simpl in *. now left.
  - rewrite (Hc Hc1), (IHcs Hc2). reflexivity.
Qed.

(** Removing an id the tree does not hold changes nothing. *)
Lemma removeNodeFromTree_absent (tree : list FileNode) (nodeId : string) :
  ~ In nodeId (treeIds tree) -> removeNodeFromTree tree nodeId = tree.
Proof.
  unfold treeIds. induction tree as [|c cs IH]; intros Hcs; [reflexivity |].
  rewrite removeNodeFromTree_cons. simpl in Hcs.
  assert (Hc1 : ~ In nodeId (nodeIds c)) by (intros H; apply Hcs, List.in_or_app; tauto).
  assert (Hc2 : ~ In nodeId (List.flat_map nodeIds cs))
    by (intros H; apply Hcs, List.in_or_app; tauto).
  destruct (String.eqb_spec (node_id c) nodeId) as [E|E].
  - exfalso. apply Hc1. destruct c; simpl in *. now left.
  - rewrite (removeFromNode_absent _ _ Hc1), (IH Hc2). reflexivity.
Qed.

(** A node at [parentPath] that [addNodeToTree] reaches and whose children
    are not loaded. *)
Fixpoint collapsedAt (parentPath : string) (n : FileNode) : bool :=
  match n with
  | mkNode _ _ p _ ch _ _ =>
      if String.eqb p parentPath then match ch with Some _ => false | None => true end
      else match ch with
           | Some cs => existsb (collapsedAt parentPath) cs
           | None => false
           end
  end.

Lemma addUnderNode_id (parentPath : string) (newNode c : FileNode) :
  node_id (addUnderNode parentPath newNode c) = node_id c.
Proof.
  destruct c as [? ? cq ? [?|] ? ?]; simpl; destruct (String.eqb cq parentPath); reflexivity.
Qed.

Lemma add_then_remove_node (parentPath : string) (newNode n : FileNode) :
  ~ In (node_id newNode) (nodeIds n) ->
  collapsedAt parentPath n = false ->
  removeFromNode (node_id newNode) (addUnderNode parentPath newNode n) = n.
Proof.
  induction n as [i nm q f isNew isEd|i nm q f cs isNew isEd IH] using FileNode_nested_ind;
    intros Hni Hc; simpl in Hc |- *.
  - destruct (String.eqb q parentPath); [discriminate | reflexivity].
  - simpl in Hni.
    assert (Hcs : ~ In (node_id newNode) (List.flat_map nodeIds cs)) by tauto.
    destruct (String.eqb q parentPath).
    + rewrite removeFromNode_eq, removeNodeFromTree_cons, String.eqb_refl.
      do 2 f_equal. now apply removeNodeFromTree_absent.
    + rewrite removeFromNode_eq. do 2 f_equal.
      clear Hni. induction IH as [|c cs Hc1 _ IHcs]; [reflexivity |].
      simpl List.map. rewrite removeNodeFromTree_cons.
      simpl in Hc, Hcs. apply orb_false_iff in Hc as [Hca Hcb].
      assert (Hn1 : ~ In (node_id newNode) (nodeIds c))
        by (intros H; apply Hcs, List.in_or_app; tauto).
      assert (Hn2 : ~ In (node_id newNode) (List.flat_map nodeIds cs))
        by (intros H; apply Hcs, List.in_or_app; tauto).
      rewrite addUnderNode_id.
      destruct (String.eqb_spec (node_id c) (node_id newNode)) as [E|E].
      * exfalso. apply Hn1. destruct c; simpl in *. now left.
      * rewrite (Hc1 Hn1 Hca), (IHcs Hcb Hn2). reflexivity.
Qed.

(** Adding a node with a new id and removing that id restores the tree,
    unless the node went below a folder whose children were not loaded. *)
Lemma add_then_remove (tree : list FileNode) (parentPath root : string)
    (newNode : FileNode) :
  ~ In (node_id newNode) (treeIds tree) ->
  existsb (collapsedAt parentPath) tree = false ->
  removeNodeFromTree (addNodeToTree tree parentPath newNode root) (node_id newNode) = tree.
Proof.
  intros Hni Hc. unfold addNodeToTree.
  destruct (negb (JSString.truthy parentPath) || String.eqb parentPath root).
  - rewrite removeNodeFromTree_cons, String.eqb_refl.
    now apply removeNodeFromTree_absent.
  - unfold treeIds in Hni. induction tree as [|c cs IH]; [reflexivity |].
    simpl List.map. rewrite removeNodeFromTree_cons.
    simpl in Hc, Hni. apply orb_false_iff in Hc as [Hca Hcb].
    assert (Hn1 : ~ In (node_id newNode) (nodeIds c))
      by (intros H; apply Hni, List.in_or_app; tauto).
    assert (Hn2 : ~ In (node_id newNode) (List.flat_map nodeIds cs))
      by (intros H; apply Hni, List.in_or_app; tauto).
    rewrite addUnderNode_id.
    destruct (String.eqb_spec (node_id c) (node_id newNode)) as [E|E].
    + exfalso. apply Hn1. destruct c; simpl in *. now left.
    + rewrite (add_then_remove_node _ _ _ Hn1 Hca), (IH Hn2 Hcb). reflexivity.
Qed.

Lemma filter_notNew (l : list FileNode) :
  existsb node_isNew l = false -> List.filter (fun c => negb (node_isNew c)) l = l.
Proof.
  induction l as [|x l IH]; intros H; [reflexivity |].
  simpl in H |- *. apply orb_false_iff in H as [Hx Hl].
  rewrite Hx. simpl. f_equal. now apply IH.
Qed.

(** Without temporary nodes the cleaning of [startCreateFile] keeps the
    tree. *)
Lemma cleaning_keeps (tree : list FileNode) :
  hasTempNodes tree = false ->
  List.map (fun n => match node_children n with
                     | Some cs =>
                         setChildren n (Some (List.filter (fun c => negb (node_isNew c)) cs))
                     | None => n
                     end)
    (List.filter (fun n => negb (node_isNew n)) tree)
  = tree.
Proof.
  unfold hasTempNodes. intros [H1 H2]%orb_false_iff.
  rewrite (filter_notNew _ H1).
  clear H1. induction tree as [|n tree IH]; [reflexivity |].
  simpl in H2 |- *. apply orb_false_iff in H2 as [Hn Ht]. rewrite (IH Ht). f_equal.
  destruct n as [i nm p f [cs|] isNew isEd]; [|reflexivity]. simpl in *.
  unfold setChildren. simpl. now rewrite (filter_notNew _ Hn).
Qed.

(** X21. Starting a creation and cancelling it restores the tree.  In a
    store with a root and no creation in progress, whose tree holds no
    temporary node and not yet the id of the new one, and where the
    parent is the root or a folder with loaded children,
    [startCreateFile] or [startCreateFolder] followed by [cancelCreate]
    leaves the tree, the expanded folders and the pending refresh as they
    were; the selection stays on the id of the cancelled node and the
    edit mode is cleared. *)
Theorem create_then_cancel (st : State) (isFolder : bool) (parentPath root : string)
    (now : N) :
  rootPath st = Some root ->
  JSString.truthy root = true ->
  isCreating st = false ->
  hasTempNodes (tree st) = false ->
  ~ In (node_id (tempNode isFolder now)) (treeIds (tree st)) ->
  existsb (collapsedAt parentPath) (tree st) = false ->
  cancelCreate (startCreate isFolder st parentPath now) (node_id (tempNode isFolder now))
  = mkState (rootPath st) (tree st) (expandedFolders st)
      (Some (node_id (tempNode isFolder now))) None false (refreshTimeout st).
Proof.
  intros Hroot Ht Hcr Htemp Hnew Hcoll.
  unfold startCreate. rewrite Hroot, Ht, Hcr. cbv beta iota zeta. simpl negb. cbv iota.
  rewrite (cleaning_keeps _ Htemp).
  unfold cancelCreate.
  cbn [tree rootPath expandedFolders selectedPath refreshTimeout].
  now rewrite (add_then_remove _ _ _ _ Hnew Hcoll).
Qed.

Lemma dropLast_snoc (l : list string) (x : string) : dropLast (l ++ [x]) = l.
Proof.
  induction l as [|y l IH]; [reflexivity |].
  simpl. destruct (l ++ [x]) eqn:E; [now destruct l | now rewrite IH].
Qed.

Lemma slashes_plain (s : string) :
  occurs "/" s = false -> occurs "\" s = false -> occurs "/" (JSString.slashes s) = false.
Proof.
  induction s as [|c s IH]; intros H1 H2; [reflexivity |].
  simpl in *. apply orb_false_iff in H1 as [Hc1 Hs1]. apply orb_false_iff in H2 as [Hc2 Hs2].
  rewrite Hc2, Hc1. simpl. now apply IH.
Qed.

(** X22. [getParentPath] undoes joining a name onto a directory: for a
    name without separator, the parent of [dir/name] (and of [dir\name])
    is [dir] with its backslashes turned into slashes. *)
Theorem getParentPath_of_child (dir name : string) :
  occurs "/" name = false -> occurs "\" name = false ->
  getParentPath (dir +:+ "/" +:+ name) = JSString.slashes dir
  /\ getParentPath (dir +:+ "\" +:+ name) = JSString.slashes dir.
Proof.
  intros H1 H2.
  assert (E1 : JSString.slashes (dir +:+ "/" +:+ name)
               = JSString.slashes dir +:+ String "/" (JSString.slashes name))
    by (unfold JSString.slashes; rewrite !mapChars_append; reflexivity).
  assert (E2 : JSString.slashes (dir +:+ "\" +:+ name)
               = JSString.slashes dir +:+ String "/" (JSString.slashes name))
    by (unfold JSString.slashes; rewrite !mapChars_append; reflexivity).
  unfold getParentPath. rewrite E1, E2.
  rewrite splitOn_app, (splitOn_plain _ _ (slashes_plain _ H1 H2)), dropLast_snoc.
  split; apply (join_split "/").
Qed.

End TreeLaws.

Section Folders.
Context {P : Platform}.

Import WorkspaceStore.

(** X23. Expanding a collapsed folder and collapsing it again restores the
    store: when the folder is not in the expanded set, its listing can be
    read and no node at its path has children loaded, the first
    [toggleFolder] sets the listing as its children and marks it expanded,
    and the second one returns to the store from before. *)
Theorem toggleFolder_twice (ws : option string) (st : State) (folderPath : string)
    (children : list FileNode) :
  folderPath ∉ expandedFolders st ->
  readDir ws folderPath = Ok children ->
  updateTreeChildren (tree st) folderPath None = tree st ->
  toggleFolder ws (toggleFolder ws st folderPath) folderPath = st
  /\ tree (toggleFolder ws st folderPath)
     = updateTreeChildren (tree st) folderPath (Some children)
  /\ folderPath ∈ expandedFolders (toggleFolder ws st folderPath).
Proof.
  intros Hne Hr Hcollapsed.
  assert (E1 : toggleFolder ws st folderPath
               = mkState (rootPath st)
                   (updateTreeChildren (tree st) folderPath (Some children))
                   ({[folderPath]} ∪ expandedFolders st) (selectedPath st)
                   (editingNodeId st) (isCreating st) (refreshTimeout st)).
  { unfold toggleFolder. rewrite bool_decide_eq_false_2 by exact Hne. now rewrite Hr. }
  rewrite E1. split; [|split; [reflexivity | simpl; apply elem_of_union_l, elem_of_singleton;
                                               reflexivity]].
  unfold toggleFolder. simpl.
  rewrite bool_decide_eq_true_2
    by (apply elem_of_union_l, elem_of_singleton; reflexivity).
  rewrite updateTreeChildren_twice, Hcollapsed.
  destruct st as [rp t ex sel edn cr rt]. simpl in *. f_equal.
  apply set_eq. intros x. rewrite elem_of_difference, elem_of_union, elem_of_singleton.
  split; [intros [[->|H] Hx]; [congruence | exact H] |].
  intros H. split; [now right |]. intros ->. exact (Hne H).
Qed.

End Folders.

Lemma create_then_cancel_witness :
  WorkspaceStore.tree
    (WorkspaceStore.cancelCreate
       (WorkspaceStore.startCreateFile openTree "/home/u/proj/src" 1700000000000)
       "__temp_file_1700000000000")
  = WorkspaceStore.tree openTree
  /\ WorkspaceStore.isCreating
       (WorkspaceStore.cancelCreate
          (WorkspaceStore.startCreateFile openTree "/home/u/proj/src" 1700000000000)
          "__temp_file_1700000000000")
     = false.
Proof.
  pose proof (create_then_cancel openTree false "/home/u/proj/src" "/home/u/proj"
                1700000000000) as H.
  assert (H5 : ~ In (node_id (WorkspaceStore.tempNode false 1700000000000))
                 (treeIds (WorkspaceStore.tree openTree))).
  { vm_compute. intros H5. repeat (destruct H5 as [H5|H5]; [discriminate H5 |]). exact H5. }
  specialize (H eq_refl eq_refl eq_refl eq_refl H5 eq_refl).
  change (WorkspaceStore.startCreateFile openTree "/home/u/proj/src" 1700000000000)
    with (WorkspaceStore.startCreate false openTree "/home/u/proj/src" 1700000000000).
  change "__temp_file_1700000000000"
    with (node_id (WorkspaceStore.tempNode false 1700000000000)).
  rewrite H. split; reflexivity.
Defined.

Lemma getParentPath_of_child_witness :
  WorkspaceStore.getParentPath "C:\work\proj\src/app.js" = "C:/work/proj/src"
  /\ WorkspaceStore.getParentPath "C:\work\proj\src\app.js" = "C:/work/proj/src".
Proof.
  refine (getParentPath_of_child "C:\work\proj\src" "app.js" _ _).
  - vm_compute. reflexivity.
  - vm_compute. reflexivity.
Defined.

Definition closedTree : WorkspaceStore.State :=
  WorkspaceStore.mkState (Some "/home/u/proj")
    [mkNode "/home/u/proj/src" "src" "/home/u/proj/src" true None false false;
     fileNode "/home/u/proj/a.txt" "a.txt";
     fileNode "/home/u/proj/b.txt" "b.txt"]
    ∅ None None false None.

Lemma toggleFolder_twice_witness :
  WorkspaceStore.toggleFolder (P := demo) demoRoot
    (WorkspaceStore.toggleFolder (P := demo) demoRoot closedTree "/home/u/proj/src")
    "/home/u/proj/src"
  = closedTree
  /\ List.map node_children
       (WorkspaceStore.tree
          (WorkspaceStore.toggleFolder (P := demo) demoRoot closedTree "/home/u/proj/src"))
     = [Some [mkNode "/home/u/proj/src/components" "components" "/home/u/proj/src/components"
                true None false false];
        None; None].
Proof.
  pose proof (toggleFolder_twice (P := demo) demoRoot closedTree "/home/u/proj/src"
                (Main.readDirSafe (P := demo) "/home/u/proj/src")) as H.
  assert (H1 : "/home/u/proj/src" ∉ WorkspaceStore.expandedFolders closedTree)
    by apply not_elem_of_empty.
  specialize (H H1 eq_refl eq_refl). destruct H as (Hback & Htree & _).
  split; [exact Hback |]. rewrite Htree. vm_compute. reflexivity.
Defined.

(** ** The editor tabs *)

Section Tabs.
Context {P : Platform}.

Import WorkspaceStore.

(** The tabs are pairwise different, the active tab is one of them, a
    content is cached for open tabs only, and an unsaved mark is kept only
    for a tab with a cached content. *)
Definition tabsOk (ed : Editor) : Prop :=
  List.NoDup (openFiles ed)
  /\ (forall a, activeFileId ed = Some a -> In a (openFiles ed))
  /\ (forall p, is_Some (fileContents ed !! p) -> In p (openFiles ed))
  /\ (forall p, p ∈ unsavedFiles ed -> is_Some (fileContents ed !! p)).

Lemma includesPath_In (l : list string) (p : string) :
  includesPath l p = true <-> In p l.
Proof.
  unfold includesPath. rewrite List.existsb_exists. split.
  - intros (x & Hx & ->%String.eqb_eq). exact Hx.
  - intros H. exists p. split; [exact H | apply String.eqb_refl].
Qed.

Lemma NoDup_snoc (l : list string) (p : string) :
  List.NoDup l -> ~ In p l -> List.NoDup (l ++ [p]).
Proof.
  intros Hl Hp. rewrite <- (List.rev_involutive (l ++ [p])). apply List.NoDup_rev.
  rewrite List.rev_app_distr. simpl. constructor.
  - intros H%List.in_rev. exact (Hp H).
  - now apply List.NoDup_rev.
Qed.

Lemma NoDup_filter_str (f : string -> bool) (l : list string) :
  List.NoDup l -> List.NoDup (List.filter f l).
Proof.
  induction 1 as [|x l Hx Hl IH]; simpl; [constructor |].
  destruct (f x); [|exact IH]. constructor; [|exact IH].
  intros [H _]%List.filter_In. exact (Hx H).
Qed.

Lemma at_In (l : list string) (i : Z) (x : string) : at_ l i = Some x -> In x l.
Proof.
  unfold at_. destruct (i <? 0)%Z; [discriminate |]. apply List.nth_error_In.
Qed.

(** What [openFile] changes. *)
Lemma openFile_files (ws : option string) (d : Disk) (ed : Editor) (path : string) :
  let ed' := openFile ws d ed path in
  activeFileId ed' = Some path
  /\ openFiles ed' = (if includesPath (openFiles ed) path then openFiles ed
                      else openFiles ed ++ [path])
  /\ unsavedFiles ed' = unsavedFiles ed
  /\ (fileContents ed' = fileContents ed
      \/ exists content, fileContents ed !! path = None
                         /\ fileContents ed' = <[path := content]> (fileContents ed)).
Proof.
  unfold openFile.
  destruct (includesPath LanguageUtils.binaryExtensions _); [simpl; auto |].
  destruct (fileContents ed !! path) eqn:E; [simpl; auto |].
  destruct (Main.fs_readFile ws d path); simpl; [|auto].
  repeat split; auto. right. eauto.
Qed.


Lemma filter_absent (path : string) (l : list string) :
  ~ In path l -> List.filter (fun p => negb (String.eqb p path)) l = l.
Proof.
  induction l as [|x l IH]; intros H; [reflexivity |]. simpl.
  destruct (String.eqb_spec x path) as [->|Hne]; [exfalso; apply H; now left |].
  simpl. f_equal. apply IH. intros Hin. apply H. now right.
Qed.

Lemma indexOf_app (path : string) (before after : list string) :
  ~ In path before -> indexOf path (before ++ path :: after) = Z.of_nat (List.length before).
Proof.
  induction before as [|x l IH]; intros H; simpl.
  - now rewrite String.eqb_refl.
  - destruct (String.eqb_spec x path) as [->|Hne]; [exfalso; apply H; now left |].
    rewrite IH by (intros Hin; apply H; now right).
    destruct (Z.ltb_spec (Z.of_nat (List.length l)) 0); lia.
Qed.

Definition lastTab (l : list string) : option string :=
  match List.rev l with x :: _ => Some x | [] => None end.

(** X25. Closing the active tab activates its right neighbour; when it
    was the last tab, the tab before it; when it was the only one, none.
    The other tabs keep their order. *)
Theorem closeFile_activates_neighbour (ed : Editor) (path : string)
    (before after : list string) :
  List.NoDup (openFiles ed) ->
  openFiles ed = before ++ path :: after ->
  activeFileId ed = Some path ->
  openFiles (closeFile ed path) = before ++ after
  /\ activeFileId (closeFile ed path)
     = match after with
       | next :: _ => Some next
       | [] => lastTab before
       end.
Proof.
  intros Hnd Ho Ha. rewrite Ho in Hnd.
  apply List.NoDup_remove_2 in Hnd.
  assert (Hb : ~ In path before) by (intros H; apply Hnd, List.in_or_app; now left).
  assert (Haf : ~ In path after) by (intros H; apply Hnd, List.in_or_app; now right).
  assert (Hf : List.filter (fun p => negb (String.eqb p path)) (openFiles ed) = before ++ after).
  { rewrite Ho, List.filter_app. simpl. rewrite String.eqb_refl. simpl.
    now rewrite !filter_absent. }
  unfold closeFile. simpl. rewrite Hf, Ha, String.eqb_refl. split; [reflexivity |].
  rewrite Ho, indexOf_app by exact Hb. rewrite List.length_app.
  destruct after as [|next after].
  - simpl. rewrite Nat.add_0_r, app_nil_r.
    destruct before as [|b before] using List.rev_ind; [reflexivity |].
    rewrite List.length_app. simpl.
    destruct (Nat.ltb_spec 0 (List.length before + 1)); [|lia].
    destruct (Z.geb_spec (Z.of_nat (List.length before + 1))
                (Z.of_nat (List.length before + 1))); [|lia].
    unfold at_, lastTab.
    destruct (Z.ltb_spec (Z.of_nat (List.length before + 1) - 1) 0); [lia |].
    replace (Z.to_nat (Z.of_nat (List.length before + 1) - 1)) with (List.length before) by lia.
    rewrite List.nth_error_app2 by lia. rewrite Nat.sub_diag.
    rewrite List.rev_app_distr. reflexivity.
  - simpl List.length.
    destruct (Nat.ltb_spec 0 (List.length before + S (List.length after))); [|lia].
    destruct (Z.geb_spec (Z.of_nat (List.length before))
                (Z.of_nat (List.length before + S (List.length after)))); [lia |].
    unfold at_. destruct (Z.ltb_spec (Z.of_nat (List.length before)) 0); [lia |].
    rewrite Nat2Z.id. rewrite List.nth_error_app2 by lia. now rewrite Nat.sub_diag.
Qed.

(** X26. Closing a tab discards what was typed in it.  After an edit the
    cache holds the typed content and the tab is marked unsaved; closing
    the tab drops both without writing, and opening the file again shows
    the content of the disk, with no unsaved mark. *)
Theorem close_discards_edits (ws : option string) (d : Disk) (ed : Editor)
    (path typed onDisk : string) :
  activeFileId ed = Some path ->
  JSString.truthy path = true ->
  includesPath LanguageUtils.binaryExtensions (LanguageUtils.extensionOf path) = false ->
  Main.fs_readFile ws d path = Ok onDisk ->
  let edited := updateActiveFileContent ed typed in
  let reopened := openFile ws d (closeFile edited path) path in
  fileContents edited !! path = Some typed
  /\ path ∈ unsavedFiles edited
  /\ fileContents reopened !! path = Some onDisk
  /\ path ∉ unsavedFiles reopened.
Proof.
  intros Ha Ht Hb Hr edited reopened.
  assert (He : edited = mkEditor (activeFileId ed) (openFiles ed)
                          (<[path := typed]> (fileContents ed)) (isFileLoading ed)
                          (fileError ed) ({[path]} ∪ unsavedFiles ed)).
  { unfold edited, updateActiveFileContent. now rewrite Ha, Ht. }
  split; [rewrite He; simpl; apply lookup_insert_eq |].
  split.
  { rewrite He. simpl. apply elem_of_union_l, elem_of_singleton. reflexivity. }
  unfold reopened, openFile. rewrite Hb.
  assert (Hc : fileContents (closeFile edited path) !! path = None)
    by (simpl; apply lookup_delete_eq).
  rewrite Hc, Hr. simpl. split; [apply lookup_insert_eq |].
  intros [_ H]%elem_of_difference. apply H. now apply elem_of_singleton.
Qed.

(** X27. [saveActiveFile] writes the cached content of the active tab
    through [fs:writeFile].  When the path is inside the workspace and the
    write does not fail, the disk holds the content at the resolved path
    and the unsaved mark of the tab is cleared; otherwise the disk and the
    editor, unsaved mark included, stay as they were. *)
Theorem save_writes_and_clears_mark (ws : option string) (d : Disk) (ed : Editor)
    (path content : string) :
  activeFileId ed = Some path ->
  JSString.truthy path = true ->
  fileContents ed !! path = Some content ->
  let ed' := fst (saveActiveFile ws ed d) in
  let d' := snd (saveActiveFile ws ed d) in
  if Main.isWithinWorkspace ws path && negb (writeFails (resolve path))
  then d' = <[resolve path := fileOf content]> d
       /\ unsavedFiles ed' = unsavedFiles ed ∖ {[path]}
       /\ fileContents ed' = fileContents ed
  else d' = d /\ ed' = ed.
Proof.
  intros Ha Ht Hc. unfold saveActiveFile. rewrite Ha, Ht, Hc. simpl.
  unfold Main.fs_writeFile, Main.writeFile.
  destruct (Main.isWithinWorkspace ws path); simpl; [|auto].
  destruct (writeFails (resolve path)); simpl; auto.
Qed.

End Tabs.

(** Two tabs, the first one active and edited. *)
Definition demoEditor : WorkspaceStore.Editor :=
  WorkspaceStore.mkEditor (Some "/home/u/proj/app.js")
    ["/home/u/proj/app.js"; "/home/u/proj/a.txt"]
    {[ "/home/u/proj/app.js" := "let x = 2;"; "/home/u/proj/a.txt" := "alpha" ]}
    false None {[ "/home/u/proj/app.js" ]}.

Lemma demoEditor_ok : tabsOk demoEditor.
Proof.
  split; [|split; [|split]].
  - repeat constructor; simpl; intros H; repeat (destruct H as [H|H]; [discriminate H |]);
      exact H.
  - intros a [= <-]. now left.
  - intros p Hp. simpl in Hp.
    destruct (decide (p = "/home/u/proj/app.js")) as [->|H1]; [now left |].
    destruct (decide (p = "/home/u/proj/a.txt")) as [->|H2]; [right; now left |].
    exfalso. unfold demoEditor in Hp. simpl in Hp.
    rewrite lookup_insert_ne in Hp by congruence.
    rewrite lookup_singleton_ne in Hp by congruence. now destruct Hp.
  - intros p Hp. simpl in Hp. apply elem_of_singleton in Hp. subst p.
    simpl. rewrite lookup_insert_eq. eauto.
Defined.


Lemma closeFile_activates_neighbour_witness :
  WorkspaceStore.openFiles (WorkspaceStore.closeFile demoEditor "/home/u/proj/app.js")
  = ["/home/u/proj/a.txt"]
  /\ WorkspaceStore.activeFileId (WorkspaceStore.closeFile demoEditor "/home/u/proj/app.js")
     = Some "/home/u/proj/a.txt".
Proof.
  refine (closeFile_activates_neighbour demoEditor "/home/u/proj/app.js" []
            ["/home/u/proj/a.txt"] _ eq_refl eq_refl).
  exact (proj1 demoEditor_ok).
Defined.

Lemma close_discards_edits_witness :
  WorkspaceStore.fileContents
    (WorkspaceStore.updateActiveFileContent demoEditor "let x = 3;") !! "/home/u/proj/app.js"
  = Some "let x = 3;"
  /\ WorkspaceStore.fileContents
       (WorkspaceStore.openFile (P := demo) demoRoot demoDisk
          (WorkspaceStore.closeFile
             (WorkspaceStore.updateActiveFileContent demoEditor "let x = 3;")
             "/home/u/proj/app.js")
          "/home/u/proj/app.js") !! "/home/u/proj/app.js"
     = Some "let x = 1;".
Proof.
  pose proof (close_discards_edits (P := demo) demoRoot demoDisk demoEditor
                "/home/u/proj/app.js" "let x = 3;" "let x = 1;") as H.
  cbv zeta in H.
  assert (H3 : WorkspaceStore.includesPath LanguageUtils.binaryExtensions
                 (LanguageUtils.extensionOf "/home/u/proj/app.js") = false)
    by (vm_compute; reflexivity).
  assert (H4 : Main.fs_readFile (P := demo) demoRoot demoDisk "/home/u/proj/app.js"
               = Ok "let x = 1;")
    by (vm_compute; reflexivity).
  destruct (H eq_refl eq_refl H3 H4) as (H5 & _ & H6 & _).
  split; [exact H5 | exact H6].
Defined.

Lemma save_writes_and_clears_mark_witness :
  Main.readFile (P := demo) (snd (WorkspaceStore.saveActiveFile (P := demo) demoRoot
                                    demoEditor demoDisk))
    "/home/u/proj/app.js"
  = Ok "let x = 2;"
  /\ WorkspaceStore.unsavedFiles
       (fst (WorkspaceStore.saveActiveFile (P := demo) demoRoot demoEditor demoDisk))
     = ∅.
Proof.
  pose proof (save_writes_and_clears_mark (P := demo) demoRoot demoDisk demoEditor
                "/home/u/proj/app.js" "let x = 2;" eq_refl eq_refl eq_refl) as H.
  cbv zeta in H.
  assert (Hc : Main.isWithinWorkspace (P := demo) demoRoot "/home/u/proj/app.js"
               && negb (writeFails (Platform := demo) (resolve (Platform := demo)
                                                         "/home/u/proj/app.js"))
               = true)
    by (vm_compute; reflexivity).
  rewrite Hc in H. destruct H as (Hd & Hu & _).
  split; [|rewrite Hu; vm_compute; reflexivity].
  rewrite Hd. unfold Main.readFile.
  change (resolve (Platform := demo) "/home/u/proj/app.js") with "/home/u/proj/app.js".
  rewrite lookup_insert_eq. reflexivity.
Defined.

(** ** Languages *)

Section Languages.

Import LanguageUtils.

Fixpoint endsWithDot (s : string) : bool :=
  match s with
  | EmptyString => false
  | String c EmptyString => Ascii.eqb c "."
  | String _ r => endsWithDot r
  end.

Lemma lastOf_split_empty (s : string) :
  Main.lastOf (JSString.splitOn "." s) = EmptyString -> s = EmptyString \/ endsWithDot s = true.
Proof.
  induction s as [|c s IH]; intros H; [now left |]. right.
  pose proof (splitOn_nonempty "." s) as Hne.
  simpl JSString.splitOn in H.
  destruct (JSString.splitOn "." s) as [|x rest] eqn:E; [congruence |].
  destruct (Ascii.eqb_spec c ".") as [->|Hc].
  - change (Main.lastOf (x :: rest) = EmptyString) in H.
    destruct (IH H) as [->|Hd]; [reflexivity |].
    simpl. destruct s; [discriminate | exact Hd].
  - destruct rest as [|y rest]; [simpl in H; discriminate H |].
    change (Main.lastOf (y :: rest) = EmptyString) in H.
    destruct (IH H) as [->|Hd]; [simpl in E; discriminate E |].
    simpl. destruct s; [discriminate | exact Hd].
Qed.

Lemma lookup_ends (k : string) (table : list (string * string)) :
  forallb (fun kv => negb (endsWithDot (fst kv))) table = true ->
  endsWithDot k = true -> lookup k table = None.
Proof.
  induction table as [|[k' v] table IH]; intros Ht Hk; [reflexivity |].
  simpl in Ht |- *. apply andb_true_iff in Ht as [Hk' Ht].
  destruct (String.eqb_spec k k') as [->|]; [|now apply IH].
  rewrite Hk in Hk'. discriminate.
Qed.

Lemma existsb_ends (k : string) (l : list string) :
  forallb (fun x => negb (endsWithDot x)) l = true ->
  endsWithDot k = true -> existsb (String.eqb k) l = false.
Proof.
  induction l as [|x l IH]; intros Hl Hk; [reflexivity |].
  simpl in Hl |- *. apply andb_true_iff in Hl as [Hx Hl].
  destruct (String.eqb_spec k x) as [->|]; [|now apply IH].
  rewrite Hk in Hx. discriminate.
Qed.

Lemma endsWithDot_drop (s : string) :
  endsWithDot s = true ->
  JSString.drop 1 s = EmptyString \/ endsWithDot (JSString.drop 1 s) = true.
Proof.
  destruct s as [|c [|d r]]; simpl; [discriminate | now left | now right].
Qed.

(** X28. The language of a path is decided by the lower-cased text after
    the last dot of its file name alone.  The branch for dotfiles changes
    no result: it is taken only for a name that ends with a dot, and no
    key of the table (and no inherited property) ends with a dot, so it
    answers [plaintext] like the lookup of the empty extension; a name
    such as [.gitignore] is served by the ordinary lookup of
    [gitignore]. *)
Theorem language_depends_on_extension (p : string) :
  getLanguageFromPath (Some p) = languageOr (extensionOf (baseName p)).
Proof.
  unfold getLanguageFromPath.
  destruct p as [|c p]; [reflexivity |]. simpl negb. cbv iota.
  set (fileName := baseName (String c p)).
  destruct (JSString.startsWith fileName ".") eqn:Es; [|reflexivity].
  destruct (JSString.truthy (extensionOf fileName)) eqn:Et; [reflexivity |].
  change (true && negb false) with true. cbv iota.
  assert (Hext : extensionOf fileName = EmptyString)
    by (destruct (extensionOf fileName); [reflexivity | discriminate]).
  rewrite Hext. unfold extensionOf in Hext. apply mapChars_empty in Hext.
  apply lastOf_split_empty in Hext as [E|E].
  - rewrite E in Es. discriminate.
  - apply endsWithDot_drop in E as [->|E]; [reflexivity |].
    unfold languageOr.
    rewrite (lookup_ends _ EXTENSION_TO_LANGUAGE eq_refl E).
    rewrite (existsb_ends _ prototypeKeys eq_refl E).
    reflexivity.
Qed.

End Languages.
